(* ===== verification/_CoqProject ===== *)
-Q . S2P
Prelude.v
Types.v
Messages.v
Wire.v
Codec.v
Descriptor.v
Expiry.v
Store.v
Merge.v
Cluster.v
Locking.v
Membership.v
Gossip.v
Client.v
Scenarios.v
