(* ===== verification/Prelude.v ===== *)
(** * A verification development for gokv: the replicated state engine

    gokv (github.com/tochemey/gokv) is a distributed in-memory key/value
    store.  Every node keeps a full replica of the cluster state, an [FSM]:
    a list of [NodeState] partitions, one per node id, each a Go map from
    key to [Entry].  Writes are local; replicas converge through memberlist's
    TCP push/pull anti-entropy, which calls the [Delegate] callbacks
    [LocalState] (marshal the FSM with protobuf) and [MergeRemoteState]
    (unmarshal a peer's bytes and fuse its FSM into the local one,
    last-writer-wins per entry, by whole seconds).

    ** Sources and the parts of the program

    - [src/internal/internalpb/gokv.pb.go] (generated from gokv.proto):
      the structs [Entry], [NodeState], [FSM], [NodeMeta] and the KVService
      messages with their nil-safe getters; the struct tags that fix the
      wire layout; the raw descriptor, the Go type and dependency tables
      and [file_internal_gokv_proto_init] that registers them.
    - [src/unnamed/part_001] (package cluster, file delegate.go): the
      [Delegate], the single engine of the node.  It owns the FSM and a
      [sync.RWMutex]; its methods are
        - the memberlist callbacks [NodeMeta], [NotifyMsg],
          [GetBroadcasts], [LocalState], [MergeRemoteState];
        - the local key/value operations [Put], [Get], [List], [Delete],
          [Exists] called by the cluster's client handlers;
        - helpers [newDelegate], [expired], [setExpiry].
    - The library google.golang.org/protobuf, which the sources call
      ([proto.Marshal], [proto.Unmarshal]) but do not contain: its wire
      primitives (protowire) and message coders are modelled from the
      library's behaviour, so that the callbacks can be modelled on bytes.
    - [src/unnamed/part_000] (client_test.go) holds the end-to-end tests,
      modelled as runs in [Scenarios.v].
    - [src/unnamed/part_002] is the README.  Its list of client calls
      (lines 23-34) and its janitor (line 35) describe code that is not
      among the sources (cluster/client.go); they are modelled in
      [Client.v] as the spec describes them, over the engine, and its
      design paragraph is checked against the push/pull model.

    ** Files of the development, in dependency order

    - [Prelude.v] (this file): the scope [gokv_scope], the hint databases
      [gokv] and [gokv_rw], the tactics of the development, and generic
      lemmas on lists of key/value pairs that model the iteration of a Go
      map ([for k, v := range m]).
    - [Types.v]: the protobuf messages as Records ([Entry], [NodeState],
      [FSM], [NodeMeta], [timestamppb.Timestamp], [durationpb.Duration],
      the KVService requests and responses), the getters, [AsTime_Unix]
      (Timestamp.AsTime().Unix(): seconds plus the nanoseconds carried
      into seconds, wrapped to int64 as Go's arithmetic wraps),
      the clock reading [GoTime] and [timestamppb_New]; integer widths
      (int64, int32, uint32) are Z with range predicates.
    - [Messages.v]: the KVService messages of gokv.pb.go and their getters.
    - [Wire.v]: the protobuf wire format as protowire writes and reads it:
      varints ([AppendVarint], [ConsumeVarint], at most 10 bytes, 64-bit
      wrap-around written out with [Z.land], [Z.shiftr], [mod]), tags,
      length-delimited and fixed fields, the skipping of unknown fields and
      groups ([ConsumeFieldValue]), the field loop of a message
      ([ParseFields]), UTF-8 validation, and marshal output as segments
      whose first failing one stops the marshal ([emit]): a string field
      that fails its UTF-8 check returns the error with the buffer written
      so far, a map key that fails it ([key_field], [appendMapItem])
      returns [nil].  Theorems: the
      varint round trip, the bounds of what [ConsumeVarint] returns, and
      termination of the loops.
    - [Codec.v]: [proto.Marshal] and [proto.Unmarshal] of the gokv
      messages, following the struct tags (proto3: zero values are not
      written; strings are checked for UTF-8 both ways; a message field
      read twice is merged; a decoding error leaves the partitions decoded
      before it in the destination).  Theorems: the FSM round trip for
      every iteration order of the maps (negative int64 and int32 values
      included), what a truncated buffer decodes to, that whatever the
      input the decoded FSM keeps its integers at their Go widths and its
      strings UTF-8, and that a map key that is not UTF-8 anywhere makes
      the whole marshal return nothing.
    - [Descriptor.v]: the raw descriptor bytes, [goTypes], [depIdxs],
      [init] and the table indexes of each message's generated [Reset],
      [ProtoReflect] and [Descriptor] methods, with a decoder of
      descriptor.proto built on [Wire.v].  Lemmas checked by evaluation
      tie the model to the generated file: the tables agree with each
      other and with the generated methods, and the codec's field numbers
      and wire types are those the descriptor declares.
    - [Expiry.v]: [expired], [setExpiry], [durationpb_New] and the
      visibility predicate; theorems on the expiry policy.
    - [Store.v]: the [Delegate] state Record, [newDelegate], and the local
      operations [Put], [Get], [Exists], [List], [Delete], each translated
      loop by loop (the Go map range loops are [map_has_key] and
      [map_find_key]); their functional specifications and the
      partition-shape invariant.
    - [Merge.v]: [MergeRemoteState]'s algorithm on decoded FSMs: indexing of
      the local partitions, the per-partition entry merge, and the rebuild
      of the partition list from a Go map whose iteration order is a
      parameter; the last-writer-wins characterisation, its abstract
      specification and the refinement theorem, monotonicity,
      tie-breaking, the partitions kept, and order independence.  The view
      of an FSM ([view]) is the map from node id to entries that Go's
      indexing loop builds (the last partition of an id wins), written
      independently of that loop and shown equal to it.
    - [Cluster.v]: a node's step relation (every state-changing operation
      is one atomic step, as the write lock makes it), reachability from
      [newDelegate], invariants by rule induction, and push/pull exchanges
      between replicas: convergence of a sequential exchange, tombstone
      propagation, a [Delete] that leaves a foreign copy visible, and the
      oscillation of a symmetric exchange on equal timestamps.
    - [Locking.v]: the [sync.RWMutex] of the [Delegate]: goroutines
      interleaved step by step, a write as the in-place phases of its
      body under [Lock] ([Put_phases]: the overwrite loop, then the
      insertion loop), a read under [RLock].  Its lemmas (every read
      returns the read of a state between complete writes, and the state
      is the serial composition of the completed writes) are properties of
      the mutex, not of gokv: they justify the atomic steps of
      [Cluster.v] and carry no claim of their own.
    - [Membership.v]: the callbacks (Module [Callbacks]) on bytes:
      [NodeMeta], [NotifyMsg], [GetBroadcasts], [LocalState] =
      [proto.Marshal] with its error dropped, [MergeRemoteState] =
      [proto.Unmarshal] with its error dropped, then the merge of
      [Merge.v].  Theorems: a push/pull through the bytes is the decoded
      merge, and a finding: a key that is not UTF-8, in any partition,
      makes [LocalState] send nothing, so the node replicates none of its
      partitions any more.
    - [Gossip.v]: the Go interface [memberlist.Delegate] as a class
      ([MemberlistDelegate]), memberlist's push/pull written once against
      it, and the laws a state-based replica promises through it
      ([ReplicaLaws]: the bytes of a sendable state merge as an abstract
      merge of views); the generic theorems use the laws only, and the
      instances for [Delegate] discharge them from the codec round trip
      and the merge refinement.  Theorems: a push/pull over the bytes
      between gokv nodes is the symmetric exchange of [Cluster.v].
    - [Client.v]: the client API of the README.  The [Codec] interface
      ([Encode]/[Decode]) is a class with its round-trip law
      ([CodecLaws]); [PutAny]/[GetAny] are written once against it, and
      [PutString]/[GetString], [PutProto]/[GetProto] are them at the
      instances for Go strings and for [testpb.Hello] (whose law is proved
      from the wire model).  [client_Get] and [client_List] hide
      tombstones; [janitor] deletes the node's own expired entries.
      Theorems: the typed round trip for every lawful codec;
      [ErrKeyNotFound] exactly when [Exists] is false; a node used alone
      refines a key/value map (every sequence of [Put]s without expiry
      and [Delete]s, at any clocks, read by [Get] and [Exists]); the
      janitor is invisible to client reads at its clock or later; and its
      tombstone, dated by the janitor's clock, replaces on any peer that
      merges it every copy not newer than that clock, a newer write not
      yet received included (a finding).
    - [Scenarios.v]: the five subtests of [TestClient] (client_test.go) as
      runs of the model: node 2 writes through its client, node 1 merges
      the bytes of node 2's [LocalState], node 1 reads through its client.
      Theorems: every run of the five subtests passes (each with its own
      calls and checks); the subtests with an expiry pass for every
      positive expiry, so they cannot detect that [expired] ignores the
      duration.

    ** Modelling choices

    - A Go [map[string]*Entry] is a stdpp [gmap string Entry].  A nil map
      and an empty map are identified: every write of the code into a map
      is guarded (by a key found in it, or by the [len(...) == 0] checks
      that allocate a fresh map), so no write to a nil map happens, and
      the wire format does not distinguish them.
    - The iteration order of a Go map is unspecified.  A [range] over a
      map is modelled by a list of its pairs; operations whose result
      could depend on the order take the list (the marshal takes one list
      per partition, [List_ranged] one per partition, the rebuild of
      [MergeRemoteState] one for the whole map) and the theorems quantify
      over every permutation of [map_to_list] ([MergeFSM_rel],
      [List_rel]).  The loops that look for one key ([Get], [Put],
      [Delete]) give the same result in every order, and are written over
      [map_to_list].  [MergeFSM] and [List] are the runs at the order of
      [map_to_list]; the client's [List] is stated at that order.
    - Entries are values: an [*Entry] pointer is modelled by the Entry it
      points to.  [Delete] mutates the Entry in place; this is equivalent
      for the engine's own state (the map holds the only reference inside
      the engine) and is recorded as a finding for readers holding an
      [*Entry] returned by [Get] or [List].
    - [time.Now()] is an explicit argument ([GoTime]) of the operations
      that read the clock, one argument per reading.
    - The [sync.RWMutex] makes each operation atomic ([Locking.v] proves
      it on an interleaving model); the step relation of [Cluster.v]
      then has one step per write operation.  Reads do not change the
      state.
    - Bytes are [Init.Byte.byte]; a uint64 on the wire is a Z in
      [0, 2^64), the casts to int64, int32 and uint32 are written out.
    - Fuel: the message loop and the group skipping recurse on the
      remaining input, and every iteration consumes at least one byte, so
      the fuel [S (length bs)] that [ParseFields] and [ConsumeFieldValue]
      pass is enough; [ParseFields_terminates] proves that the result is
      then the same for any larger fuel and never [OutOfFuel].  The
      descriptor decoder recurses into nested messages, each strictly
      shorter than its parent, and is given the fuel [S (length bs)] too.

    ** Not modelled

    - The [!protoimpl.UnsafeEnabled] branch of init (the [Exporter]
      closures, lines 954-1120 of gokv.pb.go), the message state that
      [Reset] and [ProtoReflect] attach, and the gzip compression of
      [rawDescGZIP]: reflection bookkeeping that the engine never
      observes (the indexes these methods use are modelled).
    - In the protobuf library: the retention of unknown fields (they are
      skipped, and gokv never reads them), the group nesting limit of
      10000 (replaced by fuel, which is enough), the size cache, and the
      deterministic-marshal option (gokv does not set it; the marshal is
      stated for every map order).
    - memberlist itself, the discovery providers, encryption, the RPC
      transport of the client calls and configuration (not part of the
      sources given, and the README only names them); the push/pull
      exchange is the order of the [LocalState] and [MergeRemoteState]
      calls.  The client and the janitor are modelled from the README and
      the spec (marked spec_modelled), since their code is not given
      either: a client call is
      the engine operation it projects to, and one janitor run deletes
      with one clock reading.
    - In the tests: the NATS server, the start and stop of the nodes,
      and the [testCodec] helper, whose [json.Marshal]/[json.Unmarshal]
      (encoding/json, a library outside the sources) no subtest uses;
      [NoExpiration] and the [testpb.Hello] message are taken from the
      client and test packages.
*)

From stdpp Require Export base gmap strings list fin_maps.
From Stdlib Require Export ZArith Lia.
From Stdlib Require Export Init.Byte.

Declare Scope gokv_scope.
Delimit Scope gokv_scope with gokv.
Open Scope Z_scope.

Create HintDb gokv.
Create Rewrite HintDb gokv_rw.

(** Decidable equality of bytes, needed for [Entry] values. *)
#[export] Instance byte_eq_decision : EqDecision byte := Byte.byte_eq_dec.

(** ** Go map iteration

    A [for k, v := range m] loop over a Go map visits the pairs of [m] in
    an unspecified order: a list [l] with [l ≡ₚ map_to_list m].  The
    lemmas below relate such lists, whose keys are distinct, to the map. *)

Section Range.
Context {V : Type}.
Implicit Types (l : list (string * V)) (m : gmap string V).

Lemma range_NoDup m l : l ≡ₚ map_to_list m → NoDup l.*1.
Proof. intros ->. apply NoDup_fst_map_to_list. Qed.

Lemma range_to_map m l : l ≡ₚ map_to_list m → list_to_map l = m.
Proof.
  intros Hl. rewrite <-(list_to_map_to_list m).
  apply list_to_map_proper; [by eapply range_NoDup | done].
Qed.

Lemma range_elem_of m l k v : l ≡ₚ map_to_list m → (k, v) ∈ l ↔ m !! k = Some v.
Proof. intros ->. apply elem_of_map_to_list. Qed.
End Range.

(** The loop [for k, v := range m { if k == key { ... return/break } }]:
    the first visited pair whose key is [key]. *)
Fixpoint range_find {V : Type} (key : string) (l : list (string * V)) : option V :=
  match l with
  | [] => None
  | (k, v) :: rest => if bool_decide (k = key) then Some v else range_find key rest
  end.

Section RangeFind.
Context {V : Type}.
Implicit Types (l : list (string * V)) (m : gmap string V).

Lemma range_find_list_to_map key l :
  NoDup l.*1 -> range_find key l = (list_to_map l : gmap string V) !! key.
Proof.
  induction l as [|[k v] l IH]; simpl; [done|]. intros Hnd.
  apply NoDup_cons in Hnd as [Hnin Hnd].
  case_bool_decide as Hk.
  - subst. by rewrite lookup_insert_eq.
  - rewrite lookup_insert_ne by done. by apply IH.
Qed.

(** Whatever the iteration order, the loop finds the map's binding. *)
Lemma range_find_lookup key m l :
  l ≡ₚ map_to_list m -> range_find key l = m !! key.
Proof.
  intros Hl. rewrite range_find_list_to_map by (by eapply range_NoDup).
  by rewrite (range_to_map m l Hl).
Qed.
End RangeFind.

#[export] Hint Resolve range_NoDup range_to_map : gokv.
#[export] Hint Rewrite @range_find_lookup using (reflexivity || assumption) : gokv_rw.

(** [zbool] turns the boolean comparisons of [Z] in the hypotheses into
    the propositions they decide, so that [lia] can use them. *)
Ltac zbool :=
  repeat match goal with
  | H : context [(_ >? _)] |- _ => rewrite Z.gtb_ltb in H
  | H : (_ <=? _) = true |- _ => apply Z.leb_le in H
  | H : (_ <=? _) = false |- _ => apply Z.leb_gt in H
  | H : (_ <? _) = true |- _ => apply Z.ltb_lt in H
  | H : (_ <? _) = false |- _ => apply Z.ltb_ge in H
  end.
