(* ===== verification/Types.v ===== *)
(** * Types: the protobuf messages of gokv.pb.go and the clock

    The structs of [src/internal/internalpb/gokv.pb.go] that the engine
    manipulates, as Records with the fields of the Go structs (the
    [protoimpl] bookkeeping fields [state], [sizeCache], [unknownFields]
    are left out: the engine never reads them), their nil-safe getters,
    and the two well-known types [timestamppb.Timestamp] and
    [durationpb.Duration].  Go integers of a fixed width are [Z] with a
    range predicate. *)

From S2P Require Import Prelude.

(** ** Integer widths *)

Definition int64_range (z : Z) : Prop := - 2 ^ 63 <= z < 2 ^ 63.
Definition int32_range (z : Z) : Prop := - 2 ^ 31 <= z < 2 ^ 31.
Definition uint32_range (z : Z) : Prop := 0 <= z < 2 ^ 32.

(** ** Well-known types *)

Module timestamppb.
(** google.protobuf.Timestamp: [Seconds int64; Nanos int32]. *)
Record Timestamp := mkTimestamp { Seconds : Z; Nanos : Z }.
End timestamppb.

Module durationpb.
(** google.protobuf.Duration: [Seconds int64; Nanos int32]. *)
Record Duration := mkDuration { Seconds : Z; Nanos : Z }.
End durationpb.

Abbreviation Timestamp := timestamppb.Timestamp.
Abbreviation Duration := durationpb.Duration.

(** A reading of [time.Now()]: the Unix second and the nanosecond within
    it, as [time.Time.Unix()] and [time.Time.Nanosecond()] return them. *)
Record GoTime := mkGoTime { GoTime_Unix : Z; GoTime_Nanosecond : Z }.

Definition GoTime_wf (t : GoTime) : Prop :=
  int64_range (GoTime_Unix t) /\ 0 <= GoTime_Nanosecond t < 10 ^ 9.

(** [timestamppb.New(t)]: [&Timestamp{Seconds: t.Unix(), Nanos: t.Nanosecond()}]. *)
Definition timestamppb_New (t : GoTime) : Timestamp :=
  {| timestamppb.Seconds := GoTime_Unix t; timestamppb.Nanos := GoTime_Nanosecond t |}.

(** The int64 result of Go integer arithmetic: two's complement
    wrap-around modulo [2^64]. *)
Definition wrap64 (z : Z) : Z := (z + 2 ^ 63) mod 2 ^ 64 - 2 ^ 63.

(** [ts.AsTime().Unix()] for a [*Timestamp] that may be nil.  [AsTime] is
    [time.Unix(x.GetSeconds(), int64(x.GetNanos())).UTC()]; [time.Unix]
    normalises nanoseconds outside [0, 1e9) into the seconds ([n := nsec /
    1e9; sec += n; ...; if nsec < 0 { sec-- }], floor division overall) in
    int64 arithmetic, which wraps; [Unix()] gives that second back (the
    offset [unixToInternal] added by [unixTime] and removed by [unixSec]
    cancels modulo [2^64]).  A nil timestamp reads as [time.Unix(0, 0)]. *)
Definition AsTime_Unix (ts : option Timestamp) : Z :=
  match ts with
  | None => 0
  | Some t => wrap64 (timestamppb.Seconds t + timestamppb.Nanos t / 10 ^ 9)
  end.

(** A timestamp as the protobuf library validates it (seconds within
    int64, nanos within [0, 1e9)). *)
Definition Timestamp_wf (t : Timestamp) : Prop :=
  int64_range (timestamppb.Seconds t) /\ 0 <= timestamppb.Nanos t < 10 ^ 9.

(** ** The messages of gokv.proto *)

(** [Entry]: the key/value pair, its tombstone flag (a proto3 [optional]
    field, hence a pointer), its last update time and its expiry. *)
Record Entry := mkEntry {
  Key : string;
  Value : list byte;
  Archived : option bool;
  LastUpdatedTime : option Timestamp;
  Expiry : option Duration
}.

(** [NodeState]: one partition, the entries first written by [NodeId]. *)
Record NodeState := mkNodeState {
  NodeId : string;
  Entries : gmap string Entry
}.

(** [FSM]: the replicated state, a repeated field of partitions. *)
Record FSM := mkFSM { NodeStates : list NodeState }.

(** [NodeMeta]: the node identity broadcast by memberlist. *)
Record NodeMeta := mkNodeMeta {
  Name : string;
  Host : string;
  Port : Z;
  DiscoveryPort : Z;
  CreationTime : option Timestamp
}.

(** ** Getters

    The generated getters return the zero value on a nil receiver.  The
    engine only calls them on non-nil messages, so they are projections,
    except [GetArchived], which also reads through the [*bool]. *)

Definition GetArchived (x : Entry) : bool :=
  match Archived x with
  | Some b => b
  | None => false
  end.

Definition GetLastUpdatedTime (x : Entry) : option Timestamp := LastUpdatedTime x.
Definition GetExpiry (x : Entry) : option Duration := Expiry x.
Definition GetNodeId (x : NodeState) : string := NodeId x.
Definition GetEntries (x : NodeState) : gmap string Entry := Entries x.
Definition GetNodeStates (x : FSM) : list NodeState := NodeStates x.

(** ** Decidable equality *)

#[export] Instance Timestamp_eq_dec : EqDecision Timestamp.
Proof. solve_decision. Defined.
#[export] Instance Duration_eq_dec : EqDecision Duration.
Proof. solve_decision. Defined.
#[export] Instance Entry_eq_dec : EqDecision Entry.
Proof. solve_decision. Defined.
#[export] Instance NodeState_eq_dec : EqDecision NodeState.
Proof. solve_decision. Defined.
#[export] Instance FSM_eq_dec : EqDecision FSM.
Proof. solve_decision. Defined.

(** ** Elementary facts *)

(** No wrap-around within int64. *)
Lemma wrap64_small z : int64_range z -> wrap64 z = z.
Proof. unfold wrap64, int64_range. intros Hz. rewrite Z.mod_small; lia. Qed.

Lemma wrap64_range z : int64_range (wrap64 z).
Proof.
  unfold wrap64, int64_range. pose proof (Z.mod_pos_bound (z + 2 ^ 63) (2 ^ 64)). lia.
Qed.

Lemma AsTime_Unix_New (t : GoTime) :
  GoTime_wf t -> AsTime_Unix (Some (timestamppb_New t)) = GoTime_Unix t.
Proof.
  intros [Hs Hn]. simpl. rewrite (Z.div_small _ _ Hn), Z.add_0_r. by apply wrap64_small.
Qed.

Lemma AsTime_Unix_wf (t : Timestamp) :
  Timestamp_wf t -> AsTime_Unix (Some t) = timestamppb.Seconds t.
Proof.
  intros [Hs Hn]. simpl. rewrite (Z.div_small _ _ Hn), Z.add_0_r. by apply wrap64_small.
Qed.

#[export] Hint Rewrite AsTime_Unix_New AsTime_Unix_wf using (assumption || lia) : gokv_rw.
