(* ===== verification/Messages.v ===== *)
(** * Messages: the KVService request and response messages

    The remaining messages of [src/internal/internalpb/gokv.pb.go]: the
    requests and responses of the client RPC service ([KVService.Put],
    [Get], [Delete], [KeyExists], [List]) and the getters of [NodeMeta].
    Each message is a Record in a Module of its Go name; each generated
    getter takes the message pointer, [None] standing for a nil receiver,
    and returns the field or the zero value, as the generated code does.
    The engine does not use these messages; the client adapter that does
    is not among the sources. *)

From S2P Require Import Prelude Types.

Module NodeMetaGetters.
Definition GetName (x : option NodeMeta) : string :=
  match x with Some m => Name m | None => "" end.
Definition GetHost (x : option NodeMeta) : string :=
  match x with Some m => Host m | None => "" end.
Definition GetPort (x : option NodeMeta) : Z :=
  match x with Some m => Port m | None => 0 end.
Definition GetDiscoveryPort (x : option NodeMeta) : Z :=
  match x with Some m => DiscoveryPort m | None => 0 end.
Definition GetCreationTime (x : option NodeMeta) : option Timestamp :=
  match x with Some m => CreationTime m | None => None end.
End NodeMetaGetters.

Module GetRequest.
Record t := mk { Key : string }.
Definition GetKey (x : option t) : string := match x with Some r => Key r | None => "" end.
End GetRequest.

Module GetResponse.
Record t := mk { Entry : option Types.Entry }.
Definition GetEntry (x : option t) : option Types.Entry :=
  match x with Some r => Entry r | None => None end.
End GetResponse.

Module PutRequest.
Record t := mk { Key : string; Value : list byte; Expiry : option Duration }.
Definition GetKey (x : option t) : string := match x with Some r => Key r | None => "" end.
Definition GetValue (x : option t) : list byte := match x with Some r => Value r | None => [] end.
Definition GetExpiry (x : option t) : option Duration :=
  match x with Some r => Expiry r | None => None end.
End PutRequest.

Module PutResponse.
Record t := mk {}.
End PutResponse.

Module DeleteRequest.
Record t := mk { Key : string }.
Definition GetKey (x : option t) : string := match x with Some r => Key r | None => "" end.
End DeleteRequest.

Module DeleteResponse.
Record t := mk {}.
End DeleteResponse.

Module KeyExistsRequest.
Record t := mk { Key : string }.
Definition GetKey (x : option t) : string := match x with Some r => Key r | None => "" end.
End KeyExistsRequest.

Module KeyExistResponse.
Record t := mk { Exists : bool }.
Definition GetExists (x : option t) : bool := match x with Some r => Exists r | None => false end.
End KeyExistResponse.

Module ListRequest.
Record t := mk {}.
End ListRequest.

Module ListResponse.
Record t := mk { Entries : list Types.Entry }.
Definition GetEntries (x : option t) : list Types.Entry :=
  match x with Some r => Entries r | None => [] end.
End ListResponse.
