(* ===== verification/Wire.v ===== *)
(** * Wire: the protobuf wire format as protobuf-go reads and writes it

    [LocalState] and [NodeMeta] serialize messages with [proto.Marshal]
    and [MergeRemoteState] reads them back with [proto.Unmarshal]
    ([src/unnamed/part_001], lines 64, 98, 111).  The codec those calls run
    is the one protobuf-go derives from the struct tags and the raw
    descriptor of [gokv.pb.go]; its primitives live in the library
    package [protowire].  This file models those primitives on
    [list byte]: varints ([AppendVarint], [ConsumeVarint]), tags,
    length-delimited payloads, the skipping of a field value of any wire
    type (groups included), the field loop of a message, and the UTF-8
    check protobuf-go applies to proto3 [string] fields.

    Loops over the input are [Fixpoint]s with fuel; the theorems show
    that [length] of the input plus one is always enough fuel and that
    more fuel changes nothing, so the fuelled definitions are the loops.

    Marshalling writes into a growing buffer and may stop at an error: an
    encoding is a list of segments, each a run of bytes with the outcome
    of the check made after writing it ([check]).  A proto3 string field
    that is not UTF-8 is written, then reported, and its append function
    returns [b, err] ([ChkErr]); a map key that is not UTF-8 makes
    [appendMapItem] return [nil, err] ([ChkErrNil]), which the enclosing
    appends pass up unchanged.  [emit] returns the bytes written up to
    the first failing segment, or nothing after a [ChkErrNil]. *)

From S2P Require Import Prelude Types.

Create Rewrite HintDb wire_rw.

(** ** Bytes and fixed-width integers *)

Definition byte_val (b : byte) : Z := Z.of_N (Byte.to_N b).

Definition byte_of (z : Z) : byte :=
  match Byte.of_N (Z.to_N (z mod 256)) with Some b => b | None => x00 end.

(** [uint64(v)] of a Go signed integer, and the conversions back that
    the generated decoders apply to a varint: [int64(v)], [int32(v)],
    [uint32(v)]. *)
Definition uint64_of (z : Z) : Z := z mod 2 ^ 64.
Definition int64_of (v : Z) : Z := if v <? 2 ^ 63 then v else v - 2 ^ 64.
Definition int32_of (v : Z) : Z :=
  let w := Z.land v (2 ^ 32 - 1) in if w <? 2 ^ 31 then w else w - 2 ^ 32.
Definition uint32_of (v : Z) : Z := Z.land v (2 ^ 32 - 1).

(** ** Varints (protowire.AppendVarint, protowire.ConsumeVarint) *)

(** Seven bits per byte, low group first, high bit set on every byte but
    the last; at most ten bytes for a [uint64]. *)
Fixpoint append_varint_n (n : nat) (v : Z) : list byte :=
  match n with
  | O => []
  | S n' =>
      if v <? 128 then [byte_of v]
      else byte_of (v mod 128 + 128) :: append_varint_n n' (v / 128)
  end.

Definition AppendVarint (v : Z) : list byte := append_varint_n 10 v.

(** [ConsumeVarint] reads at most ten bytes; a byte below [0x80] ends the
    number, and the tenth byte must be [0] or [1] ([errCodeOverflow]
    otherwise).  [None] is a negative length (truncated or overflow). *)
Fixpoint consume_varint_n (n : nat) (bs : list byte) : option (Z * list byte) :=
  match bs with
  | [] => None
  | b :: rest =>
      let y := byte_val b in
      match n with
      | O => None
      | S O => if y <? 2 then Some (y, rest) else None
      | S n' =>
          if y <? 128 then Some (y, rest)
          else match consume_varint_n n' rest with
               | Some (v, r) => Some (y - 128 + 128 * v, r)
               | None => None
               end
      end
  end.

Definition ConsumeVarint (bs : list byte) : option (Z * list byte) :=
  consume_varint_n 10 bs.

(** ** Tags and length-delimited values *)

Definition VarintType : Z := 0.
Definition Fixed64Type : Z := 1.
Definition BytesType : Z := 2.
Definition StartGroupType : Z := 3.
Definition EndGroupType : Z := 4.
Definition Fixed32Type : Z := 5.

Definition MaxValidNumber : Z := 2 ^ 29 - 1.

(** [protowire.EncodeTag]: [uint64(num)<<3 | uint64(typ&7)]. *)
Definition EncodeTag (num typ : Z) : Z := Z.lor (Z.shiftl num 3) (Z.land typ 7).

Definition AppendTag (num typ : Z) : list byte := AppendVarint (EncodeTag num typ).

(** [protowire.ConsumeTag]: [DecodeTag] maps a number above [MaxInt32]
    to [-1]; a number below [1] is [errCodeFieldNumber]. *)
Definition ConsumeTag (bs : list byte) : option (Z * Z * list byte) :=
  match ConsumeVarint bs with
  | Some (v, r) =>
      let num := if Z.shiftr v 3 >? 2 ^ 31 - 1 then -1 else Z.shiftr v 3 in
      if num <? 1 then None else Some (num, Z.land v 7, r)
  | None => None
  end.

Definition AppendBytes (v : list byte) : list byte :=
  AppendVarint (Z.of_nat (length v)) ++ v.

(** [protowire.ConsumeBytes]: a length, then that many bytes
    ([errCodeTruncated] when fewer remain). *)
Definition ConsumeBytes (bs : list byte) : option (list byte * list byte) :=
  match ConsumeVarint bs with
  | Some (m, r) =>
      if m <=? Z.of_nat (length r) then Some (take (Z.to_nat m) r, drop (Z.to_nat m) r)
      else None
  | None => None
  end.

(** [ConsumeFixed32] / [ConsumeFixed64]: four or eight raw bytes. *)
Definition ConsumeFixed (n : nat) (bs : list byte) : option (list byte * list byte) :=
  if bool_decide (n <= length bs)%nat then Some (take n bs, drop n bs) else None.

(** ** Field values *)

(** A field value as the message loop hands it to a field decoder: the
    varint, the raw fixed bytes, the payload of a length-delimited field;
    a group is only ever skipped. *)
Inductive wire_value :=
  | WVarint (v : Z)
  | WFixed64 (bs : list byte)
  | WBytes (bs : list byte)
  | WFixed32 (bs : list byte)
  | WGroup.

Record field := mkField { fnum : Z; fval : wire_value }.

(** The outcome of a fuelled loop: a value, a decoding error of the
    library ([errDecode] and the [errCode...] of protowire), or fuel
    exhausted (which the termination theorems rule out). *)
Inductive outcome (A : Type) := Done (a : A) | Failed | OutOfFuel.
Arguments Done {A} a.
Arguments Failed {A}.
Arguments OutOfFuel {A}.

(** The wire types other than groups: a varint, eight or four raw bytes,
    a length-delimited payload; [EndGroup] out of place and the reserved
    wire types 6 and 7 are errors. *)
Definition consume_scalar (typ : Z) (bs : list byte) : option (wire_value * list byte) :=
  if typ =? VarintType then
    match ConsumeVarint bs with Some (v, r) => Some (WVarint v, r) | None => None end
  else if typ =? Fixed64Type then
    match ConsumeFixed 8 bs with Some (v, r) => Some (WFixed64 v, r) | None => None end
  else if typ =? BytesType then
    match ConsumeBytes bs with Some (v, r) => Some (WBytes v, r) | None => None end
  else if typ =? Fixed32Type then
    match ConsumeFixed 4 bs with Some (v, r) => Some (WFixed32 v, r) | None => None end
  else None.

(** [protowire.ConsumeFieldValue num typ b]: the value of one field, by
    wire type.  A group is a sequence of fields up to the [EndGroup] tag
    of the same number. *)
Fixpoint consume_field_value (fuel : nat) (num typ : Z) (bs : list byte)
    : outcome (wire_value * list byte) :=
  match fuel with
  | O => OutOfFuel
  | S f =>
      if typ =? StartGroupType then
        match ConsumeTag bs with
        | None => Failed
        | Some (num2, typ2, r) =>
            if typ2 =? EndGroupType then
              (if num2 =? num then Done (WGroup, r) else Failed)
            else match consume_field_value f num2 typ2 r with
                 | Done (_, r') => consume_field_value f num StartGroupType r'
                 | Failed => Failed
                 | OutOfFuel => OutOfFuel
                 end
        end
      else match consume_scalar typ bs with Some x => Done x | None => Failed end
  end.

Definition ConsumeFieldValue (num typ : Z) (bs : list byte) : outcome (wire_value * list byte) :=
  consume_field_value (S (length bs)) num typ bs.

(** The loop of [unmarshalPointer] (impl/decode.go): read a tag, reject a
    number outside [1, MaxValidNumber], read the value.  It returns the
    fields read and whether the input ended cleanly; the fields before a
    malformed one are the part of the message already decoded. *)
Fixpoint parse_fields (fuel : nat) (bs : list byte) : list field * outcome unit :=
  match bs with
  | [] => ([], Done tt)
  | _ =>
      match fuel with
      | O => ([], OutOfFuel)
      | S f =>
          match ConsumeVarint bs with
          | None => ([], Failed)
          | Some (tag, r) =>
              let num := Z.shiftr tag 3 in
              if (num <? 1) || (MaxValidNumber <? num) then ([], Failed)
              else match ConsumeFieldValue num (Z.land tag 7) r with
                   | Done (v, r') =>
                       let '(fs, st) := parse_fields f r' in (mkField num v :: fs, st)
                   | Failed => ([], Failed)
                   | OutOfFuel => ([], OutOfFuel)
                   end
          end
      end
  end.

Definition ParseFields (bs : list byte) : list field * outcome unit :=
  parse_fields (S (length bs)) bs.

(** ** UTF-8 (unicode/utf8.Valid)

    protobuf-go checks every proto3 [string] field, when it writes it and
    when it reads it.  A continuation byte is in [0x80, 0xBF]; the second
    byte of a three- or four-byte sequence has the narrower ranges that
    exclude overlong forms, surrogates and code points above U+10FFFF. *)
Definition in_range (lo hi : Z) (b : byte) : bool := (lo <=? byte_val b) && (byte_val b <=? hi).

Fixpoint utf8_valid (bs : list byte) : bool :=
  match bs with
  | [] => true
  | b0 :: r =>
      let x := byte_val b0 in
      if x <? 128 then utf8_valid r
      else if x <? 194 then false
      else if x <? 224 then
        match r with b1 :: r1 => in_range 128 191 b1 && utf8_valid r1 | _ => false end
      else if x <? 240 then
        match r with
        | b1 :: b2 :: r2 =>
            in_range (if x =? 224 then 160 else 128) (if x =? 237 then 159 else 191) b1
            && in_range 128 191 b2 && utf8_valid r2
        | _ => false
        end
      else if x <? 245 then
        match r with
        | b1 :: b2 :: b3 :: r3 =>
            in_range (if x =? 240 then 144 else 128) (if x =? 244 then 143 else 191) b1
            && in_range 128 191 b2 && in_range 128 191 b3 && utf8_valid r3
        | _ => false
        end
      else false
  end.

(** A Go [string] is its bytes. *)
Definition str_bytes (s : string) : list byte := Stdlib.Strings.String.list_byte_of_string s.

(** ** Segments of an encoding *)

(** The check made by a field writer of the marshal: it passed; it
    failed and the writer returned the buffer with the error
    ([appendStringValidateUTF8] returns [b, errInvalidUTF8{}], the string
    written); or it failed and the writer returned [nil] ([appendMapItem]
    returns [nil, err] when the key of a map entry fails, and every caller
    up to [proto.Marshal] returns the buffer it is given). *)
Inductive check := ChkOk | ChkErr | ChkErrNil.

(** The bytes a field writer appends and its check. *)
Definition seg := (list byte * check)%type.

Definition seg_bytes (s : list seg) : list byte := concat (map fst s).

Definition passed (c : check) : bool := match c with ChkOk => true | _ => false end.

Definition segs_ok (s : list seg) : bool := forallb (fun x => passed x.2) s.

(** The marshal loop over the field writers, the buffer threaded through
    as Go threads [b]: the buffer and whether no error was returned. *)
Fixpoint emit_from (buf : list byte) (s : list seg) : list byte * bool :=
  match s with
  | [] => (buf, true)
  | (b, ChkOk) :: s' => emit_from (buf ++ b) s'
  | (b, ChkErr) :: _ => (buf ++ b, false)
  | (_, ChkErrNil) :: _ => ([], false)
  end.

Definition emit (s : list seg) : list byte * bool := emit_from [] s.

(** The wire form of one field as the message loop reads it back. *)
Definition field_bytes (f : field) : list byte :=
  match fval f with
  | WVarint v => AppendTag (fnum f) VarintType ++ AppendVarint v
  | WBytes bs => AppendTag (fnum f) BytesType ++ AppendBytes bs
  | WFixed64 bs => AppendTag (fnum f) Fixed64Type ++ bs
  | WFixed32 bs => AppendTag (fnum f) Fixed32Type ++ bs
  | WGroup => AppendTag (fnum f) StartGroupType ++ AppendTag (fnum f) EndGroupType
  end.

(** The field writers of the generated coders: a varint field, a string
    field (checked after it is written), a bytes field, and a message
    field (tag, size of the sub-message, the sub-message). *)
Definition varint_field (num v : Z) : seg := (AppendTag num VarintType ++ AppendVarint v, ChkOk).
Definition string_field (num : Z) (s : string) : seg :=
  (AppendTag num BytesType ++ AppendBytes (str_bytes s),
   if utf8_valid (str_bytes s) then ChkOk else ChkErr).
(** The key of a map entry: the same bytes, but a failed check drops the
    buffer. *)
Definition key_field (num : Z) (s : string) : seg :=
  (AppendTag num BytesType ++ AppendBytes (str_bytes s),
   if utf8_valid (str_bytes s) then ChkOk else ChkErrNil).
Definition bytes_field (num : Z) (v : list byte) : seg := (AppendTag num BytesType ++ AppendBytes v, ChkOk).
Definition message_field (num : Z) (sub : list seg) : list seg :=
  (AppendTag num BytesType ++ AppendVarint (Z.of_nat (length (seg_bytes sub))), ChkOk) :: sub.

(** ** Bytes *)

Lemma byte_val_range b : 0 <= byte_val b < 256.
Proof. unfold byte_val. pose proof (Byte.to_N_bounded b). lia. Qed.

Lemma byte_val_of z : byte_val (byte_of z) = z mod 256.
Proof.
  unfold byte_of, byte_val. destruct (Byte.of_N _) as [b|] eqn:E.
  - apply Byte.to_of_N in E. rewrite E, Z2N.id; [done|]. apply Z.mod_pos_bound. lia.
  - apply Byte.of_N_None_iff in E. pose proof (Z.mod_pos_bound z 256). lia.
Qed.

#[export] Hint Rewrite byte_val_of : gokv_rw.

(** ** Varints *)

Lemma consume_varint_n_SS n b bs :
  consume_varint_n (S (S n)) (b :: bs) =
  if byte_val b <? 128 then Some (byte_val b, bs)
  else match consume_varint_n (S n) bs with
       | Some (v, r) => Some (byte_val b - 128 + 128 * v, r)
       | None => None
       end.
Proof. reflexivity. Qed.

Lemma append_varint_n_S n v :
  append_varint_n (S n) v =
  if v <? 128 then [byte_of v] else byte_of (v mod 128 + 128) :: append_varint_n n (v / 128).
Proof. reflexivity. Qed.

Lemma consume_append_varint_n n v rest :
  (0 < n)%nat -> 0 <= v < 2 * 128 ^ Z.of_nat (n - 1) ->
  consume_varint_n n (append_varint_n n v ++ rest) = Some (v, rest).
Proof.
  revert v. induction n as [|[|n] IH]; intros v Hn Hv; [lia| |].
  - simpl in Hv. cbn [append_varint_n].
    rewrite (proj2 (Z.ltb_lt v 128)) by lia. simpl.
    rewrite byte_val_of, Z.mod_small by lia. by rewrite (proj2 (Z.ltb_lt v 2)) by lia.
  - rewrite append_varint_n_S. destruct (Z.ltb_spec v 128); cbn [app];
      rewrite consume_varint_n_SS, byte_val_of.
    + rewrite Z.mod_small by lia. by rewrite (proj2 (Z.ltb_lt v 128)).
    + rewrite Z.mod_small by (pose proof (Z.mod_pos_bound v 128); lia).
      rewrite (proj2 (Z.ltb_ge _ 128)) by (pose proof (Z.mod_pos_bound v 128); lia).
      rewrite IH; [|lia|].
      * f_equal. f_equal. pose proof (Z.div_mod v 128). lia.
      * replace (Z.of_nat (S (S n) - 1)) with (Z.of_nat (S n - 1) + 1) in Hv by lia.
        rewrite Z.pow_add_r in Hv by lia. split; [apply Z.div_pos; lia|].
        apply Z.div_lt_upper_bound; lia.
Qed.

(** Reading back a varint gives the number and the rest of the input. *)
Lemma ConsumeVarint_AppendVarint v rest :
  0 <= v < 2 ^ 64 -> ConsumeVarint (AppendVarint v ++ rest) = Some (v, rest).
Proof. intros Hv. apply consume_append_varint_n; [lia|]. exact Hv. Qed.

Lemma consume_varint_n_spec n bs v r :
  consume_varint_n n bs = Some (v, r) ->
  0 <= v < 2 * 128 ^ Z.of_nat (n - 1) /\ (length r < length bs <= length r + n)%nat.
Proof.
  revert bs v r. induction n as [|[|n] IH]; intros [|b bs] v r Hc; try done.
  - simpl in Hc. pose proof (byte_val_range b).
    destruct (Z.ltb_spec (byte_val b) 2); simplify_eq. simpl. lia.
  - rewrite consume_varint_n_SS in Hc. pose proof (byte_val_range b).
    destruct (Z.ltb_spec (byte_val b) 128).
    + simplify_eq. split; [|simpl; lia].
      replace (Z.of_nat (S (S n) - 1)) with (Z.of_nat n + 1) by lia.
      rewrite Z.pow_add_r by lia. pose proof (Z.pow_pos_nonneg 128 (Z.of_nat n)). lia.
    + destruct (consume_varint_n (S n) bs) as [[v' r']|] eqn:E; simplify_eq.
      destruct (IH bs v' r E) as [Hv' Hl]. split; [|simpl; lia].
      replace (Z.of_nat (S (S n) - 1)) with (Z.of_nat (S n - 1) + 1) by lia.
      rewrite Z.pow_add_r by lia. lia.
Qed.

Lemma ConsumeVarint_spec bs v r :
  ConsumeVarint bs = Some (v, r) -> 0 <= v < 2 ^ 64 /\ (length r < length bs)%nat.
Proof. intros H. apply consume_varint_n_spec in H. split; [apply H|lia]. Qed.

Lemma length_append_varint_n n v : (length (append_varint_n n v) <= n)%nat.
Proof.
  revert v. induction n as [|n IH]; intros v; simpl; [lia|].
  destruct (v <? 128); simpl; [lia|]. specialize (IH (v / 128)). lia.
Qed.

(** ** Tags *)

Lemma lor_shiftl_low a b n :
  0 <= n -> 0 <= b < 2 ^ n -> Z.lor (Z.shiftl a n) b = a * 2 ^ n + b.
Proof.
  intros Hn Hb. rewrite Z.shiftl_mul_pow2 by lia.
  assert (Hd : Z.land (a * 2 ^ n) b = 0).
  { apply Z.bits_inj'; intros i Hi. rewrite Z.land_spec, Z.bits_0.
    destruct (Z.lt_ge_cases i n).
    - rewrite <-Z.shiftl_mul_pow2, Z.shiftl_spec_low by lia. done.
    - rewrite <-(Z.mod_small b (2 ^ n)), Z.mod_pow2_bits_high by lia. apply andb_false_r. }
  by rewrite <-Z.lxor_lor, Z.add_nocarry_lxor.
Qed.

Lemma EncodeTag_eq num typ :
  0 <= typ < 8 -> EncodeTag num typ = num * 8 + typ.
Proof.
  intros Ht. unfold EncodeTag. change 7 with (Z.ones 3).
  rewrite Z.land_ones, Z.mod_small by lia. by apply lor_shiftl_low.
Qed.

Lemma decode_EncodeTag num typ :
  0 <= num -> 0 <= typ < 8 ->
  Z.shiftr (EncodeTag num typ) 3 = num /\ Z.land (EncodeTag num typ) 7 = typ.
Proof.
  intros Hn Ht. rewrite EncodeTag_eq by done. change 7 with (Z.ones 3).
  rewrite Z.shiftr_div_pow2, Z.land_ones by lia. change (2 ^ 3) with 8.
  split; Z.div_mod_to_equations; lia.
Qed.

Lemma EncodeTag_range num typ :
  0 <= num <= MaxValidNumber -> 0 <= typ < 8 -> 0 <= EncodeTag num typ < 2 ^ 64.
Proof. intros. rewrite EncodeTag_eq by done. unfold MaxValidNumber in *. lia. Qed.

(** ** Length-delimited values *)

Lemma ConsumeBytes_AppendBytes v rest :
  (Z.of_nat (length v) < 2 ^ 64) ->
  ConsumeBytes (AppendBytes v ++ rest) = Some (v, rest).
Proof.
  intros Hl. unfold ConsumeBytes, AppendBytes. rewrite <-app_assoc.
  rewrite ConsumeVarint_AppendVarint by lia. rewrite length_app.
  rewrite (proj2 (Z.leb_le _ _)) by lia. rewrite Nat2Z.id.
  by rewrite take_app_length, drop_app_length.
Qed.

Lemma ConsumeBytes_length bs v r :
  ConsumeBytes bs = Some (v, r) -> (length r < length bs)%nat.
Proof.
  unfold ConsumeBytes. destruct (ConsumeVarint bs) as [[m r0]|] eqn:E; [|done].
  apply ConsumeVarint_spec in E as [_ E]. destruct (m <=? _); [|done].
  intros [= _ <-]. rewrite length_drop. lia.
Qed.

Lemma ConsumeTag_length bs num typ r :
  ConsumeTag bs = Some (num, typ, r) -> (length r < length bs)%nat.
Proof.
  unfold ConsumeTag. destruct (ConsumeVarint bs) as [[v r0]|] eqn:E; [|done].
  apply ConsumeVarint_spec in E as [_ E]. destruct (_ <? 1); [done|]. by intros [= _ _ <-].
Qed.

Lemma ConsumeFixed_length n bs v r :
  (0 < n)%nat -> ConsumeFixed n bs = Some (v, r) -> (length r < length bs)%nat.
Proof.
  unfold ConsumeFixed. intros Hn. case_bool_decide; [|done]. intros [= _ <-].
  rewrite length_drop. lia.
Qed.

(** ** Termination of the field loops *)

Lemma consume_scalar_length typ bs v r :
  consume_scalar typ bs = Some (v, r) -> (length r < length bs)%nat.
Proof.
  unfold consume_scalar. repeat case_match; intros; simplify_eq.
  all: match goal with
       | H : ConsumeVarint _ = Some _ |- _ => apply ConsumeVarint_spec in H; lia
       | H : ConsumeBytes _ = Some _ |- _ => by eapply ConsumeBytes_length
       | H : ConsumeFixed _ _ = Some _ |- _ => eapply ConsumeFixed_length; [|exact H]; lia
       end.
Qed.

Lemma consume_field_value_length f num typ bs v r :
  consume_field_value f num typ bs = Done (v, r) -> (length r < length bs)%nat.
Proof.
  revert num typ bs v r. induction f as [|f IH]; intros num typ bs v r; [done|].
  cbn [consume_field_value]. destruct (typ =? StartGroupType).
  2: destruct (consume_scalar typ bs) as [[x r0]|] eqn:E; intros; simplify_eq;
     eauto using consume_scalar_length.
  destruct (ConsumeTag bs) as [[[num2 typ2] r0]|] eqn:E; [|done].
  apply ConsumeTag_length in E. destruct (typ2 =? EndGroupType).
  { destruct (num2 =? num); intros; simplify_eq. lia. }
  destruct (consume_field_value f num2 typ2 r0) as [[x r1]| |] eqn:E2; try done.
  intros Hc. apply IH in E2, Hc. lia.
Qed.

(** Enough fuel: the length of the input bounds the number of fields,
    at every depth of nesting, so [S (length bs)] never runs out. *)
Lemma consume_field_value_fuel f1 f2 num typ bs :
  (length bs < f1)%nat -> (length bs < f2)%nat ->
  consume_field_value f1 num typ bs = consume_field_value f2 num typ bs /\
  consume_field_value f1 num typ bs <> OutOfFuel.
Proof.
  revert f2 num typ bs. induction f1 as [|f1 IH]; intros [|f2] num typ bs H1 H2; try lia.
  cbn [consume_field_value]. destruct (typ =? StartGroupType).
  2: by destruct (consume_scalar typ bs).
  destruct (ConsumeTag bs) as [[[num2 typ2] r0]|] eqn:E; [|done].
  apply ConsumeTag_length in E. destruct (typ2 =? EndGroupType); [by case_match|].
  destruct (IH f2 num2 typ2 r0 ltac:(lia) ltac:(lia)) as [-> Hne].
  destruct (consume_field_value f2 num2 typ2 r0) as [[x r1]| |] eqn:E2; try done.
  apply consume_field_value_length in E2. apply IH; lia.
Qed.

Lemma ConsumeFieldValue_not_OutOfFuel num typ bs : ConsumeFieldValue num typ bs <> OutOfFuel.
Proof. apply (consume_field_value_fuel _ (S (length bs))); lia. Qed.

Lemma parse_fields_fuel f1 f2 bs :
  (length bs < f1)%nat -> (length bs < f2)%nat ->
  parse_fields f1 bs = parse_fields f2 bs /\ (parse_fields f1 bs).2 <> OutOfFuel.
Proof.
  revert f2 bs. induction f1 as [|f1 IH]; intros [|f2] [|b bs] H1 H2;
    try (simpl in *; lia); [done|].
  cbn [parse_fields]. destruct (ConsumeVarint (b :: bs)) as [[tag r]|] eqn:E; [|done].
  apply ConsumeVarint_spec in E as [_ E]. destruct (_ || _); [done|].
  destruct (ConsumeFieldValue _ _ r) as [[v r']| |] eqn:E2; [|done|].
  2: by apply ConsumeFieldValue_not_OutOfFuel in E2.
  apply consume_field_value_length in E2. simpl in *.
  destruct (IH f2 r' ltac:(lia) ltac:(lia)) as [-> Hne].
  by destruct (parse_fields f2 r').
Qed.

Lemma parse_fields_unfold f bs :
  bs <> [] ->
  parse_fields (S f) bs =
  match ConsumeVarint bs with
  | None => ([], Failed)
  | Some (tag, r) =>
      let num := Z.shiftr tag 3 in
      if (num <? 1) || (MaxValidNumber <? num) then ([], Failed)
      else match ConsumeFieldValue num (Z.land tag 7) r with
           | Done (v, r') => let '(fs, st) := parse_fields f r' in (mkField num v :: fs, st)
           | Failed => ([], Failed)
           | OutOfFuel => ([], OutOfFuel)
           end
  end.
Proof. by destruct bs. Qed.

Lemma AppendVarint_ne v : AppendVarint v <> [].
Proof. unfold AppendVarint. cbn [append_varint_n]. by destruct (v <? 128). Qed.

(** ** Round trip of a field *)

(** A field the generated coders of gokv write: a varint or a
    length-delimited payload, under a valid field number. *)
Definition field_wf (f : field) : Prop :=
  1 <= fnum f <= MaxValidNumber /\
  match fval f with
  | WVarint v => 0 <= v < 2 ^ 64
  | WBytes bs => Z.of_nat (length bs) < 2 ^ 64
  | _ => False
  end.

Lemma ConsumeFieldValue_varint n v rest :
  0 <= v < 2 ^ 64 -> ConsumeFieldValue n VarintType (AppendVarint v ++ rest) = Done (WVarint v, rest).
Proof.
  intros Hv. unfold ConsumeFieldValue. cbn [consume_field_value].
  unfold consume_scalar, VarintType, StartGroupType. cbn -[ConsumeVarint AppendVarint]. by rewrite ConsumeVarint_AppendVarint.
Qed.

Lemma ConsumeFieldValue_bytes n bs rest :
  Z.of_nat (length bs) < 2 ^ 64 ->
  ConsumeFieldValue n BytesType (AppendBytes bs ++ rest) = Done (WBytes bs, rest).
Proof.
  intros Hv. unfold ConsumeFieldValue. cbn [consume_field_value].
  unfold consume_scalar, BytesType, StartGroupType. cbn -[ConsumeBytes AppendBytes]. by rewrite ConsumeBytes_AppendBytes.
Qed.

Lemma ParseFields_field n typ payload rest v :
  1 <= n <= MaxValidNumber -> 0 <= typ < 8 ->
  ConsumeFieldValue n typ (payload ++ rest) = Done (v, rest) ->
  ParseFields (AppendTag n typ ++ payload ++ rest) =
  let '(fs, st) := ParseFields rest in (mkField n v :: fs, st).
Proof.
  intros Hn Ht Hv. pose proof (AppendVarint_ne (EncodeTag n typ)) as Hne.
  unfold ParseFields at 1. unfold AppendTag.
  rewrite parse_fields_unfold by (intros Hnil; by apply app_eq_nil in Hnil as [? _]).
  rewrite ConsumeVarint_AppendVarint by (apply EncodeTag_range; lia). cbn zeta.
  destruct (decode_EncodeTag n typ ltac:(lia) Ht) as [-> ->].
  rewrite (proj2 (Z.ltb_ge n 1)), (proj2 (Z.ltb_ge _ n)) by lia. simpl orb. rewrite Hv.
  assert (Hf : forall f, (length rest < f)%nat -> parse_fields f rest = ParseFields rest)
    by (intros f Hf; apply parse_fields_fuel; lia).
  rewrite Hf; [by destruct (ParseFields rest)|]. rewrite !length_app. destruct (AppendVarint _); simpl; [done|lia].
Qed.

(** The message loop reads a written field back, then goes on with the
    rest of the input. *)
Lemma ParseFields_app fl rest :
  field_wf fl ->
  ParseFields (field_bytes fl ++ rest) =
  let '(fs, st) := ParseFields rest in (fl :: fs, st).
Proof.
  intros [Hn Hv]. destruct fl as [n [v| |bs| |]]; cbn [fval fnum] in *; try done;
    unfold field_bytes; cbn [fval fnum]; rewrite <-app_assoc; apply ParseFields_field; try done.
  - by apply ConsumeFieldValue_varint.
  - by apply ConsumeFieldValue_bytes.
Qed.

Lemma ParseFields_concat fs :
  Forall field_wf fs -> ParseFields (concat (map field_bytes fs)) = (fs, Done tt).
Proof.
  induction 1 as [|fl fs Hf _ IH]; [done|]. cbn [map concat].
  by rewrite ParseFields_app, IH.
Qed.

(** ** Segments *)

Lemma seg_bytes_app s1 s2 : seg_bytes (s1 ++ s2) = seg_bytes s1 ++ seg_bytes s2.
Proof. unfold seg_bytes. by rewrite map_app, concat_app. Qed.

Lemma seg_bytes_cons b s : seg_bytes (b :: s) = b.1 ++ seg_bytes s.
Proof. done. Qed.

Lemma segs_ok_app s1 s2 : segs_ok (s1 ++ s2) = segs_ok s1 && segs_ok s2.
Proof. apply forallb_app. Qed.

(** A marshal loop whose checks all pass returns the whole encoding. *)
Lemma emit_from_ok buf s : segs_ok s = true -> emit_from buf s = (buf ++ seg_bytes s, true).
Proof.
  revert buf. induction s as [|[b []] s IH]; intros buf Hs; cbn [emit_from];
    [by rewrite app_nil_r | | by cbn in Hs | by cbn in Hs].
  rewrite IH by exact Hs. by rewrite seg_bytes_cons, app_assoc.
Qed.

Lemma emit_ok s : segs_ok s = true -> emit s = (seg_bytes s, true).
Proof. intros Hs. unfold emit. by rewrite emit_from_ok. Qed.

(** Conversely, a marshal loop that reports no error passed every check. *)
Lemma emit_from_true buf s bs :
  emit_from buf s = (bs, true) -> segs_ok s = true /\ bs = buf ++ seg_bytes s.
Proof.
  revert buf. induction s as [|[b []] s IH]; intros buf; cbn [emit_from]; try done.
  - intros [= <-]. by rewrite app_nil_r.
  - intros [Hs ->]%IH. split; [exact Hs|]. by rewrite seg_bytes_cons, app_assoc.
Qed.

Lemma emit_true s bs : emit s = (bs, true) -> segs_ok s = true /\ bs = seg_bytes s.
Proof. apply emit_from_true. Qed.

(** Writers that pass append their bytes and hand the buffer on. *)
Lemma emit_from_app buf s1 s2 :
  segs_ok s1 = true -> emit_from buf (s1 ++ s2) = emit_from (buf ++ seg_bytes s1) s2.
Proof.
  revert buf. induction s1 as [|[b []] s1 IH]; intros buf Hs; cbn [emit_from app];
    [by rewrite app_nil_r | | by cbn in Hs | by cbn in Hs].
  rewrite IH by exact Hs. by rewrite seg_bytes_cons, app_assoc.
Qed.

(** A failing map key drops the buffer: the marshal returns nothing. *)
Lemma emit_from_nil buf s1 b s2 :
  segs_ok s1 = true -> emit_from buf (s1 ++ (b, ChkErrNil) :: s2) = ([], false).
Proof. intros Hs. by rewrite emit_from_app. Qed.

(** A writer list whose first failing check is a map key's. *)
Definition aborts (s : list seg) : Prop :=
  exists s1 b s2, segs_ok s1 = true /\ s = s1 ++ (b, ChkErrNil) :: s2.

Lemma aborts_emit_from buf s : aborts s -> emit_from buf s = ([], false).
Proof. intros (s1 & b & s2 & Hs1 & ->). by apply emit_from_nil. Qed.

Lemma aborts_app_l s t : aborts s -> aborts (s ++ t).
Proof. intros (s1 & b & s2 & Hs1 & ->). exists s1, b, (s2 ++ t). by rewrite <-app_assoc. Qed.

Lemma aborts_app_r s t : segs_ok s = true -> aborts t -> aborts (s ++ t).
Proof.
  intros Hs (s1 & b & s2 & Hs1 & ->). exists (s ++ s1), b, s2.
  rewrite segs_ok_app, Hs, Hs1. by rewrite app_assoc.
Qed.

(** Any other failing check leaves a prefix of the encoding. *)
Lemma emit_from_prefix buf s : (emit_from buf s).1 `prefix_of` buf ++ seg_bytes s.
Proof.
  revert buf. induction s as [|[b []] s IH]; intros buf; cbn [emit_from fst].
  - by rewrite app_nil_r.
  - rewrite seg_bytes_cons, app_assoc. apply IH.
  - rewrite seg_bytes_cons, app_assoc. by apply prefix_app_r.
  - apply prefix_nil.
Qed.

Lemma seg_bytes_varint_field num v s :
  seg_bytes (varint_field num v :: s) = field_bytes (mkField num (WVarint v)) ++ seg_bytes s.
Proof. done. Qed.

Lemma seg_bytes_string_field num str s :
  seg_bytes (string_field num str :: s) =
  field_bytes (mkField num (WBytes (str_bytes str))) ++ seg_bytes s.
Proof. done. Qed.

Lemma seg_bytes_key_field num str s :
  seg_bytes (key_field num str :: s) =
  field_bytes (mkField num (WBytes (str_bytes str))) ++ seg_bytes s.
Proof. done. Qed.

Lemma seg_bytes_bytes_field num v s :
  seg_bytes (bytes_field num v :: s) = field_bytes (mkField num (WBytes v)) ++ seg_bytes s.
Proof. done. Qed.

Lemma seg_bytes_message_field num sub s :
  seg_bytes (message_field num sub ++ s) =
  field_bytes (mkField num (WBytes (seg_bytes sub))) ++ seg_bytes s.
Proof.
  unfold message_field. cbn [app]. rewrite seg_bytes_cons, seg_bytes_app. simpl.
  unfold field_bytes, AppendBytes. cbn [fval fnum]. by rewrite !app_assoc.
Qed.

Lemma seg_bytes_message_field_last num sub :
  seg_bytes (message_field num sub) = field_bytes (mkField num (WBytes (seg_bytes sub))).
Proof. by rewrite <-(app_nil_r (message_field num sub)), seg_bytes_message_field, app_nil_r. Qed.

#[export] Hint Rewrite seg_bytes_app seg_bytes_message_field_last seg_bytes_varint_field seg_bytes_string_field
  seg_bytes_key_field   seg_bytes_bytes_field seg_bytes_message_field segs_ok_app : wire_rw.

(** ** Truncated input *)

(** A varint cut before its last byte is rejected. *)
Lemma consume_varint_n_cut n v m :
  (m < length (append_varint_n n v))%nat ->
  consume_varint_n n (take m (append_varint_n n v)) = None.
Proof.
  revert v m. induction n as [|n IH]; intros v m Hm; [simpl in Hm; lia|].
  destruct m as [|m]; [by destruct n|]. rewrite append_varint_n_S in *.
  destruct (Z.ltb_spec v 128); [simpl in Hm; lia|]. cbn [take].
  assert (Hy : byte_val (byte_of (v mod 128 + 128)) = v mod 128 + 128)
    by (rewrite byte_val_of; pose proof (Z.mod_pos_bound v 128); rewrite Z.mod_small; lia).
  destruct n as [|n]; [cbn [consume_varint_n]|rewrite consume_varint_n_SS]; rewrite Hy.
  - rewrite (proj2 (Z.ltb_ge _ 2)) by (pose proof (Z.mod_pos_bound v 128); lia). done.
  - rewrite (proj2 (Z.ltb_ge _ 128)) by (pose proof (Z.mod_pos_bound v 128); lia).
    cbn [length] in Hm. rewrite IH by lia. done.
Qed.

Lemma ConsumeVarint_cut v m rest :
  (m < length (AppendVarint v))%nat -> ConsumeVarint (take m (AppendVarint v ++ rest)) = None.
Proof.
  intros Hm. rewrite take_app_le by lia. by apply consume_varint_n_cut.
Qed.

Lemma ConsumeBytes_cut bs m :
  Z.of_nat (length bs) < 2 ^ 64 -> (m < length (AppendBytes bs))%nat ->
  ConsumeBytes (take m (AppendBytes bs)) = None.
Proof.
  intros Hbs Hm. unfold AppendBytes in *. unfold ConsumeBytes.
  destruct (decide (m < length (AppendVarint (Z.of_nat (length bs)))))%nat.
  { by rewrite ConsumeVarint_cut. }
  rewrite take_app_ge, ConsumeVarint_AppendVarint by lia. rewrite length_take.
  rewrite length_app in Hm. rewrite (proj2 (Z.leb_gt _ _)); [done|]. lia.
Qed.

Lemma ConsumeFieldValue_bytes_cut num bs m :
  Z.of_nat (length bs) < 2 ^ 64 -> (m < length (AppendBytes bs))%nat ->
  ConsumeFieldValue num BytesType (take m (AppendBytes bs)) = Failed.
Proof.
  intros Hbs Hm. unfold ConsumeFieldValue. cbn [consume_field_value].
  unfold consume_scalar, BytesType, StartGroupType. cbn -[ConsumeBytes AppendBytes take].
  by rewrite ConsumeBytes_cut.
Qed.

(** A length-delimited field cut anywhere after its first byte is
    rejected by the message loop, which has then read no field. *)
Lemma ParseFields_cut_bytes_field num bs n :
  1 <= num <= MaxValidNumber -> Z.of_nat (length bs) < 2 ^ 64 ->
  (0 < n < length (field_bytes (mkField num (WBytes bs))))%nat ->
  ParseFields (take n (field_bytes (mkField num (WBytes bs)))) = ([], Failed).
Proof.
  intros Hnum Hbs Hn. unfold field_bytes in *; cbn [fval fnum] in *. unfold AppendTag in *.
  assert (Hne : take n (AppendVarint (EncodeTag num BytesType) ++ AppendBytes bs) <> []).
  { intros Hnil%(f_equal length). rewrite length_take in Hnil. simpl in Hnil. lia. }
  unfold ParseFields. destruct (length (take n _)) eqn:Hlen; [by destruct (take n _)|].
  rewrite parse_fields_unfold by done.
  destruct (decide (n < length (AppendVarint (EncodeTag num BytesType))))%nat as [Hlt|Hge].
  { by rewrite ConsumeVarint_cut. }
  rewrite take_app_ge by lia.
  rewrite ConsumeVarint_AppendVarint by (apply EncodeTag_range; unfold BytesType; lia).
  cbn zeta. destruct (decode_EncodeTag num BytesType ltac:(lia) ltac:(unfold BytesType; lia))
    as [-> ->].
  rewrite (proj2 (Z.ltb_ge num 1)), (proj2 (Z.ltb_ge _ num)) by lia. simpl orb.
  rewrite length_app in Hn. by rewrite ConsumeFieldValue_bytes_cut by lia.
Qed.

(** ** Properties of the wire primitives *)

(** Varints (protowire.AppendVarint and ConsumeVarint): every
    [uint64] is written in one to ten bytes and read back exactly, the
    rest of the input untouched. *)
Lemma varint_roundtrip v rest :
  0 <= v < 2 ^ 64 ->
  ConsumeVarint (AppendVarint v ++ rest) = Some (v, rest) /\
  (1 <= length (AppendVarint v) <= 10)%nat.
Proof.
  intros Hv. split; [by apply ConsumeVarint_AppendVarint|].
  pose proof (length_append_varint_n 10 v). destruct (AppendVarint v) eqn:E.
  - by apply AppendVarint_ne in E.
  - unfold AppendVarint in E. rewrite E in H. simpl in *. lia.
Qed.

(** Whatever the input, a varint that is read is a [uint64] (an
    eleventh byte or a tenth byte above 1 is rejected), and it takes one
    to ten bytes of the input. *)
Lemma ConsumeVarint_bounds bs v r :
  ConsumeVarint bs = Some (v, r) ->
  0 <= v < 2 ^ 64 /\ (length r < length bs <= length r + 10)%nat.
Proof. apply consume_varint_n_spec. Qed.

(** The loops terminate: the message loop [parse_fields] and the
    skipping of a field value ([consume_field_value], nested groups
    included) never run out of fuel when given more than the length of
    their input, and any such fuel gives the same result, so
    [ParseFields] and [ConsumeFieldValue] are the loops of protobuf-go. *)
Lemma ParseFields_terminates bs f :
  (length bs < f)%nat ->
  parse_fields f bs = ParseFields bs /\ (ParseFields bs).2 <> OutOfFuel /\
  (forall num typ, consume_field_value f num typ bs = ConsumeFieldValue num typ bs /\
                   ConsumeFieldValue num typ bs <> OutOfFuel).
Proof.
  intros Hf. split_and!; [apply parse_fields_fuel; lia| |].
  { unfold ParseFields. apply (parse_fields_fuel _ (S (length bs))); lia. }
  intros num typ. split; [apply consume_field_value_fuel; lia|].
  apply ConsumeFieldValue_not_OutOfFuel.
Qed.

(** The varints a message loop hands to the field decoders are [uint64]s,
    whatever the input: the decoders may cast them to narrower types. *)
Definition varint_ok (f : field) : Prop :=
  match fval f with WVarint v => 0 <= v < 2 ^ 64 | _ => True end.

Lemma consume_field_value_varint f num typ bs v r :
  consume_field_value f num typ bs = Done (WVarint v, r) -> 0 <= v < 2 ^ 64.
Proof.
  revert num typ bs r. induction f as [|f IH]; intros num typ bs r; [done|].
  cbn [consume_field_value]. destruct (typ =? StartGroupType).
  2: { unfold consume_scalar. repeat case_match; intros; simplify_eq.
       by eapply ConsumeVarint_bounds. }
  destruct (ConsumeTag bs) as [[[num2 typ2] r0]|]; [|done].
  destruct (typ2 =? EndGroupType); [by case_match|].
  destruct (consume_field_value f num2 typ2 r0) as [[x r1]| |]; [apply IH|done|done].
Qed.

Lemma parse_fields_varints f bs : Forall varint_ok (parse_fields f bs).1.
Proof.
  revert bs. induction f as [|f IH]; intros [|b bs]; try by constructor.
  rewrite parse_fields_unfold by done.
  destruct (ConsumeVarint _) as [[tag r]|]; [|by constructor]. cbn zeta.
  destruct (_ || _); [by constructor|].
  destruct (ConsumeFieldValue _ _ r) as [[v r']| |] eqn:E; try by constructor.
  specialize (IH r'). destruct (parse_fields f r') as [fs st]. constructor; [|done].
  unfold varint_ok. destruct v; try done. by eapply consume_field_value_varint.
Qed.

Lemma ParseFields_varints bs : Forall varint_ok (ParseFields bs).1.
Proof. apply parse_fields_varints. Qed.

(** A group nested in a group, then a varint field. *)
Definition nested_groups : list byte := [x0b; x13; x14; x0c; x08; x01].

Lemma varint_roundtrip_witness :
  ConsumeVarint (AppendVarint (2 ^ 64 - 1) ++ [x00]) = Some (2 ^ 64 - 1, [x00]) /\
  (1 <= length (AppendVarint (2 ^ 64 - 1)) <= 10)%nat.
Proof. apply (varint_roundtrip (2 ^ 64 - 1) [x00]). lia. Defined.

Lemma ConsumeVarint_bounds_witness :
  0 <= 300 < 2 ^ 64 /\ (length [x07] < length [xac; x02; x07] <= length [x07] + 10)%nat.
Proof. apply (ConsumeVarint_bounds [xac; x02; x07] 300 [x07]). reflexivity. Defined.

Lemma ParseFields_terminates_witness :
  parse_fields 20 nested_groups = ParseFields nested_groups /\
  (ParseFields nested_groups).2 <> OutOfFuel /\
  (forall num typ, consume_field_value 20 num typ nested_groups = ConsumeFieldValue num typ nested_groups /\
                   ConsumeFieldValue num typ nested_groups <> OutOfFuel).
Proof. apply (ParseFields_terminates nested_groups 20). simpl. lia. Defined.
