(* ===== verification/Codec.v ===== *)
(** * Codec: proto.Marshal and proto.Unmarshal of the gokv messages

    The coders protobuf-go builds for the structs of
    [src/internal/internalpb/gokv.pb.go] from their struct tags
    ([protobuf:"bytes,1,opt,name=key,proto3"], ...): fields in the order
    of their numbers, proto3 scalars omitted when zero, pointer fields
    written when non-nil, [map[string]*Entry] written as one
    [EntriesEntry] message per pair in the map's iteration order, strings
    checked for UTF-8.  Decoding follows the generated unmarshalers: a
    scalar field read again overrides, a message field read again is
    merged into the value already there, a map entry overwrites the key, a
    field of unknown number or of an unexpected wire type is skipped.

    Decoding an [FSM] is the one place where an error is visible: a
    [NodeState] is appended to [NodeStates] only once it is fully decoded
    ([consumeMessageSliceInfo]), so when [proto.Unmarshal] fails the
    message holds the partitions decoded before the failing one.  Below
    that level an error discards the partial value, and the decoders
    return [option].

    Encoding can fail only on a string that is not UTF-8: an [Entry.Key]
    keeps the bytes written before it, a map key empties the whole output
    ([enc_FSM_aborts]). *)

From S2P Require Import Prelude Types Wire.

(** ** Zero values *)

Definition zero_Timestamp : Timestamp := timestamppb.mkTimestamp 0 0.
Definition zero_Duration : Duration := durationpb.mkDuration 0 0.
Definition zero_Entry : Entry := mkEntry "" [] None None None.
Definition zero_NodeState : NodeState := mkNodeState "" ∅.

(** ** Encoders (the fast-path coders of impl/codec_gen.go) *)

(** An int64 field ([appendInt64NoZero]) and an int32 field, which is
    sign-extended to 64 bits ([appendInt32NoZero]). *)
Definition int_field (num v : Z) : list seg :=
  if bool_decide (v = 0) then [] else [varint_field num (uint64_of v)].

(** A proto3 string ([appendStringNoZeroValidateUTF8]). *)
Definition opt_string_field (num : Z) (s : string) : list seg :=
  if bool_decide (s = "") then [] else [string_field num s].

Definition enc_Timestamp (t : Timestamp) : list seg :=
  int_field 1 (timestamppb.Seconds t) ++ int_field 2 (timestamppb.Nanos t).

Definition enc_Duration (d : Duration) : list seg :=
  int_field 1 (durationpb.Seconds d) ++ int_field 2 (durationpb.Nanos d).

Definition enc_Entry (e : Entry) : list seg :=
  opt_string_field 1 (Key e) ++
  (match Value e with [] => [] | v => [bytes_field 2 v] end) ++
  (match Archived e with Some b => [varint_field 3 (if b then 1 else 0)] | None => [] end) ++
  (match LastUpdatedTime e with Some t => message_field 4 (enc_Timestamp t) | None => [] end) ++
  (match Expiry e with Some d => message_field 5 (enc_Duration d) | None => [] end).

(** One pair of [Entries] ([appendMapItem]): the entry message, its key
    always written and checked (a key that is not UTF-8 makes
    [appendMapItem] return [nil]), its value message always written. *)
Definition enc_EntriesEntry (k : string) (e : Entry) : list seg :=
  message_field 2 (key_field 1 k :: message_field 2 (enc_Entry e)).

(** A [NodeState] whose map is ranged in the order [l]. *)
Definition enc_NodeState (ns : NodeState) (l : list (string * Entry)) : list seg :=
  opt_string_field 1 (NodeId ns) ++ concat (map (fun '(k, e) => enc_EntriesEntry k e) l).

(** An [FSM]: each partition with the iteration order of its map. *)
Definition enc_FSM (parts : list (NodeState * list (string * Entry))) : list seg :=
  concat (map (fun '(ns, l) => message_field 1 (enc_NodeState ns l)) parts).

(** The iteration orders a marshal of [fsm] may use. *)
Definition ranges_of (fsm : FSM) (parts : list (NodeState * list (string * Entry))) : Prop :=
  parts.*1 = NodeStates fsm /\ Forall (fun '(ns, l) => l ≡ₚ map_to_list (Entries ns)) parts.

(** [proto.Marshal(fsm)]: the bytes written and whether no error was
    reported. *)
Definition Marshal_FSM (parts : list (NodeState * list (string * Entry))) : list byte * bool :=
  emit (enc_FSM parts).

(** [NodeMeta]: [Port] and [DiscoveryPort] are uint32 ([appendUint32NoZero]). *)
Definition enc_NodeMeta (m : NodeMeta) : list seg :=
  opt_string_field 1 (Name m) ++ opt_string_field 2 (Host m) ++
  int_field 3 (Port m) ++ int_field 4 (DiscoveryPort m) ++
  (match CreationTime m with Some t => message_field 5 (enc_Timestamp t) | None => [] end).

Definition Marshal_NodeMeta (m : NodeMeta) : list byte * bool := emit (enc_NodeMeta m).

(** ** Decoders (impl/decode.go and the consumers of impl/codec_gen.go) *)

(** The field loop of one message, after the framing: each field is
    applied in order; a failing field stops the loop. *)
Fixpoint fold_fields {A} (step : A -> field -> option A) (a : A) (fs : list field) : option A :=
  match fs with
  | [] => Some a
  | f :: fs' => match step a f with Some a' => fold_fields step a' fs' | None => None end
  end.

(** Unmarshal [bs] into the message [a] (merging, as a nested message
    field read twice is). *)
Definition unmarshal_into {A} (step : A -> field -> option A) (a : A) (bs : list byte) : option A :=
  let '(fs, st) := ParseFields bs in
  match st with Done _ => fold_fields step a fs | _ => None end.

(** A proto3 string as read: its bytes, rejected unless UTF-8. *)
Definition read_string (bs : list byte) : option string :=
  if utf8_valid bs then Some (Stdlib.Strings.String.string_of_list_byte bs) else None.

Definition dec_Timestamp_field (t : Timestamp) (f : field) : option Timestamp :=
  match fnum f, fval f with
  | 1, WVarint v => Some (timestamppb.mkTimestamp (int64_of v) (timestamppb.Nanos t))
  | 2, WVarint v => Some (timestamppb.mkTimestamp (timestamppb.Seconds t) (int32_of v))
  | _, _ => Some t
  end.

Definition dec_Duration_field (d : Duration) (f : field) : option Duration :=
  match fnum f, fval f with
  | 1, WVarint v => Some (durationpb.mkDuration (int64_of v) (durationpb.Nanos d))
  | 2, WVarint v => Some (durationpb.mkDuration (durationpb.Seconds d) (int32_of v))
  | _, _ => Some d
  end.

Definition dec_Entry_field (e : Entry) (f : field) : option Entry :=
  match fnum f, fval f with
  | 1, WBytes bs =>
      k ← read_string bs;
      Some (mkEntry k (Value e) (Archived e) (LastUpdatedTime e) (Expiry e))
  | 2, WBytes bs => Some (mkEntry (Key e) bs (Archived e) (LastUpdatedTime e) (Expiry e))
  | 3, WVarint v =>
      Some (mkEntry (Key e) (Value e) (Some (negb (v =? 0))) (LastUpdatedTime e) (Expiry e))
  | 4, WBytes bs =>
      t ← unmarshal_into dec_Timestamp_field (default zero_Timestamp (LastUpdatedTime e)) bs;
      Some (mkEntry (Key e) (Value e) (Archived e) (Some t) (Expiry e))
  | 5, WBytes bs =>
      d ← unmarshal_into dec_Duration_field (default zero_Duration (Expiry e)) bs;
      Some (mkEntry (Key e) (Value e) (Archived e) (LastUpdatedTime e) (Some d))
  | _, _ => Some e
  end.

(** A map entry ([consumeMap]): key and value start at their zero values;
    a value field is merged into the value read so far. *)
Definition dec_EntriesEntry_field (kv : string * Entry) (f : field) : option (string * Entry) :=
  match fnum f, fval f with
  | 1, WBytes bs => k ← read_string bs; Some (k, kv.2)
  | 2, WBytes bs => e ← unmarshal_into dec_Entry_field kv.2 bs; Some (kv.1, e)
  | _, _ => Some kv
  end.

Definition dec_NodeState_field (ns : NodeState) (f : field) : option NodeState :=
  match fnum f, fval f with
  | 1, WBytes bs => id ← read_string bs; Some (mkNodeState id (Entries ns))
  | 2, WBytes bs =>
      kv ← unmarshal_into dec_EntriesEntry_field ("", zero_Entry) bs;
      Some (mkNodeState (NodeId ns) (<[kv.1 := kv.2]> (Entries ns)))
  | _, _ => Some ns
  end.

Definition Unmarshal_NodeState (bs : list byte) : option NodeState :=
  unmarshal_into dec_NodeState_field zero_NodeState bs.

(** The fields of an [FSM]: a partition is appended once decoded; the
    first failing one stops the loop with the partitions before it. *)
Fixpoint dec_FSM_fields (acc : list NodeState) (fs : list field) : list NodeState * bool :=
  match fs with
  | [] => (acc, true)
  | f :: fs' =>
      match fnum f, fval f with
      | 1, WBytes bs =>
          match Unmarshal_NodeState bs with
          | Some ns => dec_FSM_fields (acc ++ [ns]) fs'
          | None => (acc, false)
          end
      | _, _ => dec_FSM_fields acc fs'
      end
  end.

(** [proto.Unmarshal(buf, new(FSM))]: the message as left in the
    destination, and whether no error was returned; [unmarshal_FSM_fields]
    dispatches the fields the message loop read. *)
Definition unmarshal_FSM_fields (p : list field * outcome unit) : FSM * bool :=
  let '(fs, st) := p in
  let '(nss, ok) := dec_FSM_fields [] fs in
  (mkFSM nss, match st with Done _ => ok | _ => false end).

Definition Unmarshal_FSM (bs : list byte) : FSM * bool := unmarshal_FSM_fields (ParseFields bs).

(** ** Integers on the wire *)

Lemma land32 v : Z.land v (2 ^ 32 - 1) = v mod 2 ^ 32.
Proof. rewrite <-Z.land_ones by lia. reflexivity. Qed.

Lemma uint64_of_range z : 0 <= uint64_of z < 2 ^ 64.
Proof. unfold uint64_of. apply Z.mod_pos_bound. lia. Qed.

(** An int64 read back from its two's complement varint. *)
Lemma int64_of_uint64 z : int64_range z -> int64_of (uint64_of z) = z.
Proof.
  unfold int64_range, int64_of, uint64_of. intros Hz.
  destruct (Z.ltb_spec (z mod 2 ^ 64) (2 ^ 63)); Z.div_mod_to_equations; lia.
Qed.

(** An int32, sign-extended to 64 bits when written, truncated to its low
    32 bits when read. *)
Lemma int32_of_uint64 z : int32_range z -> int32_of (uint64_of z) = z.
Proof.
  unfold int32_range, int32_of, uint64_of. intros Hz. cbv zeta. rewrite land32.
  destruct (Z.ltb_spec ((z mod 2 ^ 64) mod 2 ^ 32) (2 ^ 31)); Z.div_mod_to_equations; lia.
Qed.

Lemma read_string_str_bytes s :
  utf8_valid (str_bytes s) = true -> read_string (str_bytes s) = Some s.
Proof.
  unfold read_string, str_bytes. intros ->.
  by rewrite Stdlib.Strings.String.string_of_list_byte_of_string.
Qed.

(** ** The fields an encoder writes *)

Definition fields_bytes (fs : list field) : list byte := concat (map field_bytes fs).

Definition int_fields (num v : Z) : list field :=
  if bool_decide (v = 0) then [] else [mkField num (WVarint (uint64_of v))].

Definition opt_string_fields (num : Z) (s : string) : list field :=
  if bool_decide (s = "") then [] else [mkField num (WBytes (str_bytes s))].

Definition Timestamp_fields (t : Timestamp) : list field :=
  int_fields 1 (timestamppb.Seconds t) ++ int_fields 2 (timestamppb.Nanos t).

Definition Duration_fields (d : Duration) : list field :=
  int_fields 1 (durationpb.Seconds d) ++ int_fields 2 (durationpb.Nanos d).

Definition Entry_fields (e : Entry) : list field :=
  opt_string_fields 1 (Key e) ++
  (match Value e with [] => [] | v => [mkField 2 (WBytes v)] end) ++
  (match Archived e with Some b => [mkField 3 (WVarint (if b then 1 else 0))] | None => [] end) ++
  (match LastUpdatedTime e with
   | Some t => [mkField 4 (WBytes (seg_bytes (enc_Timestamp t)))] | None => [] end) ++
  (match Expiry e with
   | Some d => [mkField 5 (WBytes (seg_bytes (enc_Duration d)))] | None => [] end).

Definition EntriesEntry_fields (k : string) (e : Entry) : list field :=
  [mkField 1 (WBytes (str_bytes k)); mkField 2 (WBytes (seg_bytes (enc_Entry e)))].

Definition NodeState_fields (ns : NodeState) (l : list (string * Entry)) : list field :=
  opt_string_fields 1 (NodeId ns) ++
  map (fun '(k, e) => mkField 2 (WBytes (fields_bytes (EntriesEntry_fields k e)))) l.

Definition FSM_fields (parts : list (NodeState * list (string * Entry))) : list field :=
  map (fun '(ns, l) => mkField 1 (WBytes (seg_bytes (enc_NodeState ns l)))) parts.

Lemma fields_bytes_app fs1 fs2 : fields_bytes (fs1 ++ fs2) = fields_bytes fs1 ++ fields_bytes fs2.
Proof. unfold fields_bytes. by rewrite map_app, concat_app. Qed.

Lemma fields_bytes_cons f fs : fields_bytes (f :: fs) = field_bytes f ++ fields_bytes fs.
Proof. done. Qed.

Lemma seg_bytes_int_field num v s :
  seg_bytes (int_field num v ++ s) = fields_bytes (int_fields num v) ++ seg_bytes s.
Proof.
  unfold int_field, int_fields. case_bool_decide; [done|].
  rewrite fields_bytes_cons, app_nil_r. done.
Qed.

Lemma seg_bytes_opt_string_field num str s :
  seg_bytes (opt_string_field num str ++ s) = fields_bytes (opt_string_fields num str) ++ seg_bytes s.
Proof.
  unfold opt_string_field, opt_string_fields. case_bool_decide; [done|].
  rewrite fields_bytes_cons, app_nil_r. done.
Qed.

#[export] Hint Rewrite seg_bytes_int_field seg_bytes_opt_string_field fields_bytes_app
  fields_bytes_cons : wire_rw.

Lemma seg_bytes_enc_Timestamp t : seg_bytes (enc_Timestamp t) = fields_bytes (Timestamp_fields t).
Proof.
  unfold enc_Timestamp, Timestamp_fields.
  rewrite <-(app_nil_r (int_field 2 _)). autorewrite with wire_rw. by rewrite app_nil_r.
Qed.

Lemma seg_bytes_enc_Duration d : seg_bytes (enc_Duration d) = fields_bytes (Duration_fields d).
Proof.
  unfold enc_Duration, Duration_fields.
  rewrite <-(app_nil_r (int_field 2 _)). autorewrite with wire_rw. by rewrite app_nil_r.
Qed.

Lemma seg_bytes_enc_Entry e : seg_bytes (enc_Entry e) = fields_bytes (Entry_fields e).
Proof.
  unfold enc_Entry, Entry_fields.
  destruct (Value e) as [|b v], (Archived e), (LastUpdatedTime e), (Expiry e);
    cbn [app]; autorewrite with wire_rw; rewrite ?app_nil_r; reflexivity.
Qed.

(** ** What the round trip needs

    The integer fields hold values of their Go types, strings are UTF-8
    (the only check protobuf-go makes), and the encoding fits in a Go
    slice (its length, like every length prefix, is a [uint64]). *)

Definition Timestamp_typed (t : Timestamp) : Prop :=
  int64_range (timestamppb.Seconds t) /\ int32_range (timestamppb.Nanos t).

Definition Duration_typed (d : Duration) : Prop :=
  int64_range (durationpb.Seconds d) /\ int32_range (durationpb.Nanos d).

Definition Entry_wire_ok (e : Entry) : Prop :=
  utf8_valid (str_bytes (Key e)) = true /\
  match LastUpdatedTime e with Some t => Timestamp_typed t | None => True end /\
  match Expiry e with Some d => Duration_typed d | None => True end.

Definition NodeState_wire_ok (ns : NodeState) : Prop :=
  utf8_valid (str_bytes (NodeId ns)) = true /\
  map_Forall (fun k e => utf8_valid (str_bytes k) = true /\ Entry_wire_ok e) (Entries ns).

Definition FSM_wire_ok (fsm : FSM) : Prop := Forall NodeState_wire_ok (NodeStates fsm).

Definition fits (bs : list byte) : Prop := Z.of_nat (length bs) < 2 ^ 64.

(** ** Generic decoding lemmas *)

Definition field_head_ok (f : field) : Prop :=
  1 <= fnum f <= MaxValidNumber /\
  match fval f with WVarint v => 0 <= v < 2 ^ 64 | WBytes _ => True | _ => False end.

Lemma fields_wf fs :
  Forall field_head_ok fs -> fits (fields_bytes fs) -> Forall field_wf fs.
Proof.
  unfold fits. induction 1 as [|[n v] fs [Hn Hv] _ IH]; [done|].
  rewrite fields_bytes_cons, length_app. intros Hl.
  constructor; [|apply IH; lia]. split; [done|].
  destruct v as [v| |bs| |]; try done. cbn in *.
  unfold AppendBytes in Hl. rewrite !length_app in Hl. lia.
Qed.

Lemma payload_fits fs n bs :
  Forall field_wf fs -> mkField n (WBytes bs) ∈ fs -> fits bs.
Proof. intros Hf Hin. by destruct (proj1 (Forall_forall _ _) Hf _ Hin) as [_ ?]. Qed.

Lemma unmarshal_into_fields {A} (step : A -> field -> option A) a fs :
  Forall field_wf fs -> unmarshal_into step a (fields_bytes fs) = fold_fields step a fs.
Proof. intros Hf. unfold unmarshal_into, fields_bytes. by rewrite ParseFields_concat. Qed.

Lemma fold_fields_app {A} (step : A -> field -> option A) a fs1 fs2 :
  fold_fields step a (fs1 ++ fs2) = fold_fields step a fs1 ≫= fun a' => fold_fields step a' fs2.
Proof.
  revert a. induction fs1 as [|f fs1 IH]; intros a; [done|]. cbn.
  destruct (step a f); [apply IH|done].
Qed.

Lemma int_fields_head_ok num v :
  1 <= num <= MaxValidNumber -> Forall field_head_ok (int_fields num v).
Proof.
  intros Hn. unfold int_fields. case_bool_decide; [by apply Forall_nil|].
  apply Forall_singleton. split; [done|]. apply uint64_of_range.
Qed.

Lemma opt_string_fields_head_ok num s :
  1 <= num <= MaxValidNumber -> Forall field_head_ok (opt_string_fields num s).
Proof.
  intros Hn. unfold opt_string_fields. case_bool_decide; [by apply Forall_nil|].
  apply Forall_singleton. by split.
Qed.

#[export] Hint Resolve int_fields_head_ok opt_string_fields_head_ok : gokv.

(** [head_ok] proves [Forall field_head_ok] of a field list built by the
    encoders; [fits_of] proves that a payload of such a list fits. *)
Ltac head_ok :=
  repeat (apply Forall_app; split);
  repeat match goal with
  | |- Forall _ (match ?x with _ => _ end) => destruct x
  | |- Forall _ [] => constructor
  | |- Forall _ (_ :: _) => constructor
  | |- Forall _ (int_fields _ _) => apply int_fields_head_ok
  | |- Forall _ (opt_string_fields _ _) => apply opt_string_fields_head_ok
  | |- field_head_ok _ => split; cbn
  | |- _ /\ _ => split
  | |- context [if ?b then _ else _] => destruct b
  end; unfold MaxValidNumber; try lia; try done.

Ltac fits_of H := eapply (payload_fits _ _ _ H); apply list_elem_of_In; simpl; intuition.

(** ** Round trips of the nested messages *)


Lemma Timestamp_roundtrip t :
  Timestamp_typed t -> fits (seg_bytes (enc_Timestamp t)) ->
  unmarshal_into dec_Timestamp_field zero_Timestamp (seg_bytes (enc_Timestamp t)) = Some t.
Proof.
  intros [Hs Hn] Hfit. rewrite seg_bytes_enc_Timestamp in *.
  rewrite unmarshal_into_fields by (apply fields_wf; [unfold Timestamp_fields; head_ok|done]).
  destruct t as [s n]. unfold Timestamp_fields, int_fields. cbn in *.
  do 2 case_bool_decide; subst; cbn; rewrite ?int64_of_uint64, ?int32_of_uint64 by done; done.
Qed.

Lemma Duration_roundtrip d :
  Duration_typed d -> fits (seg_bytes (enc_Duration d)) ->
  unmarshal_into dec_Duration_field zero_Duration (seg_bytes (enc_Duration d)) = Some d.
Proof.
  intros [Hs Hn] Hfit. rewrite seg_bytes_enc_Duration in *.
  rewrite unmarshal_into_fields by (apply fields_wf; [unfold Duration_fields; head_ok|done]).
  destruct d as [s n]. unfold Duration_fields, int_fields. cbn in *.
  do 2 case_bool_decide; subst; cbn; rewrite ?int64_of_uint64, ?int32_of_uint64 by done; done.
Qed.

Lemma Entry_roundtrip e :
  Entry_wire_ok e -> fits (seg_bytes (enc_Entry e)) ->
  unmarshal_into dec_Entry_field zero_Entry (seg_bytes (enc_Entry e)) = Some e.
Proof.
  intros (Hk & Ht & Hd) Hfit. rewrite seg_bytes_enc_Entry in *.
  assert (Hwf : Forall field_wf (Entry_fields e))
    by (apply fields_wf; [unfold Entry_fields; head_ok|done]).
  rewrite unmarshal_into_fields by done.
  destruct e as [k v a lu ex]; unfold Entry_fields, opt_string_fields in *.
  cbn [Key Value Archived LastUpdatedTime Expiry] in *.
  destruct v as [|b v], a as [a|], lu as [t|], ex as [d|]; case_bool_decide as Hke;
    try (subst k); cbn [app] in Hwf;
    repeat (cbn -[read_string unmarshal_into seg_bytes enc_Timestamp enc_Duration str_bytes];
            progress rewrite ?read_string_str_bytes, ?Timestamp_roundtrip, ?Duration_roundtrip
              by (done || fits_of Hwf));
    cbn; try destruct a; done.
Qed.

Lemma seg_bytes_EntriesEntry k e :
  seg_bytes (key_field 1 k :: message_field 2 (enc_Entry e)) =
  fields_bytes (EntriesEntry_fields k e).
Proof.
  rewrite seg_bytes_key_field, seg_bytes_message_field_last.
  unfold EntriesEntry_fields. rewrite !fields_bytes_cons. unfold fields_bytes. simpl.
  by rewrite app_nil_r.
Qed.

Lemma seg_bytes_enc_NodeState ns l :
  seg_bytes (enc_NodeState ns l) = fields_bytes (NodeState_fields ns l).
Proof.
  unfold enc_NodeState, NodeState_fields. rewrite seg_bytes_opt_string_field, fields_bytes_app.
  f_equal. induction l as [|[k e] l IH]; [done|]. cbn [map concat].
  unfold enc_EntriesEntry at 1.
  rewrite seg_bytes_message_field, seg_bytes_EntriesEntry, fields_bytes_cons. f_equal. exact IH.
Qed.

Lemma seg_bytes_enc_FSM parts : seg_bytes (enc_FSM parts) = fields_bytes (FSM_fields parts).
Proof.
  induction parts as [|[ns l] parts IH]; [done|]. unfold enc_FSM, FSM_fields in *.
  cbn [map concat]. rewrite seg_bytes_message_field, fields_bytes_cons. f_equal. exact IH.
Qed.

Lemma EntriesEntry_roundtrip k e :
  utf8_valid (str_bytes k) = true -> Entry_wire_ok e ->
  fits (fields_bytes (EntriesEntry_fields k e)) ->
  unmarshal_into dec_EntriesEntry_field ("", zero_Entry) (fields_bytes (EntriesEntry_fields k e))
  = Some (k, e).
Proof.
  intros Hk He Hfit.
  assert (Hwf : Forall field_wf (EntriesEntry_fields k e))
    by (apply fields_wf; [unfold EntriesEntry_fields; head_ok|done]).
  rewrite unmarshal_into_fields by done. cbn -[read_string unmarshal_into seg_bytes enc_Entry str_bytes].
  rewrite read_string_str_bytes by done. cbn -[unmarshal_into seg_bytes enc_Entry].
  rewrite Entry_roundtrip by (done || fits_of Hwf). done.
Qed.

Lemma foldl_insert_list_to_map {V} (l : list (string * V)) (m : gmap string V) :
  NoDup l.*1 -> foldl (fun m '(k, v) => <[k := v]> m) m l = list_to_map l ∪ m.
Proof.
  revert m. induction l as [|[k v] l IH]; intros m Hnd; cbn; [by rewrite map_empty_union|].
  apply NoDup_cons in Hnd as [Hk Hnd]. rewrite IH by done.
  rewrite <-insert_union_r, insert_union_l; [done|].
  by apply not_elem_of_list_to_map.
Qed.

Lemma fold_NodeState_entries id m l :
  Forall (fun '(k, e) => utf8_valid (str_bytes k) = true /\ Entry_wire_ok e /\
                         fits (fields_bytes (EntriesEntry_fields k e))) l ->
  fold_fields dec_NodeState_field (mkNodeState id m)
    (map (fun '(k, e) => mkField 2 (WBytes (fields_bytes (EntriesEntry_fields k e)))) l) =
  Some (mkNodeState id (foldl (fun m '(k, v) => <[k := v]> m) m l)).
Proof.
  revert m. induction l as [|[k e] l IH]; intros m Hl; [done|].
  apply Forall_cons in Hl as [(Hk & He & Hf) Hl].
  cbn -[unmarshal_into fields_bytes EntriesEntry_fields].
  rewrite EntriesEntry_roundtrip by done. by apply IH.
Qed.

Lemma NodeState_roundtrip ns l :
  NodeState_wire_ok ns -> l ≡ₚ map_to_list (Entries ns) ->
  fits (seg_bytes (enc_NodeState ns l)) ->
  Unmarshal_NodeState (seg_bytes (enc_NodeState ns l)) = Some ns.
Proof.
  intros [Hid Hm] Hl Hfit. rewrite seg_bytes_enc_NodeState in *.
  assert (Hwf : Forall field_wf (NodeState_fields ns l)).
  { apply fields_wf; [|done]. unfold NodeState_fields. apply Forall_app; split; [head_ok|].
    apply Forall_forall. intros f ([k e] & <- & _)%list_elem_of_In%in_map_iff.
    split; [unfold MaxValidNumber; simpl; lia|done]. }
  unfold Unmarshal_NodeState. rewrite unmarshal_into_fields by done.
  unfold NodeState_fields in *. rewrite fold_fields_app.
  assert (Hid' : fold_fields dec_NodeState_field zero_NodeState (opt_string_fields 1 (NodeId ns))
                 = Some (mkNodeState (NodeId ns) ∅)).
  { unfold opt_string_fields. case_bool_decide as E; [by rewrite E|].
    cbn -[read_string str_bytes]. by rewrite read_string_str_bytes. }
  rewrite Hid'. simpl. rewrite fold_NodeState_entries.
  - rewrite foldl_insert_list_to_map, map_union_empty by (by eapply range_NoDup).
    rewrite (range_to_map _ _ Hl). by destruct ns.
  - apply Forall_forall. intros [k e] Hin.
    destruct (Hm k e (proj1 (range_elem_of _ l k e Hl) Hin)) as [Hk He].
    split_and!; [done|done|]. eapply (payload_fits _ _ _ Hwf).
    apply list_elem_of_In, in_or_app. right. apply in_map_iff. exists (k, e).
    split; [done|]. by apply list_elem_of_In.
Qed.

(** The parts of a marshal, each a partition with an order of its map. *)
Definition part_ok (p : NodeState * list (string * Entry)) : Prop :=
  NodeState_wire_ok p.1 /\ p.2 ≡ₚ map_to_list (Entries p.1).

Lemma dec_FSM_fields_parts acc parts :
  Forall (fun p => part_ok p /\ fits (seg_bytes (enc_NodeState p.1 p.2))) parts ->
  dec_FSM_fields acc (FSM_fields parts) = (acc ++ parts.*1, true).
Proof.
  revert acc. induction parts as [|[ns l] parts IH]; intros acc Hp; [by rewrite app_nil_r|].
  apply Forall_cons in Hp as [[[Hns Hl] Hf] Hp]. cbn -[Unmarshal_NodeState seg_bytes enc_NodeState].
  rewrite NodeState_roundtrip by done. rewrite IH by done. by rewrite <-app_assoc.
Qed.

(** ** UTF-8 checks pass on well-formed messages *)

Lemma segs_ok_int_field num v : segs_ok (int_field num v) = true.
Proof. unfold int_field. by case_bool_decide. Qed.

Lemma segs_ok_opt_string_field num s :
  utf8_valid (str_bytes s) = true -> segs_ok (opt_string_field num s) = true.
Proof. unfold opt_string_field. case_bool_decide; cbn; [done|]. by intros ->. Qed.

Lemma segs_ok_message_field num sub : segs_ok (message_field num sub) = segs_ok sub.
Proof. done. Qed.

#[export] Hint Rewrite segs_ok_int_field segs_ok_message_field : wire_rw.

Lemma segs_ok_enc_Timestamp t : segs_ok (enc_Timestamp t) = true.
Proof. unfold enc_Timestamp. by autorewrite with wire_rw. Qed.

Lemma segs_ok_enc_Duration d : segs_ok (enc_Duration d) = true.
Proof. unfold enc_Duration. by autorewrite with wire_rw. Qed.

Lemma segs_ok_enc_Entry_key e : utf8_valid (str_bytes (Key e)) = true -> segs_ok (enc_Entry e) = true.
Proof.
  intros Hk. unfold enc_Entry. autorewrite with wire_rw.
  rewrite segs_ok_opt_string_field by done.
  destruct (Value e), (Archived e), (LastUpdatedTime e), (Expiry e);
    autorewrite with wire_rw; rewrite ?segs_ok_enc_Timestamp, ?segs_ok_enc_Duration; done.
Qed.

Lemma segs_ok_enc_Entry e : Entry_wire_ok e -> segs_ok (enc_Entry e) = true.
Proof. intros [Hk _]. by apply segs_ok_enc_Entry_key. Qed.

Lemma segs_ok_entries (l : list (string * Entry)) :
  Forall (fun '(k, e) => utf8_valid (str_bytes k) = true /\ Entry_wire_ok e) l ->
  segs_ok (concat (map (fun '(k, e) => enc_EntriesEntry k e) l)) = true.
Proof.
  induction 1 as [|[k e] l [Hk He] _ IH]; [done|]. cbn [map concat].
  unfold enc_EntriesEntry at 1. rewrite segs_ok_app, segs_ok_message_field, IH.
  cbn [segs_ok forallb key_field snd]. rewrite Hk. cbn [passed andb].
  fold (segs_ok (message_field 2 (enc_Entry e))).
  by rewrite segs_ok_message_field, segs_ok_enc_Entry.
Qed.

(** The entries of a partition as the range over its map visits them. *)
Lemma part_entries p :
  part_ok p -> Forall (fun '(k, e) => utf8_valid (str_bytes k) = true /\ Entry_wire_ok e) p.2.
Proof.
  destruct p as [ns l]. intros [[_ Hm] Hl]. apply Forall_forall. intros [k e] Hin.
  apply (Hm k e). by apply (range_elem_of _ l).
Qed.

Lemma segs_ok_enc_NodeState p : part_ok p -> segs_ok (enc_NodeState p.1 p.2) = true.
Proof.
  intros Hp. pose proof (part_entries p Hp). destruct p as [ns l], Hp as [[Hid _] _].
  unfold enc_NodeState. simpl in *.
  by rewrite segs_ok_app, segs_ok_opt_string_field, segs_ok_entries.
Qed.

Lemma segs_ok_enc_FSM parts : Forall part_ok parts -> segs_ok (enc_FSM parts) = true.
Proof.
  induction 1 as [|[ns l] parts Hp _ IH]; [done|]. unfold enc_FSM in *. cbn [map concat].
  rewrite segs_ok_app, segs_ok_message_field, IH, andb_true_r.
  by apply (segs_ok_enc_NodeState (ns, l)).
Qed.

(** ** A map key that is not UTF-8 *)

(** The entries whose keys are what the node stores under them. *)
Definition keys_stored (l : list (string * Entry)) : Prop :=
  Forall (fun '(k, e) => utf8_valid (str_bytes k) = true -> utf8_valid (str_bytes (Key e)) = true) l.

Lemma EntriesEntry_ok k e :
  utf8_valid (str_bytes k) = true -> utf8_valid (str_bytes (Key e)) = true ->
  segs_ok (enc_EntriesEntry k e) = true.
Proof.
  intros Hk He. unfold enc_EntriesEntry. rewrite segs_ok_message_field.
  cbn [segs_ok forallb key_field snd]. rewrite Hk. cbn [passed andb].
  fold (segs_ok (message_field 2 (enc_Entry e))).
  by rewrite segs_ok_message_field, segs_ok_enc_Entry_key.
Qed.

Lemma EntriesEntry_aborts k e :
  utf8_valid (str_bytes k) = false -> aborts (enc_EntriesEntry k e).
Proof.
  intros Hk. eexists [_], _, _. split.
  2: { unfold enc_EntriesEntry, message_field, key_field. rewrite Hk. reflexivity. }
  reflexivity.
Qed.

(** The entries of a partition marshal, or stop at their first bad key. *)
Lemma entries_ok_or_aborts l :
  keys_stored l ->
  segs_ok (concat (map (fun '(k, e) => enc_EntriesEntry k e) l)) = true \/
  aborts (concat (map (fun '(k, e) => enc_EntriesEntry k e) l)).
Proof.
  induction 1 as [|[k e] l Hke _ IH]; [by left|]. cbn [map concat].
  destruct (utf8_valid (str_bytes k)) eqn:Hk.
  - destruct IH as [IH|IH].
    + left. by rewrite segs_ok_app, EntriesEntry_ok, IH by auto.
    + right. apply aborts_app_r; [by apply EntriesEntry_ok; auto|done].
  - right. by apply aborts_app_l, EntriesEntry_aborts.
Qed.

Lemma entries_aborts l :
  keys_stored l -> Exists (fun '(k, e) => utf8_valid (str_bytes k) = false) l ->
  aborts (concat (map (fun '(k, e) => enc_EntriesEntry k e) l)).
Proof.
  induction 1 as [|[k e] l Hke Hl IH]; [by inversion 1|]. intros Hex. cbn [map concat].
  destruct (utf8_valid (str_bytes k)) eqn:Hk.
  - apply aborts_app_r; [by apply EntriesEntry_ok; auto|].
    apply IH. inversion Hex; subst; [congruence|done].
  - by apply aborts_app_l, EntriesEntry_aborts.
Qed.

(** A partition whose node id is UTF-8. *)
Definition part_keys_stored (p : NodeState * list (string * Entry)) : Prop :=
  utf8_valid (str_bytes (NodeId p.1)) = true /\ keys_stored p.2.

Lemma part_ok_or_aborts ns l :
  part_keys_stored (ns, l) ->
  segs_ok (message_field 1 (enc_NodeState ns l)) = true \/ aborts (message_field 1 (enc_NodeState ns l)).
Proof.
  intros [Hid Hl]. rewrite segs_ok_message_field. unfold enc_NodeState, message_field.
  destruct (entries_ok_or_aborts l Hl) as [H|H].
  - left. by rewrite segs_ok_app, segs_ok_opt_string_field, H.
  - right. apply (aborts_app_r [_]); [done|]. apply aborts_app_r; [|done].
    by apply segs_ok_opt_string_field.
Qed.

(** The marshal of an FSM whose node ids are UTF-8 and whose entries carry
    their keys, one of which is not UTF-8: the writers stop at a map key. *)
Lemma enc_FSM_aborts parts :
  Forall part_keys_stored parts ->
  Exists (fun p => Exists (fun '(k, e) => utf8_valid (str_bytes k) = false) p.2) parts ->
  aborts (enc_FSM parts).
Proof.
  induction 1 as [|[ns l] parts Hp Hps IH]; [by inversion 1|]. intros Hex.
  unfold enc_FSM. cbn [map concat]. fold (enc_FSM parts).
  apply Exists_cons in Hex as [Hex|Hex].
  - apply aborts_app_l. destruct Hp as [Hid Hl]. unfold enc_NodeState, message_field.
    apply (aborts_app_r [_]); [done|]. apply aborts_app_r; [by apply segs_ok_opt_string_field|].
    by apply entries_aborts.
  - destruct (part_ok_or_aborts ns l Hp) as [H|H]; [apply aborts_app_r; auto|by apply aborts_app_l].
Qed.

(** ** The replicated state on the wire *)

Lemma ranges_parts_ok fsm parts :
  ranges_of fsm parts -> FSM_wire_ok fsm -> Forall part_ok parts.
Proof.
  intros [Hids Hl] Hok. apply Forall_forall. intros [ns l] Hin.
  split; [|by apply (proj1 (Forall_forall _ _) Hl _ Hin)].
  apply (proj1 (Forall_forall _ _) Hok). rewrite <-Hids.
  by apply (list_elem_of_fmap_2 fst parts (ns, l)).
Qed.

(** A marshal of a well-formed [FSM] reports no error and writes one
    [node_states] field per partition. *)
Lemma Marshal_FSM_ok fsm parts :
  ranges_of fsm parts -> FSM_wire_ok fsm ->
  Marshal_FSM parts = (fields_bytes (FSM_fields parts), true).
Proof.
  intros Hr Hok. rewrite <-seg_bytes_enc_FSM. apply emit_ok, segs_ok_enc_FSM.
  by eapply ranges_parts_ok.
Qed.

Lemma FSM_fields_wf fsm parts :
  ranges_of fsm parts -> FSM_wire_ok fsm -> fits (fields_bytes (FSM_fields parts)) ->
  Forall field_wf (FSM_fields parts) /\
  Forall (fun p => part_ok p /\ fits (seg_bytes (enc_NodeState p.1 p.2))) parts.
Proof.
  intros Hr Hok Hfit.
  assert (Hwf : Forall field_wf (FSM_fields parts)).
  { apply fields_wf; [|done]. apply Forall_forall.
    intros f ([ns l] & <- & _)%list_elem_of_In%in_map_iff.
    split; [unfold MaxValidNumber; simpl; lia|done]. }
  split; [done|]. apply Forall_forall. intros [ns l] Hin.
  split; [by apply (proj1 (Forall_forall _ _) (ranges_parts_ok _ _ Hr Hok))|].
  eapply (payload_fits _ _ _ Hwf). apply list_elem_of_In, in_map_iff.
  exists (ns, l). split; [done|]. by apply list_elem_of_In.
Qed.

Lemma Unmarshal_FSM_fields fsm parts k :
  ranges_of fsm parts ->
  Forall (fun p => part_ok p /\ fits (seg_bytes (enc_NodeState p.1 p.2))) parts ->
  (dec_FSM_fields [] (take k (FSM_fields parts))) = (take k (NodeStates fsm), true).
Proof.
  intros [Hids _] Hp. unfold FSM_fields. rewrite firstn_map. fold (FSM_fields (take k parts)).
  rewrite (dec_FSM_fields_parts [] (take k parts)) by by apply Forall_take.
  by rewrite <-Hids, fmap_take.
Qed.

(** A message cut anywhere reads back as a prefix of its fields, when the
    fields are length-delimited. *)
Lemma ParseFields_take fs n :
  Forall (fun f => field_wf f /\ exists bs, fval f = WBytes bs) fs ->
  exists k, (ParseFields (take n (fields_bytes fs))).1 = take k fs.
Proof.
  revert n. induction fs as [|f fs IH]; intros n Hfs.
  { exists 0%nat. unfold fields_bytes. simpl. by rewrite take_nil. }
  apply Forall_cons in Hfs as [[Hf [bs Hbs]] Hfs]. rewrite fields_bytes_cons.
  destruct (decide (length (field_bytes f) <= n))%nat as [Hge|Hlt].
  - rewrite take_app_ge, ParseFields_app by done.
    destruct (IH (n - length (field_bytes f))%nat Hfs) as [k Hk].
    exists (S k). destruct (ParseFields _). simpl in *. by rewrite Hk.
  - exists 0%nat. rewrite take_app_le by lia. destruct n as [|n]; [done|].
    destruct f as [num v]; simpl in Hbs; subst v. destruct Hf as [Hnum Hl].
    by rewrite ParseFields_cut_bytes_field by (simpl in *; lia).
Qed.
Lemma FSM_fields_bytes_wf fsm parts :
  ranges_of fsm parts -> FSM_wire_ok fsm -> fits (fields_bytes (FSM_fields parts)) ->
  Forall (fun f => field_wf f /\ exists bs, fval f = WBytes bs) (FSM_fields parts).
Proof.
  intros Hr Hok Hfit. destruct (FSM_fields_wf fsm parts Hr Hok Hfit) as [Hwf _].
  apply Forall_forall. intros f Hin. split; [by apply (proj1 (Forall_forall _ _) Hwf)|].
  apply list_elem_of_In, in_map_iff in Hin as ([ns l] & <- & _). by eexists.
Qed.

(** The round trip, for the clients of the codec. *)
Lemma FSM_wire_roundtrip fsm parts :
  ranges_of fsm parts -> FSM_wire_ok fsm -> fits (seg_bytes (enc_FSM parts)) ->
  Unmarshal_FSM (Marshal_FSM parts).1 = (fsm, true).
Proof.
  intros Hr Hok Hfit. rewrite seg_bytes_enc_FSM in Hfit.
  destruct (FSM_fields_wf fsm parts Hr Hok Hfit) as [Hwf Hp].
  rewrite (Marshal_FSM_ok fsm parts Hr Hok). unfold Unmarshal_FSM, unmarshal_FSM_fields. cbn [fst].
  unfold fields_bytes at 1. rewrite ParseFields_concat by done.
  pose proof (Unmarshal_FSM_fields fsm parts (length (FSM_fields parts)) Hr Hp) as Hd.
  rewrite take_ge in Hd by lia. rewrite Hd, take_ge; [by destruct fsm|].
  destruct Hr as [Hids _]. rewrite <-Hids. unfold FSM_fields. by rewrite length_fmap, length_map.
Qed.

(** ** The round trip of the replicated state *)

(** C2. Marshalling a well-formed [FSM] ([LocalState]'s [proto.Marshal])
    reports no error whatever order its maps are ranged in, and
    unmarshalling the bytes ([MergeRemoteState]'s [proto.Unmarshal])
    gives back the same [FSM] and no error. *)
Theorem Marshal_Unmarshal_FSM fsm parts :
  ranges_of fsm parts -> FSM_wire_ok fsm -> fits (seg_bytes (enc_FSM parts)) ->
  (Marshal_FSM parts).2 = true /\ Unmarshal_FSM (Marshal_FSM parts).1 = (fsm, true).
Proof.
  intros Hr Hok Hfit. split; [by rewrite (Marshal_FSM_ok fsm parts Hr Hok)|].
  by apply FSM_wire_roundtrip.
Qed.

(** C10. A push/pull buffer cut after any number of bytes decodes to the
    first partitions of the sender's [FSM], each of them whole: the
    partition being read at the cut is dropped, never half-decoded. *)
Theorem Unmarshal_FSM_truncated fsm parts n :
  ranges_of fsm parts -> FSM_wire_ok fsm -> fits (seg_bytes (enc_FSM parts)) ->
  exists k, (Unmarshal_FSM (take n (Marshal_FSM parts).1)).1 = mkFSM (take k (NodeStates fsm)).
Proof.
  intros Hr Hok Hfit. rewrite seg_bytes_enc_FSM in Hfit.
  destruct (FSM_fields_wf fsm parts Hr Hok Hfit) as [_ Hp].
  rewrite (Marshal_FSM_ok fsm parts Hr Hok). cbn [fst].
  destruct (ParseFields_take (FSM_fields parts) n) as [k Hk]; [by apply (FSM_fields_bytes_wf fsm)|].
  exists k. unfold Unmarshal_FSM, unmarshal_FSM_fields. destruct (ParseFields _) as [fs st]. simpl in Hk. subst fs.
  by rewrite (Unmarshal_FSM_fields fsm parts k Hr Hp).
Qed.

(** ** Whatever the input: what the decoder produces *)

Lemma int64_of_range v : 0 <= v < 2 ^ 64 -> int64_range (int64_of v).
Proof. unfold int64_range, int64_of. intros Hv. destruct (Z.ltb_spec v (2 ^ 63)); lia. Qed.

Lemma int32_of_range v : int32_range (int32_of v).
Proof.
  unfold int32_range, int32_of. cbv zeta. rewrite land32.
  pose proof (Z.mod_pos_bound v (2 ^ 32) ltac:(lia)).
  destruct (Z.ltb_spec (v mod 2 ^ 32) (2 ^ 31)); lia.
Qed.

Lemma read_string_ok bs s : read_string bs = Some s -> utf8_valid (str_bytes s) = true.
Proof.
  unfold read_string, str_bytes. case_match; intros; simplify_eq.
  by rewrite Stdlib.Strings.String.list_byte_of_string_of_list_byte.
Qed.

(** A property kept by every field step is kept by the field loop, on
    every input: the loop hands over only fields with [uint64] varints. *)
Lemma fold_fields_inv {A} (P : A -> Prop) step a fs a' :
  P a -> (forall a f a', P a -> varint_ok f -> step a f = Some a' -> P a') ->
  Forall varint_ok fs -> fold_fields step a fs = Some a' -> P a'.
Proof.
  intros Ha Hstep Hfs. revert a Ha. induction Hfs as [|f fs Hf _ IH]; intros a Ha; cbn.
  - by intros [= <-].
  - destruct (step a f) as [a1|] eqn:E; [|done]. apply IH. by eapply Hstep.
Qed.

Lemma unmarshal_into_inv {A} (P : A -> Prop) step a bs a' :
  P a -> (forall a f a', P a -> varint_ok f -> step a f = Some a' -> P a') ->
  unmarshal_into step a bs = Some a' -> P a'.
Proof.
  intros Ha Hstep. unfold unmarshal_into. pose proof (ParseFields_varints bs) as Hv.
  destruct (ParseFields bs) as [fs st]. case_match; [|done|done]. by apply fold_fields_inv.
Qed.

Lemma dec_Timestamp_field_typed t f t' :
  Timestamp_typed t -> varint_ok f -> dec_Timestamp_field t f = Some t' -> Timestamp_typed t'.
Proof.
  destruct f as [n v]. unfold varint_ok, dec_Timestamp_field. cbn. intros [Hs Hn] Hv.
  repeat case_match; intros; simplify_eq; split; cbn; auto using int64_of_range, int32_of_range.
Qed.

Lemma dec_Duration_field_typed d f d' :
  Duration_typed d -> varint_ok f -> dec_Duration_field d f = Some d' -> Duration_typed d'.
Proof.
  destruct f as [n v]. unfold varint_ok, dec_Duration_field. cbn. intros [Hs Hn] Hv.
  repeat case_match; intros; simplify_eq; split; cbn; auto using int64_of_range, int32_of_range.
Qed.

Lemma zero_Timestamp_typed : Timestamp_typed zero_Timestamp.
Proof. unfold Timestamp_typed, int64_range, int32_range. cbn. lia. Qed.

Lemma zero_Duration_typed : Duration_typed zero_Duration.
Proof. unfold Duration_typed, int64_range, int32_range. cbn. lia. Qed.

Lemma dec_Entry_field_ok e f e' :
  Entry_wire_ok e -> varint_ok f -> dec_Entry_field e f = Some e' -> Entry_wire_ok e'.
Proof.
  intros (Hk & Ht & Hd) _. destruct e as [k v a lu ex], f as [n w].
  unfold dec_Entry_field. cbn [fnum fval Key LastUpdatedTime Expiry] in *.
  repeat case_match; intros Hdec; simplify_eq; try done;
    apply bind_Some in Hdec as (x & Hx & [= <-]); split_and!; try done; cbn in *.
  all: match goal with
       | H : read_string _ = Some _ |- _ => by eapply read_string_ok
       | H : unmarshal_into dec_Timestamp_field _ _ = Some _ |- _ =>
           eapply unmarshal_into_inv; [|apply dec_Timestamp_field_typed|exact H]
       | H : unmarshal_into dec_Duration_field _ _ = Some _ |- _ =>
           eapply unmarshal_into_inv; [|apply dec_Duration_field_typed|exact H]
       end; auto using zero_Timestamp_typed, zero_Duration_typed.
Qed.

Lemma zero_Entry_ok : Entry_wire_ok zero_Entry.
Proof. done. Qed.

Lemma dec_EntriesEntry_field_ok kv f kv' :
  utf8_valid (str_bytes kv.1) = true /\ Entry_wire_ok kv.2 -> varint_ok f ->
  dec_EntriesEntry_field kv f = Some kv' ->
  utf8_valid (str_bytes kv'.1) = true /\ Entry_wire_ok kv'.2.
Proof.
  destruct kv as [k e], f as [n w]. intros [Hk He] _. unfold dec_EntriesEntry_field. cbn in *.
  repeat case_match; intros Hdec; simplify_eq; try done;
    apply bind_Some in Hdec as (x & Hx & [= <-]); split; try done.
  all: match goal with
       | H : read_string _ = Some _ |- _ => by eapply read_string_ok
       | H : unmarshal_into _ _ _ = Some _ |- _ =>
           eapply unmarshal_into_inv; [exact He|apply dec_Entry_field_ok|exact H]
       end.
Qed.

Lemma dec_NodeState_field_ok ns f ns' :
  NodeState_wire_ok ns -> varint_ok f -> dec_NodeState_field ns f = Some ns' -> NodeState_wire_ok ns'.
Proof.
  destruct ns as [id m], f as [n w]. intros [Hid Hm] _. unfold dec_NodeState_field. cbn in *.
  repeat case_match; intros Hdec; simplify_eq; try done;
    apply bind_Some in Hdec as (x & Hx & [= <-]); split; cbn [Entries NodeId]; try done.
  - apply map_Forall_insert_2; [|done]. cbn beta.
    apply (unmarshal_into_inv (fun kv => utf8_valid (str_bytes kv.1) = true /\ Entry_wire_ok kv.2)
             dec_EntriesEntry_field ("", zero_Entry) bs); [|apply dec_EntriesEntry_field_ok|exact Hx].
    split; [done|apply zero_Entry_ok].
  - by eapply read_string_ok.
Qed.

Lemma Unmarshal_NodeState_ok bs ns : Unmarshal_NodeState bs = Some ns -> NodeState_wire_ok ns.
Proof.
  apply unmarshal_into_inv; [|apply dec_NodeState_field_ok].
  split; [done|apply map_Forall_empty].
Qed.

Lemma dec_FSM_fields_ok acc fs :
  Forall NodeState_wire_ok acc -> Forall NodeState_wire_ok (dec_FSM_fields acc fs).1.
Proof.
  revert acc. induction fs as [|[n w] fs IH]; intros acc Hacc; cbn; [done|].
  repeat case_match; try done; apply IH; try done.
  apply Forall_app; split; [done|]. apply Forall_singleton. by eapply Unmarshal_NodeState_ok.
Qed.

(** The encoding of a Timestamp or a Duration is at most forty bytes. *)
Lemma int_field_length num v : (length (seg_bytes (int_field num v)) <= 20)%nat.
Proof.
  unfold int_field, seg_bytes. case_bool_decide; [cbn; lia|].
  cbn [map concat fst varint_field]. rewrite app_nil_r, length_app.
  unfold AppendTag, AppendVarint. pose proof (length_append_varint_n 10 (EncodeTag num VarintType)).
  pose proof (length_append_varint_n 10 (uint64_of v)). lia.
Qed.

Lemma enc_Timestamp_fits t : fits (seg_bytes (enc_Timestamp t)).
Proof.
  unfold fits, enc_Timestamp. rewrite seg_bytes_app, length_app.
  pose proof (int_field_length 1 (timestamppb.Seconds t)).
  pose proof (int_field_length 2 (timestamppb.Nanos t)). lia.
Qed.

Lemma enc_Duration_fits d : fits (seg_bytes (enc_Duration d)).
Proof.
  unfold fits, enc_Duration. rewrite seg_bytes_app, length_app.
  pose proof (int_field_length 1 (durationpb.Seconds d)).
  pose proof (int_field_length 2 (durationpb.Nanos d)). lia.
Qed.

(** C27. Whatever bytes [MergeRemoteState] is handed, the FSM that
    [proto.Unmarshal] leaves in [remoteFSM] keeps its integers at their Go
    widths (int64 seconds, int32 nanos of every timestamp and duration,
    however long or negative the varints read) and its strings (node ids,
    map keys, [Entry.Key]) are UTF-8: the decoder produces only FSMs the
    encoder accepts. *)
Theorem Unmarshal_FSM_wire_ok bs : FSM_wire_ok (Unmarshal_FSM bs).1.
Proof.
  unfold Unmarshal_FSM, unmarshal_FSM_fields, FSM_wire_ok.
  destruct (ParseFields bs) as [fs st].
  pose proof (dec_FSM_fields_ok [] fs (Forall_nil_2 _)) as H.
  destruct (dec_FSM_fields [] fs) as [nss ok]. exact H.
Qed.

(** ** The size of a marshal does not depend on the map order *)

(** The order in which [proto.Marshal] would range every map of [fsm] if
    Go ranged it as [map_to_list] does. *)
Definition canonical_parts (fsm : FSM) : list (NodeState * list (string * Entry)) :=
  (fun ns => (ns, map_to_list (Entries ns))) <$> NodeStates fsm.

Lemma ranges_of_canonical fsm : ranges_of fsm (canonical_parts fsm).
Proof.
  split.
  - unfold canonical_parts. rewrite <-list_fmap_compose. apply list_fmap_id.
  - unfold canonical_parts. apply Forall_fmap, Forall_forall. intros ns _. cbn. reflexivity.
Qed.

Lemma length_seg_bytes_entries (l l' : list (string * Entry)) :
  l ≡ₚ l' ->
  length (seg_bytes (concat (map (fun '(k, e) => enc_EntriesEntry k e) l))) =
  length (seg_bytes (concat (map (fun '(k, e) => enc_EntriesEntry k e) l'))).
Proof.
  induction 1 as [|[k e] l l' _ IH|[k1 e1] [k2 e2] l|l l' l'' _ IH1 _ IH2]; cbn [map concat];
    rewrite ?seg_bytes_app, ?length_app; lia.
Qed.

Lemma length_message_field num sub sub' :
  length (seg_bytes sub) = length (seg_bytes sub') ->
  length (seg_bytes (message_field num sub)) = length (seg_bytes (message_field num sub')).
Proof. intros H. unfold message_field. rewrite !seg_bytes_cons. cbn [fst]. by rewrite !length_app, H. Qed.

Lemma length_enc_FSM fsm parts :
  ranges_of fsm parts ->
  length (seg_bytes (enc_FSM parts)) = length (seg_bytes (enc_FSM (canonical_parts fsm))).
Proof.
  intros [Hids Hl]. unfold canonical_parts. rewrite <-Hids. clear Hids.
  induction Hl as [|[ns l] parts Hp _ IH]; [done|]. unfold enc_FSM in *. cbn [fmap list_fmap map concat fst].
  rewrite !seg_bytes_app, !length_app, IH. f_equal. apply length_message_field.
  unfold enc_NodeState. rewrite !seg_bytes_app, !length_app. f_equal. by apply length_seg_bytes_entries.
Qed.

(** ** Witnesses *)

Definition wire_entry (k : string) (v : list byte) (s : Z) : Entry :=
  mkEntry k v (Some false) (Some (timestamppb.mkTimestamp s 0)) None.

Definition wire_fsm : FSM :=
  mkFSM [mkNodeState "n1" {["a" := wire_entry "a" [x61] 5]};
         mkNodeState "n2" {["b" := wire_entry "b" [x62] (-7)]}].

Definition wire_parts : list (NodeState * list (string * Entry)) :=
  (fun ns => (ns, map_to_list (Entries ns))) <$> NodeStates wire_fsm.

Lemma wire_fsm_ok :
  ranges_of wire_fsm wire_parts /\ FSM_wire_ok wire_fsm /\ fits (seg_bytes (enc_FSM wire_parts)).
Proof.
  split_and!; [split; [done|]| |by vm_compute].
  - unfold wire_parts. apply Forall_fmap, Forall_forall. intros ns _. simpl. reflexivity.
  - unfold FSM_wire_ok. cbn [NodeStates wire_fsm].
    repeat (apply Forall_cons_2 || apply Forall_nil_2).
    all: split; [by vm_compute|]; apply map_Forall_singleton; split; [by vm_compute|]; split; [by vm_compute|];
      split; [|done]; split; unfold int64_range, int32_range; cbn; lia.
Qed.

Lemma Marshal_Unmarshal_FSM_witness :
  (Marshal_FSM wire_parts).2 = true /\ Unmarshal_FSM (Marshal_FSM wire_parts).1 = (wire_fsm, true).
Proof.
  destruct wire_fsm_ok as (Hr & Hok & Hfit).
  apply (Marshal_Unmarshal_FSM wire_fsm wire_parts); [exact Hr|exact Hok|exact Hfit].
Defined.

Lemma Unmarshal_FSM_truncated_witness :
  exists k, (Unmarshal_FSM (take 20 (Marshal_FSM wire_parts).1)).1 =
            mkFSM (take k (NodeStates wire_fsm)).
Proof.
  destruct wire_fsm_ok as (Hr & Hok & Hfit).
  apply (Unmarshal_FSM_truncated wire_fsm wire_parts 20); [exact Hr|exact Hok|exact Hfit].
Defined.
