(* ===== verification/Descriptor.v ===== *)
(** * Descriptor: the compiled schema of gokv.proto

    [src/internal/internalpb/gokv.pb.go] embeds the serialized
    [FileDescriptorProto] of gokv.proto ([file_internal_gokv_proto_rawDesc],
    lines 784-894), the table of Go types of its messages
    ([file_internal_gokv_proto_goTypes], lines 903-921, with
    [file_internal_gokv_proto_msgTypes], line 902) and the dependency
    indexes that resolve each message-typed field and each RPC type to an
    entry of that table ([file_internal_gokv_proto_depIdxs], lines
    922-947).  At init, protobuf-go builds the message descriptors and
    the codecs of [Codec.v] from these three tables.

    This file holds the three tables as they are written, a decoder for
    the descriptor.proto messages the raw bytes encode (the same field
    loop as [Codec.v]), and lemmas, checked by evaluation, that tie them
    together: the bytes decode, the indexes resolve to the types they
    name, and the wire layout [Codec.v] writes for each message of the
    replicated state is the one the descriptor declares. *)

From S2P Require Import Prelude Types Wire Codec.

#[local] Set Warnings "-register-all".

(** ** The tables of gokv.pb.go *)

Definition file_internal_gokv_proto_rawDesc : list byte := [
  x0a; x13; x69; x6e; x74; x65; x72; x6e; x61; x6c; x2f; x67; x6f; x6b; x76; x2e;
  x70; x72; x6f; x74; x6f; x12; x0a; x69; x6e; x74; x65; x72; x6e; x61; x6c; x70;
  x62; x1a; x1e; x67; x6f; x6f; x67; x6c; x65; x2f; x70; x72; x6f; x74; x6f; x62;
  x75; x66; x2f; x64; x75; x72; x61; x74; x69; x6f; x6e; x2e; x70; x72; x6f; x74;
  x6f; x1a; x1f; x67; x6f; x6f; x67; x6c; x65; x2f; x70; x72; x6f; x74; x6f; x62;
  x75; x66; x2f; x74; x69; x6d; x65; x73; x74; x61; x6d; x70; x2e; x70; x72; x6f;
  x74; x6f; x22; xd8; x01; x0a; x05; x45; x6e; x74; x72; x79; x12; x10; x0a; x03;
  x6b; x65; x79; x18; x01; x20; x01; x28; x09; x52; x03; x6b; x65; x79; x12; x14;
  x0a; x05; x76; x61; x6c; x75; x65; x18; x02; x20; x01; x28; x0c; x52; x05; x76;
  x61; x6c; x75; x65; x12; x1f; x0a; x08; x61; x72; x63; x68; x69; x76; x65; x64;
  x18; x03; x20; x01; x28; x08; x48; x00; x52; x08; x61; x72; x63; x68; x69; x76;
  x65; x64; x88; x01; x01; x12; x46; x0a; x11; x6c; x61; x73; x74; x5f; x75; x70;
  x64; x61; x74; x65; x64; x5f; x74; x69; x6d; x65; x18; x04; x20; x01; x28; x0b;
  x32; x1a; x2e; x67; x6f; x6f; x67; x6c; x65; x2e; x70; x72; x6f; x74; x6f; x62;
  x75; x66; x2e; x54; x69; x6d; x65; x73; x74; x61; x6d; x70; x52; x0f; x6c; x61;
  x73; x74; x55; x70; x64; x61; x74; x65; x64; x54; x69; x6d; x65; x12; x31; x0a;
  x06; x65; x78; x70; x69; x72; x79; x18; x05; x20; x01; x28; x0b; x32; x19; x2e;
  x67; x6f; x6f; x67; x6c; x65; x2e; x70; x72; x6f; x74; x6f; x62; x75; x66; x2e;
  x44; x75; x72; x61; x74; x69; x6f; x6e; x52; x06; x65; x78; x70; x69; x72; x79;
  x42; x0b; x0a; x09; x5f; x61; x72; x63; x68; x69; x76; x65; x64; x22; xb1; x01;
  x0a; x09; x4e; x6f; x64; x65; x53; x74; x61; x74; x65; x12; x17; x0a; x07; x6e;
  x6f; x64; x65; x5f; x69; x64; x18; x01; x20; x01; x28; x09; x52; x06; x6e; x6f;
  x64; x65; x49; x64; x12; x3c; x0a; x07; x65; x6e; x74; x72; x69; x65; x73; x18;
  x02; x20; x03; x28; x0b; x32; x22; x2e; x69; x6e; x74; x65; x72; x6e; x61; x6c;
  x70; x62; x2e; x4e; x6f; x64; x65; x53; x74; x61; x74; x65; x2e; x45; x6e; x74;
  x72; x69; x65; x73; x45; x6e; x74; x72; x79; x52; x07; x65; x6e; x74; x72; x69;
  x65; x73; x1a; x4d; x0a; x0c; x45; x6e; x74; x72; x69; x65; x73; x45; x6e; x74;
  x72; x79; x12; x10; x0a; x03; x6b; x65; x79; x18; x01; x20; x01; x28; x09; x52;
  x03; x6b; x65; x79; x12; x27; x0a; x05; x76; x61; x6c; x75; x65; x18; x02; x20;
  x01; x28; x0b; x32; x11; x2e; x69; x6e; x74; x65; x72; x6e; x61; x6c; x70; x62;
  x2e; x45; x6e; x74; x72; x79; x52; x05; x76; x61; x6c; x75; x65; x3a; x02; x38;
  x01; x22; x3d; x0a; x03; x46; x53; x4d; x12; x36; x0a; x0b; x6e; x6f; x64; x65;
  x5f; x73; x74; x61; x74; x65; x73; x18; x01; x20; x03; x28; x0b; x32; x15; x2e;
  x69; x6e; x74; x65; x72; x6e; x61; x6c; x70; x62; x2e; x4e; x6f; x64; x65; x53;
  x74; x61; x74; x65; x52; x0a; x6e; x6f; x64; x65; x53; x74; x61; x74; x65; x73;
  x22; xae; x01; x0a; x08; x4e; x6f; x64; x65; x4d; x65; x74; x61; x12; x12; x0a;
  x04; x6e; x61; x6d; x65; x18; x01; x20; x01; x28; x09; x52; x04; x6e; x61; x6d;
  x65; x12; x12; x0a; x04; x68; x6f; x73; x74; x18; x02; x20; x01; x28; x09; x52;
  x04; x68; x6f; x73; x74; x12; x12; x0a; x04; x70; x6f; x72; x74; x18; x03; x20;
  x01; x28; x0d; x52; x04; x70; x6f; x72; x74; x12; x25; x0a; x0e; x64; x69; x73;
  x63; x6f; x76; x65; x72; x79; x5f; x70; x6f; x72; x74; x18; x04; x20; x01; x28;
  x0d; x52; x0d; x64; x69; x73; x63; x6f; x76; x65; x72; x79; x50; x6f; x72; x74;
  x12; x3f; x0a; x0d; x63; x72; x65; x61; x74; x69; x6f; x6e; x5f; x74; x69; x6d;
  x65; x18; x05; x20; x01; x28; x0b; x32; x1a; x2e; x67; x6f; x6f; x67; x6c; x65;
  x2e; x70; x72; x6f; x74; x6f; x62; x75; x66; x2e; x54; x69; x6d; x65; x73; x74;
  x61; x6d; x70; x52; x0c; x63; x72; x65; x61; x74; x69; x6f; x6e; x54; x69; x6d;
  x65; x22; x1e; x0a; x0a; x47; x65; x74; x52; x65; x71; x75; x65; x73; x74; x12;
  x10; x0a; x03; x6b; x65; x79; x18; x01; x20; x01; x28; x09; x52; x03; x6b; x65;
  x79; x22; x36; x0a; x0b; x47; x65; x74; x52; x65; x73; x70; x6f; x6e; x73; x65;
  x12; x27; x0a; x05; x65; x6e; x74; x72; x79; x18; x01; x20; x01; x28; x0b; x32;
  x11; x2e; x69; x6e; x74; x65; x72; x6e; x61; x6c; x70; x62; x2e; x45; x6e; x74;
  x72; x79; x52; x05; x65; x6e; x74; x72; x79; x22; x67; x0a; x0a; x50; x75; x74;
  x52; x65; x71; x75; x65; x73; x74; x12; x10; x0a; x03; x6b; x65; x79; x18; x01;
  x20; x01; x28; x09; x52; x03; x6b; x65; x79; x12; x14; x0a; x05; x76; x61; x6c;
  x75; x65; x18; x02; x20; x01; x28; x0c; x52; x05; x76; x61; x6c; x75; x65; x12;
  x31; x0a; x06; x65; x78; x70; x69; x72; x79; x18; x03; x20; x01; x28; x0b; x32;
  x19; x2e; x67; x6f; x6f; x67; x6c; x65; x2e; x70; x72; x6f; x74; x6f; x62; x75;
  x66; x2e; x44; x75; x72; x61; x74; x69; x6f; x6e; x52; x06; x65; x78; x70; x69;
  x72; x79; x22; x0d; x0a; x0b; x50; x75; x74; x52; x65; x73; x70; x6f; x6e; x73;
  x65; x22; x21; x0a; x0d; x44; x65; x6c; x65; x74; x65; x52; x65; x71; x75; x65;
  x73; x74; x12; x10; x0a; x03; x6b; x65; x79; x18; x01; x20; x01; x28; x09; x52;
  x03; x6b; x65; x79; x22; x10; x0a; x0e; x44; x65; x6c; x65; x74; x65; x52; x65;
  x73; x70; x6f; x6e; x73; x65; x22; x24; x0a; x10; x4b; x65; x79; x45; x78; x69;
  x73; x74; x73; x52; x65; x71; x75; x65; x73; x74; x12; x10; x0a; x03; x6b; x65;
  x79; x18; x01; x20; x01; x28; x09; x52; x03; x6b; x65; x79; x22; x2a; x0a; x10;
  x4b; x65; x79; x45; x78; x69; x73; x74; x52; x65; x73; x70; x6f; x6e; x73; x65;
  x12; x16; x0a; x06; x65; x78; x69; x73; x74; x73; x18; x01; x20; x01; x28; x08;
  x52; x06; x65; x78; x69; x73; x74; x73; x22; x0d; x0a; x0b; x4c; x69; x73; x74;
  x52; x65; x71; x75; x65; x73; x74; x22; x3b; x0a; x0c; x4c; x69; x73; x74; x52;
  x65; x73; x70; x6f; x6e; x73; x65; x12; x2b; x0a; x07; x65; x6e; x74; x72; x69;
  x65; x73; x18; x01; x20; x03; x28; x0b; x32; x11; x2e; x69; x6e; x74; x65; x72;
  x6e; x61; x6c; x70; x62; x2e; x45; x6e; x74; x72; x79; x52; x07; x65; x6e; x74;
  x72; x69; x65; x73; x32; xc0; x02; x0a; x09; x4b; x56; x53; x65; x72; x76; x69;
  x63; x65; x12; x36; x0a; x03; x50; x75; x74; x12; x16; x2e; x69; x6e; x74; x65;
  x72; x6e; x61; x6c; x70; x62; x2e; x50; x75; x74; x52; x65; x71; x75; x65; x73;
  x74; x1a; x17; x2e; x69; x6e; x74; x65; x72; x6e; x61; x6c; x70; x62; x2e; x50;
  x75; x74; x52; x65; x73; x70; x6f; x6e; x73; x65; x12; x36; x0a; x03; x47; x65;
  x74; x12; x16; x2e; x69; x6e; x74; x65; x72; x6e; x61; x6c; x70; x62; x2e; x47;
  x65; x74; x52; x65; x71; x75; x65; x73; x74; x1a; x17; x2e; x69; x6e; x74; x65;
  x72; x6e; x61; x6c; x70; x62; x2e; x47; x65; x74; x52; x65; x73; x70; x6f; x6e;
  x73; x65; x12; x3f; x0a; x06; x44; x65; x6c; x65; x74; x65; x12; x19; x2e; x69;
  x6e; x74; x65; x72; x6e; x61; x6c; x70; x62; x2e; x44; x65; x6c; x65; x74; x65;
  x52; x65; x71; x75; x65; x73; x74; x1a; x1a; x2e; x69; x6e; x74; x65; x72; x6e;
  x61; x6c; x70; x62; x2e; x44; x65; x6c; x65; x74; x65; x52; x65; x73; x70; x6f;
  x6e; x73; x65; x12; x47; x0a; x09; x4b; x65; x79; x45; x78; x69; x73; x74; x73;
  x12; x1c; x2e; x69; x6e; x74; x65; x72; x6e; x61; x6c; x70; x62; x2e; x4b; x65;
  x79; x45; x78; x69; x73; x74; x73; x52; x65; x71; x75; x65; x73; x74; x1a; x1c;
  x2e; x69; x6e; x74; x65; x72; x6e; x61; x6c; x70; x62; x2e; x4b; x65; x79; x45;
  x78; x69; x73; x74; x52; x65; x73; x70; x6f; x6e; x73; x65; x12; x39; x0a; x04;
  x4c; x69; x73; x74; x12; x17; x2e; x69; x6e; x74; x65; x72; x6e; x61; x6c; x70;
  x62; x2e; x4c; x69; x73; x74; x52; x65; x71; x75; x65; x73; x74; x1a; x18; x2e;
  x69; x6e; x74; x65; x72; x6e; x61; x6c; x70; x62; x2e; x4c; x69; x73; x74; x52;
  x65; x73; x70; x6f; x6e; x73; x65; x42; x9e; x01; x0a; x0e; x63; x6f; x6d; x2e;
  x69; x6e; x74; x65; x72; x6e; x61; x6c; x70; x62; x42; x09; x47; x6f; x6b; x76;
  x50; x72; x6f; x74; x6f; x48; x02; x50; x01; x5a; x37; x67; x69; x74; x68; x75;
  x62; x2e; x63; x6f; x6d; x2f; x74; x6f; x63; x68; x65; x6d; x65; x79; x2f; x67;
  x6f; x6b; x76; x2f; x69; x6e; x74; x65; x72; x6e; x61; x6c; x2f; x69; x6e; x74;
  x65; x72; x6e; x61; x6c; x70; x62; x3b; x69; x6e; x74; x65; x72; x6e; x61; x6c;
  x70; x62; xa2; x02; x03; x49; x58; x58; xaa; x02; x0a; x49; x6e; x74; x65; x72;
  x6e; x61; x6c; x70; x62; xca; x02; x0a; x49; x6e; x74; x65; x72; x6e; x61; x6c;
  x70; x62; xe2; x02; x16; x49; x6e; x74; x65; x72; x6e; x61; x6c; x70; x62; x5c;
  x47; x50; x42; x4d; x65; x74; x61; x64; x61; x74; x61; xea; x02; x0a; x49; x6e;
  x74; x65; x72; x6e; x61; x6c; x70; x62; x62; x06; x70; x72; x6f; x74; x6f; x33].

(** A Go type of [goTypes]: a pointer to a generated message of a Go
    package, or [nil] for a map entry, which has no Go type. *)
Inductive GoType := GoMsg (pkg name : string) | GoNil.

Definition file_internal_gokv_proto_goTypes : list GoType := [
  GoMsg "internalpb" "Entry"; GoMsg "internalpb" "NodeState"; GoMsg "internalpb" "FSM";
  GoMsg "internalpb" "NodeMeta"; GoMsg "internalpb" "GetRequest";
  GoMsg "internalpb" "GetResponse"; GoMsg "internalpb" "PutRequest";
  GoMsg "internalpb" "PutResponse"; GoMsg "internalpb" "DeleteRequest";
  GoMsg "internalpb" "DeleteResponse"; GoMsg "internalpb" "KeyExistsRequest";
  GoMsg "internalpb" "KeyExistResponse"; GoMsg "internalpb" "ListRequest";
  GoMsg "internalpb" "ListResponse"; GoNil;
  GoMsg "timestamppb" "Timestamp"; GoMsg "durationpb" "Duration"].

(** [make([]protoimpl.MessageInfo, 15)]. *)
Definition file_internal_gokv_proto_msgTypes_len : nat := 15.

Definition file_internal_gokv_proto_depIdxs : list Z :=
  [15; 16; 14; 1; 15; 0; 16; 0; 0;
   6; 4; 8; 10; 12;
   7; 5; 9; 11; 13;
   14; 9; 9; 9; 0].

(** ** descriptor.proto, as protobuf-go decodes it

    descriptor.proto is a proto2 file: strings are not checked for UTF-8,
    a scalar read twice keeps the last value, a repeated field collects
    its values in order.  Only the fields the theorems read are decoded;
    the others (options apart from [map_entry], source info, json names)
    are skipped like unknown fields. *)

Definition parse_message (bs : list byte) : option (list field) :=
  let '(fs, st) := ParseFields bs in match st with Done _ => Some fs | _ => None end.

Definition last_bytes (n : Z) (fs : list field) : option (list byte) :=
  foldl (fun acc f => match fval f with
                      | WBytes bs => if fnum f =? n then Some bs else acc
                      | _ => acc end) None fs.

Definition last_varint (n : Z) (fs : list field) : option Z :=
  foldl (fun acc f => match fval f with
                      | WVarint v => if fnum f =? n then Some v else acc
                      | _ => acc end) None fs.

Definition all_bytes (n : Z) (fs : list field) : list (list byte) :=
  omap (fun f => match fval f with
                 | WBytes bs => if fnum f =? n then Some bs else None
                 | _ => None end) fs.

Definition proto2_string (bs : option (list byte)) : string :=
  Stdlib.Strings.String.string_of_list_byte (default [] bs).

(** [FieldDescriptorProto]: name 1, number 3, label 4, type 5,
    type_name 6, oneof_index 9, proto3_optional 17. *)
Record FieldDescriptorProto := mkFieldDescriptorProto {
  fd_name : string; fd_number : Z; fd_label : Z; fd_type : Z; fd_type_name : string;
  fd_oneof_index : option Z; fd_proto3_optional : bool }.

Definition dec_FieldDescriptorProto (bs : list byte) : option FieldDescriptorProto :=
  fs ← parse_message bs;
  Some (mkFieldDescriptorProto (proto2_string (last_bytes 1 fs))
          (int32_of (default 0 (last_varint 3 fs))) (int32_of (default 0 (last_varint 4 fs)))
          (int32_of (default 0 (last_varint 5 fs))) (proto2_string (last_bytes 6 fs))
          (int32_of <$> last_varint 9 fs) (negb (default 0 (last_varint 17 fs) =? 0))).

(** [DescriptorProto]: name 1, field 2, nested_type 3, options 7 (whose
    [map_entry] is field 7). *)
Inductive DescriptorProto := mkDescriptorProto {
  d_name : string; d_field : list FieldDescriptorProto;
  d_nested_type : list DescriptorProto; d_map_entry : bool }.

Fixpoint dec_DescriptorProto (fuel : nat) (bs : list byte) : option DescriptorProto :=
  match fuel with
  | O => None
  | S f =>
      fs ← parse_message bs;
      fields ← mapM dec_FieldDescriptorProto (all_bytes 2 fs);
      nested ← mapM (dec_DescriptorProto f) (all_bytes 3 fs);
      map_entry ← (match last_bytes 7 fs with
                   | Some ob => opts ← parse_message ob; Some (default 0 (last_varint 7 opts))
                   | None => Some 0 end);
      Some (mkDescriptorProto (proto2_string (last_bytes 1 fs)) fields nested
              (negb (map_entry =? 0)))
  end.

(** [MethodDescriptorProto]: name 1, input_type 2, output_type 3;
    [ServiceDescriptorProto]: name 1, method 2. *)
Record MethodDescriptorProto := mkMethodDescriptorProto {
  m_name : string; m_input_type : string; m_output_type : string }.

Record ServiceDescriptorProto := mkServiceDescriptorProto {
  s_name : string; s_method : list MethodDescriptorProto }.

Definition dec_MethodDescriptorProto (bs : list byte) : option MethodDescriptorProto :=
  fs ← parse_message bs;
  Some (mkMethodDescriptorProto (proto2_string (last_bytes 1 fs))
          (proto2_string (last_bytes 2 fs)) (proto2_string (last_bytes 3 fs))).

Definition dec_ServiceDescriptorProto (bs : list byte) : option ServiceDescriptorProto :=
  fs ← parse_message bs;
  methods ← mapM dec_MethodDescriptorProto (all_bytes 2 fs);
  Some (mkServiceDescriptorProto (proto2_string (last_bytes 1 fs)) methods).

(** [FileDescriptorProto]: name 1, package 2, dependency 3,
    message_type 4, service 6, syntax 12. *)
Record FileDescriptorProto := mkFileDescriptorProto {
  f_name : string; f_package : string; f_dependency : list string;
  f_message_type : list DescriptorProto; f_service : list ServiceDescriptorProto;
  f_syntax : string }.

Definition dec_FileDescriptorProto (bs : list byte) : option FileDescriptorProto :=
  fs ← parse_message bs;
  messages ← mapM (dec_DescriptorProto (S (length bs))) (all_bytes 4 fs);
  services ← mapM dec_ServiceDescriptorProto (all_bytes 6 fs);
  Some (mkFileDescriptorProto (proto2_string (last_bytes 1 fs)) (proto2_string (last_bytes 2 fs))
          (proto2_string ∘ Some <$> all_bytes 3 fs) messages services
          (proto2_string (last_bytes 12 fs))).

(** [File_internal_gokv_proto]: the descriptor built at init. *)
Definition gokv_file : option FileDescriptorProto :=
  dec_FileDescriptorProto file_internal_gokv_proto_rawDesc.

(** ** Names and references *)

(** The proto package of a Go package of [goTypes]. *)
Definition proto_package (pkg : string) : string :=
  if String.eqb pkg "internalpb" then "internalpb" else "google.protobuf".

(** [a.b], the full name of [b] in the scope [a]. *)
Definition dot (a b : string) : string := String.append a (String.append "." b).

(** The messages of the file with their full names: the top-level ones in
    order, then the nested ones (the map entries), the order of
    [goTypes]. *)
Definition all_messages (f : FileDescriptorProto) : list (string * DescriptorProto) :=
  let top := (fun d => (dot (dot "" (f_package f)) (d_name d), d)) <$> f_message_type f in
  top ++ concat ((fun nd => (fun d' => (dot nd.1 (d_name d'), d')) <$> d_nested_type nd.2) <$> top).

(** The full name of entry [i] of [goTypes]: the message of its Go type,
    or, for [nil], the [i]-th message of the file. *)
Definition goType_name (f : FileDescriptorProto) (i : nat) : option string :=
  match file_internal_gokv_proto_goTypes !! i with
  | Some (GoMsg pkg n) => Some (dot (dot "" (proto_package pkg)) n)
  | Some GoNil => fst <$> all_messages f !! i
  | None => None
  end.

Definition TYPE_MESSAGE : Z := 11.

(** The type names [depIdxs] resolves, in its order: the message-typed
    fields of every message, then the input types of the methods, then
    their output types. *)
Definition field_refs (f : FileDescriptorProto) : list string :=
  concat ((fun nd => fd_type_name <$> filter (fun fd => fd_type fd = TYPE_MESSAGE) (d_field nd.2))
            <$> all_messages f).

Definition method_inputs (f : FileDescriptorProto) : list string :=
  concat ((fun s => m_input_type <$> s_method s) <$> f_service f).

Definition method_outputs (f : FileDescriptorProto) : list string :=
  concat ((fun s => m_output_type <$> s_method s) <$> f_service f).

(** ** Wire layout *)

Definition wire_kind (v : wire_value) : Z :=
  match v with
  | WVarint _ => VarintType | WFixed64 _ => Fixed64Type | WBytes _ => BytesType
  | WFixed32 _ => Fixed32Type | WGroup => StartGroupType
  end.

(** The wire type of a field of a descriptor type: string (9), message
    (11) and bytes (12) are length-delimited, the scalars of gokv.proto
    (bool, uint32) are varints. *)
Definition wire_type_of (t : Z) : Z :=
  if (t =? 9) || (t =? 11) || (t =? 12) then BytesType else VarintType.

Fixpoint find_message (name : string) (l : list (string * DescriptorProto)) : option DescriptorProto :=
  match l with
  | [] => None
  | (n, d) :: l' => if String.eqb n name then Some d else find_message name l'
  end.

(** The (number, wire type) of the fields a message declares, in order. *)
Definition declared_layout (f : FileDescriptorProto) (name : string) : option (list (Z * Z)) :=
  (fun d => (fun fd => (fd_number fd, wire_type_of (fd_type fd))) <$> d_field d)
    <$> find_message name (all_messages f).

(** The (number, wire type) of the fields an encoding holds, in order. *)
Definition written_layout (bs : list byte) : list (Z * Z) :=
  (fun fl => (fnum fl, wire_kind (fval fl))) <$> (ParseFields bs).1.

(** Values with every field present, one element in each repeated field. *)
Definition full_entry : Entry :=
  mkEntry "k" [x61] (Some false) (Some (timestamppb.mkTimestamp 1 1))
    (Some (durationpb.mkDuration 1 1)).
Definition full_node_state : NodeState := mkNodeState "n1" {["k" := full_entry]}.
Definition full_parts : list (NodeState * list (string * Entry)) :=
  [(full_node_state, map_to_list (Entries full_node_state))].
Definition full_meta : NodeMeta :=
  mkNodeMeta "n1" "h" 1 2 (Some (timestamppb.mkTimestamp 1 1)).

Definition is_nil (t : GoType) : bool := match t with GoNil => true | GoMsg _ _ => false end.

(** ** The generated methods of each message

    Every message [M] of gokv.pb.go has [Reset] (zero the struct, then,
    under [protoimpl.UnsafeEnabled], attach
    [&file_internal_gokv_proto_msgTypes[i]] to its state), [String] and
    [ProtoMessage] (no content of their own), [ProtoReflect] (the message
    state bound to [&file_internal_gokv_proto_msgTypes[i]]) and the
    deprecated [Descriptor] (the compressed raw descriptor and the path
    [[]int{j}] of the message in it).  What these methods depend on is the
    two indexes [i] and [j]: one record per message.  The zero values
    [Reset] writes are those of [Codec.v] ([zero_Entry], ...); the gzip
    compression of [rawDescGZIP] is not modelled. *)
Record GeneratedMessage := mkGeneratedMessage {
  gm_type : string;
  gm_reset_index : nat;        (* Reset: msgTypes[i] *)
  gm_reflect_index : nat;      (* ProtoReflect: msgTypes[i] *)
  gm_descriptor_path : list Z   (* Descriptor: []int{j} *) }.

Definition Entry_methods : GeneratedMessage := mkGeneratedMessage "Entry" 0 0 [0].
Definition NodeState_methods : GeneratedMessage := mkGeneratedMessage "NodeState" 1 1 [1].
Definition FSM_methods : GeneratedMessage := mkGeneratedMessage "FSM" 2 2 [2].
Definition NodeMeta_methods : GeneratedMessage := mkGeneratedMessage "NodeMeta" 3 3 [3].
Definition GetRequest_methods : GeneratedMessage := mkGeneratedMessage "GetRequest" 4 4 [4].
Definition GetResponse_methods : GeneratedMessage := mkGeneratedMessage "GetResponse" 5 5 [5].
Definition PutRequest_methods : GeneratedMessage := mkGeneratedMessage "PutRequest" 6 6 [6].
Definition PutResponse_methods : GeneratedMessage := mkGeneratedMessage "PutResponse" 7 7 [7].
Definition DeleteRequest_methods : GeneratedMessage := mkGeneratedMessage "DeleteRequest" 8 8 [8].
Definition DeleteResponse_methods : GeneratedMessage := mkGeneratedMessage "DeleteResponse" 9 9 [9].
Definition KeyExistsRequest_methods : GeneratedMessage :=
  mkGeneratedMessage "KeyExistsRequest" 10 10 [10].
Definition KeyExistResponse_methods : GeneratedMessage :=
  mkGeneratedMessage "KeyExistResponse" 11 11 [11].
Definition ListRequest_methods : GeneratedMessage := mkGeneratedMessage "ListRequest" 12 12 [12].
Definition ListResponse_methods : GeneratedMessage := mkGeneratedMessage "ListResponse" 13 13 [13].

Definition generated_messages : list GeneratedMessage :=
  [Entry_methods; NodeState_methods; FSM_methods; NodeMeta_methods; GetRequest_methods;
   GetResponse_methods; PutRequest_methods; PutResponse_methods; DeleteRequest_methods;
   DeleteResponse_methods; KeyExistsRequest_methods; KeyExistResponse_methods;
   ListRequest_methods; ListResponse_methods].

#[export] Instance GoType_eq_dec : EqDecision GoType.
Proof. solve_decision. Defined.

(** The indexes of one message agree with the tables: [Reset] and
    [ProtoReflect] use the same [MessageInfo], which exists
    ([i < len(msgTypes)]) and is the one [TypeBuilder] builds for the Go
    type at [goTypes[i]]; the path of [Descriptor] leads to the
    top-level message of that name. *)
Definition message_info_ok (f : FileDescriptorProto) (m : GeneratedMessage) : bool :=
  bool_decide (gm_reset_index m = gm_reflect_index m) &&
  bool_decide (gm_reflect_index m < file_internal_gokv_proto_msgTypes_len)%nat &&
  bool_decide (file_internal_gokv_proto_goTypes !! gm_reflect_index m =
               Some (GoMsg "internalpb" (gm_type m))) &&
  match gm_descriptor_path m with
  | [j] => bool_decide (0 <= j) && bool_decide (d_name <$> f_message_type f !! Z.to_nat j = Some (gm_type m))
  | _ => false
  end.

(** ** The tables agree *)

(** The three tables of gokv.pb.go agree.  The raw descriptor decodes
    to internal/gokv.proto, package internalpb, syntax proto3; its 15
    messages (the 14 of the file, then the map entry
    NodeState.EntriesEntry) are [len(msgTypes)] and, in order, the
    entries of [goTypes], whose [nil] is exactly the map entry; each of
    the first indexes of [depIdxs] names the type its field or method
    refers to, and the trailing markers delimit the field, extension and
    method groups. *)
Theorem descriptor_tables_agree :
  match gokv_file with
  | None => False
  | Some f =>
      let refs := field_refs f ++ method_inputs f ++ method_outputs f in
      f_name f = "internal/gokv.proto" /\ f_package f = "internalpb" /\
      f_syntax f = "proto3" /\
      length (all_messages f) = file_internal_gokv_proto_msgTypes_len /\
      goType_name f <$> seq 0 (length (all_messages f)) = Some <$> (all_messages f).*1 /\
      d_map_entry <$> (all_messages f).*2 = is_nil <$> take 15 file_internal_gokv_proto_goTypes /\
      (fun i => goType_name f (Z.to_nat i)) <$> take (length refs) file_internal_gokv_proto_depIdxs
        = Some <$> refs /\
      drop (length refs) file_internal_gokv_proto_depIdxs =
        [Z.of_nat (length (field_refs f ++ method_inputs f)); Z.of_nat (length (field_refs f));
         Z.of_nat (length (field_refs f)); Z.of_nat (length (field_refs f)); 0]
  end.
Proof. vm_compute. split_and!; reflexivity. Qed.

(** The codec of [Codec.v] writes each message of the replicated
    state with the field numbers and wire types the compiled descriptor
    declares, in the declared order, and the descriptor marks
    [Entry.archived] as a proto3 optional field, the pointer the codec
    writes whenever it is set. *)
Theorem codec_layout_matches_descriptor :
  match gokv_file with
  | None => False
  | Some f =>
      declared_layout f ".internalpb.Entry" = Some (written_layout (seg_bytes (enc_Entry full_entry))) /\
      declared_layout f ".internalpb.NodeState" =
        Some (written_layout (seg_bytes (enc_NodeState full_node_state (map_to_list (Entries full_node_state))))) /\
      declared_layout f ".internalpb.NodeState.EntriesEntry" =
        Some (written_layout (seg_bytes (string_field 1 "k" :: message_field 2 (enc_Entry full_entry)))) /\
      declared_layout f ".internalpb.FSM" = Some (written_layout (seg_bytes (enc_FSM full_parts))) /\
      declared_layout f ".internalpb.NodeMeta" = Some (written_layout (seg_bytes (enc_NodeMeta full_meta))) /\
      (fun d => fd_proto3_optional <$> d_field d) <$> find_message ".internalpb.Entry" (all_messages f)
        = Some [false; false; true; false; false]
  end.
Proof. vm_compute. split_and!; reflexivity. Qed.

(** ** file_internal_gokv_proto_init *)

(** The counts of [protoimpl.DescBuilder] (lines 1124-1131). *)
Record DescBuilder := mkDescBuilder {
  NumEnums : nat; NumMessages : nat; NumExtensions : nat; NumServices : nat }.

Definition gokv_DescBuilder : DescBuilder := mkDescBuilder 0 15 0 1.

(** The package variables [init] reads and writes; [None] is [nil]. *)
Record InitState := mkInitState {
  File_internal_gokv_proto : option FileDescriptorProto;
  rawDesc_var : option (list byte);
  goTypes_var : option (list GoType);
  depIdxs_var : option (list Z) }.

Definition init_state0 : InitState :=
  mkInitState None (Some file_internal_gokv_proto_rawDesc)
    (Some file_internal_gokv_proto_goTypes) (Some file_internal_gokv_proto_depIdxs).

(** Whether [TypeBuilder.Build] accepts the tables: the counts of the
    builder are those of the decoded file, and [goTypes] holds one entry
    per message followed by the messages of other files that
    [depIdxs] reaches.  [Build] panics otherwise ([None] below). *)
Definition builder_accepts (db : DescBuilder) (f : FileDescriptorProto)
    (goTypes : list GoType) (depIdxs : list Z) : bool :=
  bool_decide (NumEnums db = 0%nat) && bool_decide (NumExtensions db = 0%nat) &&
  bool_decide (NumMessages db = length (all_messages f)) &&
  bool_decide (NumServices db = length (f_service f)) &&
  bool_decide (length (all_messages f) <= length goTypes)%nat &&
  forallb (fun i => bool_decide (0 <= i < Z.of_nat (length goTypes))) depIdxs.

(** [file_internal_gokv_proto_init] (lines 950-1142): return at once when
    the file is built; otherwise build it from the three tables and set
    them to [nil]. *)
Definition file_internal_gokv_proto_init (s : InitState) : option InitState :=
  match File_internal_gokv_proto s with
  | Some _ => Some s
  | None =>
      raw ← rawDesc_var s; goTypes ← goTypes_var s; depIdxs ← depIdxs_var s;
      f ← dec_FileDescriptorProto raw;
      if builder_accepts gokv_DescBuilder f goTypes depIdxs
      then Some (mkInitState (Some f) None None None) else None
  end.

(** [init] succeeds on the package as compiled: the builder's counts
    (no enum, 15 messages, no extension, 1 service) are those of the raw
    descriptor and every dependency index is in the table of Go types;
    afterwards [File_internal_gokv_proto] is the decoded descriptor, the
    three tables are [nil], and running [init] again changes nothing. *)
Theorem init_builds_file :
  match file_internal_gokv_proto_init init_state0 with
  | None => False
  | Some s =>
      File_internal_gokv_proto s = gokv_file /\ gokv_file <> None /\
      rawDesc_var s = None /\ goTypes_var s = None /\ depIdxs_var s = None /\
      file_internal_gokv_proto_init s = Some s
  end.
Proof. vm_compute. split_and!; try reflexivity. discriminate. Qed.

(** The reflection of every generated message is wired to its own
    tables: for each of the 14 messages, [Reset] and [ProtoReflect] use
    the same [msgTypes] entry, that entry exists and is built for the
    message's own Go type in [goTypes], [Descriptor]'s path names the
    message of that name in the raw descriptor, and the 14 messages use
    the indexes 0 to 13 in the order of the descriptor, one each. *)
Theorem generated_methods_agree :
  match gokv_file with
  | None => False
  | Some f =>
      forallb (message_info_ok f) generated_messages = true /\
      gm_reflect_index <$> generated_messages = seq 0 (length (f_message_type f))
  end.
Proof. vm_compute. split; reflexivity. Qed.
