(* ===== verification/Expiry.v ===== *)
(** * Expiry: the expiry policy of delegate.go

    [expired] and [setExpiry] of [src/unnamed/part_001], and
    [durationpb.New], which [setExpiry] calls.  The theorems state when an
    entry is expired, that expiry is monotone in the clock (once expired,
    an unchanged entry stays expired), that the stored duration plays no
    part in the decision, and the arithmetic of [durationpb.New]. *)

From S2P Require Import Prelude Types.

(** [durationpb.New(d)]:
    [nanos := d.Nanoseconds(); secs := nanos / 1e9; nanos -= secs * 1e9],
    with Go's truncating division. *)
Definition durationpb_New (d : Z) : Duration :=
  let secs := Z.quot d (10 ^ 9) in
  {| durationpb.Seconds := secs; durationpb.Nanos := d - secs * 10 ^ 9 |}.

(** [setExpiry]: a positive [time.Duration] (nanoseconds) becomes a
    [*durationpb.Duration]; zero or negative means no expiry (nil). *)
Definition setExpiry (expiration : Z) : option Duration :=
  if 0 <? expiration then Some (durationpb_New expiration) else None.

(** [expired]: an entry without expiry never expires; otherwise the
    deadline is the entry's last update second itself (the duration is
    not added), a deadline at or before the epoch never passes, and the
    entry is expired when [time.Now().UTC().Unix()] is past the deadline. *)
Definition expired (now : GoTime) (entry : Entry) : bool :=
  match GetExpiry entry with
  | None => false
  | Some _ =>
      let expiration := AsTime_Unix (GetLastUpdatedTime entry) in
      if expiration <=? 0 then false
      else GoTime_Unix now >? expiration
  end.

(** ** Theorems *)

(** [expired] decides: the entry has an expiry, its last update second is
    after the epoch, and the clock is strictly past that second. *)
Lemma expired_spec (now : GoTime) (e : Entry) :
  expired now e = true <->
  is_Some (Expiry e) /\ 0 < AsTime_Unix (LastUpdatedTime e) < GoTime_Unix now.
Proof.
  unfold expired, GetExpiry, GetLastUpdatedTime.
  destruct (Expiry e) as [d|]; simpl.
  - destruct (AsTime_Unix (LastUpdatedTime e) <=? 0) eqn:H0; zbool.
    + split; [discriminate | lia].
    + rewrite Z.gtb_ltb, Z.ltb_lt. split; [intros; split; [eauto | lia] | lia].
  - split; [discriminate | intros [[? ?] _]; discriminate].
Qed.

(** C28. Expiry is permanent: if [expired] holds of an entry at a clock
    reading, it holds of the same entry at every later reading (spec P5). *)
Theorem expired_monotone (now now' : GoTime) (e : Entry) :
  expired now e = true ->
  GoTime_Unix now <= GoTime_Unix now' ->
  expired now' e = true.
Proof.
  rewrite !expired_spec. intros [Hs Hlt] Hle. split; [done | lia].
Qed.

Lemma expired_monotone_witness :
  expired (mkGoTime 20 0)
    (mkEntry "k" [] None (Some (timestamppb.mkTimestamp 10 0))
       (Some (durationpb.mkDuration 3600 0))) = true /\
  expired (mkGoTime 25 0)
    (mkEntry "k" [] None (Some (timestamppb.mkTimestamp 10 0))
       (Some (durationpb.mkDuration 3600 0))) = true.
Proof.
  split; [reflexivity|].
  apply (expired_monotone (mkGoTime 20 0)); [reflexivity | simpl; lia].
Defined.

(** The stored expiry duration plays no part in [expired]: two entries
    that differ only in a (present) expiry duration are expired at exactly
    the same clock readings.  An entry put with an expiry of one hour is
    treated like one put with 100ms (spec, open question 1). *)
Theorem expired_ignores_duration (now : GoTime) (e : Entry) (d1 d2 : Duration) :
  expired now (mkEntry (Key e) (Value e) (Archived e) (LastUpdatedTime e) (Some d1)) =
  expired now (mkEntry (Key e) (Value e) (Archived e) (LastUpdatedTime e) (Some d2)).
Proof. reflexivity. Qed.

(** [setExpiry] returns nil exactly for non-positive durations. *)
Lemma setExpiry_None (expiration : Z) :
  setExpiry expiration = None <-> expiration <= 0.
Proof.
  unfold setExpiry. destruct (0 <? expiration) eqn:H; zbool.
  - split; [discriminate | lia].
  - split; [lia | done].
Qed.

(** [durationpb.New] splits a duration exactly: the seconds times 1e9
    plus the nanos give the duration back, the nanos lie in (-1e9, 1e9) and
    share the sign of the duration, and an int64 duration yields an int64
    second count and an int32 nano count. *)
Theorem durationpb_New_spec (d : Z) :
  int64_range d ->
  let r := durationpb_New d in
  durationpb.Seconds r * 10 ^ 9 + durationpb.Nanos r = d /\
  - 10 ^ 9 < durationpb.Nanos r < 10 ^ 9 /\
  (0 <= d -> 0 <= durationpb.Nanos r) /\
  (d <= 0 -> durationpb.Nanos r <= 0) /\
  int64_range (durationpb.Seconds r) /\ int32_range (durationpb.Nanos r).
Proof.
  unfold int64_range, int32_range, durationpb_New; simpl. intros Hd.
  change (10 ^ 9) with 1000000000 in *.
  pose proof (Z.quot_rem' d 1000000000) as Hqr.
  pose proof (Z.rem_bound_abs d 1000000000 ltac:(lia)) as Hb.
  pose proof (Z.rem_nonneg d 1000000000) as Hp.
  pose proof (Z.rem_nonpos d 1000000000) as Hn.
  replace (d - Z.quot d 1000000000 * 1000000000) with (Z.rem d 1000000000) by lia.
  repeat split; lia.
Qed.

Lemma durationpb_New_spec_witness :
  int64_range 100000000 /\
  durationpb.Seconds (durationpb_New 100000000) * 10 ^ 9
    + durationpb.Nanos (durationpb_New 100000000) = 100000000.
Proof.
  split; [unfold int64_range; lia|].
  apply (durationpb_New_spec 100000000). unfold int64_range; lia.
Defined.
