(* ===== verification/Store.v ===== *)
(** * Store: the Delegate and its local key/value operations

    The [Delegate] of [src/unnamed/part_001] and its methods [newDelegate],
    [Put], [Get], [List], [Delete] and [Exists], translated loop by loop.
    Each method runs under the delegate's lock, so each is one function
    from the delegate state to the new state (and a result).  The clock
    readings [time.Now()] are arguments.

    The theorems give each operation's behaviour on every branch, the
    partition-shape invariant (node ids unique, the node's own partition
    present) that all local writes preserve, read-your-writes, and the
    places where the code departs from the spec: [Put] overwrites every
    partition that holds the key, and a [Delete] does not hide a key that
    another partition also holds. *)

From S2P Require Import Prelude Types Expiry.

(** ** State *)

(** [type Delegate struct { *sync.RWMutex; nodeMeta; fsm; me }]; the mutex
    is the atomicity of each operation and holds no data. *)
Record Delegate := mkDelegate {
  nodeMeta : NodeMeta;
  fsm : FSM;
  me : string
}.

Definition set_fsm (d : Delegate) (nss : list NodeState) : Delegate :=
  {| nodeMeta := nodeMeta d; fsm := {| NodeStates := nss |}; me := me d |}.

(** [newDelegate(name, meta)]: one partition, the node's own, empty. *)
Definition newDelegate (name : string) (meta : NodeMeta) : Delegate :=
  {| nodeMeta := meta;
     me := name;
     fsm := {| NodeStates := [ {| NodeId := name; Entries := ∅ |} ] |} |}.

(** The error [ErrKeyNotFound], the only error the engine returns. *)
Inductive GoError := ErrKeyNotFound.

(** The inner loops [for k := range nodeState.GetEntries() { if k == key ...}],
    over the map's pairs in its iteration order. *)
Definition map_find_key (key : string) (m : gmap string Entry) : option Entry :=
  range_find key (map_to_list m).

Definition map_has_key (key : string) (m : gmap string Entry) : bool :=
  match map_find_key key m with Some _ => true | None => false end.

(** ** Put *)

(** The fresh entry that [Put] installs (Archived left nil). *)
Definition put_entry (key : string) (value : list byte) (timestamp : Timestamp)
    (expiry : option Duration) : Entry :=
  {| Key := key; Value := value; Archived := None;
     LastUpdatedTime := Some timestamp; Expiry := expiry |}.

(** First loop of [Put]: in every partition whose map holds [key], the
    entry is overwritten ([break] leaves only the inner loop); the flag
    records whether the key was found anywhere. *)
Fixpoint put_overwrite (key : string) (e : Entry) (nss : list NodeState)
    : list NodeState * bool :=
  match nss with
  | [] => ([], false)
  | ns :: rest =>
      let '(rest', found) := put_overwrite key e rest in
      if map_has_key key (GetEntries ns)
      then (mkNodeState (NodeId ns) (<[key := e]> (Entries ns)) :: rest', true)
      else (ns :: rest', found)
  end.

(** Second loop of [Put]: insert into the first partition owned by [me],
    allocating its map when it is empty; no partition of [me]: nothing. *)
Fixpoint put_insert_local (me key : string) (e : Entry) (nss : list NodeState)
    : list NodeState :=
  match nss with
  | [] => []
  | ns :: rest =>
      if bool_decide (GetNodeId ns = me) then
        (if bool_decide (size (GetEntries ns) = 0%nat)
         then mkNodeState (NodeId ns) {[key := e]}
         else mkNodeState (NodeId ns) (<[key := e]> (GetEntries ns))) :: rest
      else ns :: put_insert_local me key e rest
  end.

(** [func (d *Delegate) Put(key string, value []byte, expiration time.Duration)] *)
Definition Put (now : GoTime) (key : string) (value : list byte) (expiration : Z)
    (d : Delegate) : Delegate :=
  let timestamp := timestamppb_New now in
  let expiry := setExpiry expiration in
  let e := put_entry key value timestamp expiry in
  let '(nss, keyExists) := put_overwrite key e (GetNodeStates (fsm d)) in
  if keyExists then set_fsm d nss
  else set_fsm d (put_insert_local (me d) key e nss).

(** ** Get, Exists, List *)

(** The scan shared by [Get] and [Exists]: the first partition, in list
    order, whose map holds [key]. *)
Fixpoint get_scan (key : string) (nss : list NodeState) : option Entry :=
  match nss with
  | [] => None
  | ns :: rest =>
      match map_find_key key (GetEntries ns) with
      | Some entry => Some entry
      | None => get_scan key rest
      end
  end.

(** [func (d *Delegate) Get(key string) ( *internalpb.Entry, error)] *)
Definition Get (now : GoTime) (key : string) (d : Delegate) : GoError + Entry :=
  match get_scan key (GetNodeStates (fsm d)) with
  | Some entry => if expired now entry then inl ErrKeyNotFound else inr entry
  | None => inl ErrKeyNotFound
  end.

(** [func (d *Delegate) Exists(key string) bool] *)
Definition Exists (now : GoTime) (key : string) (d : Delegate) : bool :=
  match get_scan key (GetNodeStates (fsm d)) with
  | Some entry => if expired now entry then false else negb (GetArchived entry)
  | None => false
  end.

(** [List] reads the clock once per entry it examines ([expired] calls
    [time.Now()]): [clk i] is the [i]-th reading. *)
Fixpoint list_unexpired (clk : nat -> GoTime) (i : nat) (l : list Entry) : list Entry :=
  match l with
  | [] => []
  | entry :: rest =>
      if expired (clk i) entry then list_unexpired clk (S i) rest
      else entry :: list_unexpired clk (S i) rest
  end.

(** [func (d *Delegate) List() []*internalpb.Entry]: every partition in
    order, every entry of its map in the order [ranges] gives, one list of
    pairs per partition. *)
Definition List_ranged (clk : nat -> GoTime) (ranges : list (list (string * Entry))) : list Entry :=
  list_unexpired clk 0 (concat ((fun l => l.*2) <$> ranges)).

(** The orders in which a call of [List] may range the maps of [d]: one
    permutation of each partition's pairs, Go's iteration order being
    unspecified. *)
Definition list_ranges (d : Delegate) (ranges : list (list (string * Entry))) : Prop :=
  Forall2 (fun ns l => l ≡ₚ map_to_list (GetEntries ns)) (GetNodeStates (fsm d)) ranges.

(** Every result a call of [List] may return. *)
Definition List_rel (clk : nat -> GoTime) (d : Delegate) (out : list Entry) : Prop :=
  exists ranges, list_ranges d ranges /\ out = List_ranged clk ranges.

(** The call of [List] in which Go ranges each map as [map_to_list] lists
    it, one of the results of [List_rel]. *)
Definition List (clk : nat -> GoTime) (d : Delegate) : list Entry :=
  List_ranged clk ((fun ns => map_to_list (GetEntries ns)) <$> GetNodeStates (fsm d)).

(** ** Delete *)

(** The in-place update of the entry: archived, timestamp refreshed. *)
Definition archive (now : GoTime) (e : Entry) : Entry :=
  {| Key := Key e; Value := Value e; Archived := Some true;
     LastUpdatedTime := Some (timestamppb_New now); Expiry := Expiry e |}.

(** The loop of [Delete]: the first partition that holds [key] and is
    owned by [me]; then return. *)
Fixpoint delete_scan (me key : string) (now : GoTime) (nss : list NodeState)
    : list NodeState :=
  match nss with
  | [] => []
  | ns :: rest =>
      if map_has_key key (GetEntries ns) && bool_decide (GetNodeId ns = me)
      then mkNodeState (NodeId ns) (alter (archive now) key (Entries ns)) :: rest
      else ns :: delete_scan me key now rest
  end.

(** [func (d *Delegate) Delete(key string)] *)
Definition Delete (now : GoTime) (key : string) (d : Delegate) : Delegate :=
  set_fsm d (delete_scan (me d) key now (GetNodeStates (fsm d))).

(** ** Specification vocabulary *)

(** The node ids of the partitions, in list order. *)
Definition node_ids (f : FSM) : list string := NodeId <$> NodeStates f.

(** The partition-shape invariant: node ids are unique (spec P1) and the
    node's own partition is present. *)
Definition delegate_wf (d : Delegate) : Prop :=
  NoDup (node_ids (fsm d)) /\ me d ∈ node_ids (fsm d).

(** Does partition [ns] hold [key]? *)
Definition holds (key : string) (ns : NodeState) : bool :=
  bool_decide (is_Some (Entries ns !! key)).

(** Overwrite [key] by [e] in [ns]. *)
Definition set_key (key : string) (e : Entry) (ns : NodeState) : NodeState :=
  mkNodeState (NodeId ns) (<[key := e]> (Entries ns)).

(** ** The map loops *)

Lemma map_find_key_lookup key m : map_find_key key m = m !! key.
Proof. by apply range_find_lookup. Qed.

Lemma map_has_key_holds key ns : map_has_key key (GetEntries ns) = holds key ns.
Proof.
  unfold map_has_key, holds, GetEntries. rewrite map_find_key_lookup.
  destruct (Entries ns !! key); [rewrite bool_decide_true | rewrite bool_decide_false];
    eauto; by intros [].
Qed.

#[export] Hint Rewrite map_find_key_lookup map_has_key_holds : gokv_rw.

(** [get_scan] returns the binding of the first partition holding the key. *)
Lemma get_scan_cons key ns nss :
  get_scan key (ns :: nss) =
  match Entries ns !! key with Some e => Some e | None => get_scan key nss end.
Proof. simpl. by rewrite map_find_key_lookup. Qed.

(** ** Put *)

Lemma put_overwrite_eq key e nss :
  put_overwrite key e nss =
  ((fun ns => if holds key ns then set_key key e ns else ns) <$> nss,
   existsb (holds key) nss).
Proof.
  induction nss as [|ns nss IH]; simpl; [done|].
  rewrite IH, map_has_key_holds. by destruct (holds key ns).
Qed.

Lemma map_fmap_id_in {A} (f : A -> A) (l : list A) :
  (forall x, x ∈ l -> f x = x) -> f <$> l = l.
Proof.
  induction l as [|x l IH]; intros Hf; simpl; [done|].
  f_equal; [apply Hf; set_solver | apply IH; intros; apply Hf; set_solver].
Qed.

Lemma put_insert_local_eq me key e nss :
  NoDup (NodeId <$> nss) ->
  put_insert_local me key e nss =
  (fun ns => if bool_decide (NodeId ns = me) then set_key key e ns else ns) <$> nss.
Proof.
  induction nss as [|ns nss IH]; intros Hnd; simpl; [done|].
  apply NoDup_cons in Hnd as [Hnin Hnd]. unfold GetNodeId, GetEntries.
  case_bool_decide as Hme; [|by rewrite IH].
  f_equal.
  - case_bool_decide as Hsz; [|done].
    apply map_size_empty_iff in Hsz. unfold set_key. by rewrite Hsz, insert_empty.
  - symmetry. apply map_fmap_id_in. intros ns' Hin.
    rewrite bool_decide_false; [done|]. intros Heq. apply Hnin.
    subst. apply list_elem_of_fmap. eauto.
Qed.

(** Whether [Put] writes the key into partition [ns]: where the key is
    found, or, when it is found nowhere, into the node's own partition. *)
Definition put_target (me key : string) (found : bool) (ns : NodeState) : bool :=
  holds key ns || (negb found && bool_decide (NodeId ns = me)).

Lemma Put_fmap now key value expiration d :
  NoDup (node_ids (fsm d)) ->
  let e := put_entry key value (timestamppb_New now) (setExpiry expiration) in
  let found := existsb (holds key) (NodeStates (fsm d)) in
  Put now key value expiration d =
  set_fsm d ((fun ns => if put_target (me d) key found ns then set_key key e ns else ns)
               <$> NodeStates (fsm d)).
Proof.
  intros Hnd e found. unfold Put, GetNodeStates. fold e.
  rewrite put_overwrite_eq. fold found.
  unfold put_target. destruct found eqn:Hf; simpl.
  - f_equal. apply list_fmap_ext; intros i ns _. by rewrite orb_false_r.
  - rewrite map_fmap_id_in; last first.
    { intros ns Hin. destruct (holds key ns) eqn:Hh; [|done].
      exfalso. apply not_true_iff_false in Hf. apply Hf, existsb_exists.
      exists ns. split; [by apply list_elem_of_In | done]. }
    rewrite put_insert_local_eq by done. f_equal.
    apply list_fmap_ext; intros i ns Hi.
    destruct (holds key ns) eqn:Hh; [|done].
    exfalso. apply not_true_iff_false in Hf. apply Hf, existsb_exists.
    exists ns. split; [eapply list_elem_of_In, list_elem_of_lookup_2; eauto | done].
Qed.

(** C6. [Put] overwrites the key in every partition that holds it (not only
    in the partition that owns it); when no partition holds it, it inserts
    it into the node's own partition; every other partition, and the list
    order, are unchanged. *)
Theorem Put_spec now key value expiration d i ns :
  NoDup (node_ids (fsm d)) ->
  NodeStates (fsm d) !! i = Some ns ->
  let e := put_entry key value (timestamppb_New now) (setExpiry expiration) in
  let found := existsb (holds key) (NodeStates (fsm d)) in
  NodeStates (fsm (Put now key value expiration d)) !! i =
  Some (if put_target (me d) key found ns then set_key key e ns else ns) /\
  length (NodeStates (fsm (Put now key value expiration d))) = length (NodeStates (fsm d)).
Proof.
  intros Hnd Hi e found. rewrite Put_fmap by done. simpl.
  rewrite list_lookup_fmap, Hi, length_fmap. done.
Qed.

Lemma holds_false key ns : holds key ns = false -> Entries ns !! key = None.
Proof.
  unfold holds. case_bool_decide as Hk; [done|].
  intros _. destruct (Entries ns !! key); [by destruct Hk | done].
Qed.

Lemma get_scan_put key e me found nss :
  (found = true -> existsb (holds key) nss = true) ->
  (found = false -> existsb (holds key) nss = false /\ me ∈ NodeId <$> nss) ->
  get_scan key ((fun ns => if put_target me key found ns then set_key key e ns else ns)
                  <$> nss) = Some e.
Proof.
  induction nss as [|ns nss IH]; intros Ht Hf; rewrite ?fmap_cons.
  - destruct found; [by discriminate Ht | destruct Hf as [_ Hin]; [done|set_solver]].
  - rewrite get_scan_cons.
    destruct (put_target me key found ns) eqn:Hp.
    { simpl. by rewrite lookup_insert_eq. }
    unfold put_target in Hp. apply orb_false_iff in Hp as [Hh Hp].
    rewrite (holds_false _ _ Hh). simpl in Ht, Hf. rewrite Hh in Ht, Hf. apply IH; [done|].
    intros ->. destruct Hf as [Hex Hin]; [done|]. split; [done|].
    apply bool_decide_eq_false in Hp.
    apply elem_of_cons in Hin as [Hin|Hin]; [congruence | done].
Qed.

(** Read-your-writes: on a well-formed delegate, [Get] right after [Put]
    finds the entry just written, unless [expired] rejects it. *)
Theorem Put_Get now now' key value expiration d :
  delegate_wf d ->
  let e := put_entry key value (timestamppb_New now) (setExpiry expiration) in
  Get now' key (Put now key value expiration d) =
  if expired now' e then inl ErrKeyNotFound else inr e.
Proof.
  intros [Hnd Hme] e. rewrite Put_fmap by done. unfold Get, GetNodeStates; simpl.
  rewrite get_scan_put; [done | done |].
  intros Hf. split; [done | exact Hme].
Qed.

(** An entry put with a positive expiry is expired at every later second. *)
Lemma expired_put_entry now now' key value expiration :
  0 < expiration ->
  GoTime_wf now ->
  0 < GoTime_Unix now < GoTime_Unix now' ->
  expired now' (put_entry key value (timestamppb_New now) (setExpiry expiration)) = true.
Proof.
  intros Hexp Hnow Ht. apply expired_spec.
  unfold put_entry, setExpiry; cbn [Expiry LastUpdatedTime]. apply Z.ltb_lt in Hexp. rewrite Hexp.
  rewrite AsTime_Unix_New by done. split; [eauto | lia].
Qed.

(** C7. The expiry bug: an entry [Put] with any positive expiry (an hour, a
    day) is no longer returned by [Get] as soon as the clock has moved to a
    later second, because [expired] never adds the duration. *)
Theorem Put_expiry_ignored now now' key value expiration d :
  delegate_wf d ->
  0 < expiration ->
  GoTime_wf now ->
  0 < GoTime_Unix now < GoTime_Unix now' ->
  Get now' key (Put now key value expiration d) = inl ErrKeyNotFound.
Proof.
  intros Hwf Hexp Hnow Ht. rewrite Put_Get by done.
  by rewrite expired_put_entry.
Qed.

(** ** Delete *)

Lemma fmap_id_notin (me : string) (g : NodeState -> NodeState) (nss : list NodeState) :
  me ∉ NodeId <$> nss ->
  (fun ns => if bool_decide (NodeId ns = me) then g ns else ns) <$> nss = nss.
Proof.
  intros Hnin. apply map_fmap_id_in. intros ns Hin.
  rewrite bool_decide_false; [done|]. intros <-. apply Hnin, list_elem_of_fmap. eauto.
Qed.

Lemma delete_scan_notin me key now nss :
  me ∉ NodeId <$> nss -> delete_scan me key now nss = nss.
Proof.
  induction nss as [|ns nss IH]; intros Hnin; cbn [delete_scan]; [done|].
  rewrite fmap_cons in Hnin. unfold GetNodeId.
  rewrite bool_decide_false, andb_false_r by (intros <-; set_solver).
  rewrite IH; [done | set_solver].
Qed.

Lemma delete_scan_eq me key now nss :
  NoDup (NodeId <$> nss) ->
  delete_scan me key now nss =
  (fun ns => if bool_decide (NodeId ns = me)
             then mkNodeState (NodeId ns) (alter (archive now) key (Entries ns)) else ns) <$> nss.
Proof.
  induction nss as [|ns nss IH]; intros Hnd; cbn [delete_scan]; [done|].
  rewrite fmap_cons in Hnd. rewrite fmap_cons. apply NoDup_cons in Hnd as [Hnin Hnd].
  rewrite map_has_key_holds. unfold GetNodeId, holds.
  destruct (decide (NodeId ns = me)) as [Hme|Hme];
    [|rewrite !(bool_decide_false (NodeId ns = me)), andb_false_r by done; by rewrite IH].
  rewrite !(bool_decide_true (NodeId ns = me)), andb_true_r by done. rewrite Hme in Hnin.
  rewrite fmap_id_notin by done.
  case_bool_decide as Hk; [done|].
  rewrite delete_scan_notin by done. f_equal.
  destruct ns as [id m]; simpl in *. rewrite alter_id'; [done|].
  destruct (m !! key); [by destruct Hk | done].
Qed.

(** C8. [Delete] archives the key in the node's own partition only, with the
    timestamp refreshed, leaving every other partition untouched (spec P2);
    it is a no-op when the own partition does not hold the key. *)
Theorem Delete_spec now key d :
  NoDup (node_ids (fsm d)) ->
  Delete now key d =
  set_fsm d ((fun ns => if bool_decide (NodeId ns = me d)
                        then mkNodeState (NodeId ns) (alter (archive now) key (Entries ns))
                        else ns) <$> NodeStates (fsm d)).
Proof. intros Hnd. unfold Delete, GetNodeStates. by rewrite delete_scan_eq. Qed.

(** ** The partition-shape invariant under local writes *)

Lemma put_overwrite_ids key e nss :
  NodeId <$> (put_overwrite key e nss).1 = NodeId <$> nss.
Proof.
  induction nss as [|ns nss IH]; [done|]. cbn [put_overwrite].
  destruct (put_overwrite key e nss) as [rest found].
  destruct (map_has_key key (GetEntries ns)); cbn [fst] in *; by rewrite !fmap_cons, IH.
Qed.

Lemma put_insert_local_ids me key e nss :
  NodeId <$> put_insert_local me key e nss = NodeId <$> nss.
Proof.
  induction nss as [|ns nss IH]; [done|]. cbn [put_insert_local].
  destruct (bool_decide (GetNodeId ns = me)); [|by rewrite !fmap_cons, IH].
  by destruct (bool_decide (size (GetEntries ns) = 0%nat)).
Qed.

Lemma delete_scan_ids me key now nss :
  NodeId <$> delete_scan me key now nss = NodeId <$> nss.
Proof.
  induction nss as [|ns nss IH]; [done|]. cbn [delete_scan].
  destruct (_ && _); [done|]. by rewrite !fmap_cons, IH.
Qed.

Lemma Put_node_ids now key value expiration d :
  node_ids (fsm (Put now key value expiration d)) = node_ids (fsm d).
Proof.
  unfold Put, node_ids, GetNodeStates.
  pose proof (put_overwrite_ids key (put_entry key value (timestamppb_New now)
                (setExpiry expiration)) (NodeStates (fsm d))) as H.
  destruct (put_overwrite _ _ _) as [nss found]; simpl in *.
  destruct found; simpl; [done|]. by rewrite put_insert_local_ids.
Qed.

Lemma Delete_node_ids now key d :
  node_ids (fsm (Delete now key d)) = node_ids (fsm d).
Proof. apply delete_scan_ids. Qed.

Lemma Put_me now key value expiration d : me (Put now key value expiration d) = me d.
Proof. unfold Put. by destruct (put_overwrite _ _ _) as [? []]. Qed.

Lemma Put_wf now key value expiration d :
  delegate_wf d -> delegate_wf (Put now key value expiration d).
Proof. unfold delegate_wf. by rewrite Put_node_ids, Put_me. Qed.

Lemma Delete_wf now key d : delegate_wf d -> delegate_wf (Delete now key d).
Proof. unfold delegate_wf. by rewrite Delete_node_ids. Qed.

Lemma newDelegate_wf name meta : delegate_wf (newDelegate name meta).
Proof. unfold delegate_wf, node_ids; simpl. split; [apply NoDup_singleton | set_solver]. Qed.

#[export] Hint Resolve Put_wf Delete_wf newDelegate_wf : gokv.

(** ** Reads *)

Lemma list_unexpired_const clk now i l :
  (forall j, clk j = now) ->
  list_unexpired clk i l = filter (fun e => expired now e = false) l.
Proof.
  intros Hclk. revert i. induction l as [|e l IH]; intros i; [done|].
  cbn [list_unexpired]. rewrite filter_cons, Hclk, IH.
  by destruct (expired now e).
Qed.

Lemma elem_of_partition_entries (nss : list NodeState) (e : Entry) :
  e ∈ concat ((fun ns => (map_to_list (GetEntries ns)).*2) <$> nss) <->
  exists ns key, ns ∈ nss /\ Entries ns !! key = Some e.
Proof.
  rewrite list_elem_of_In, in_concat. split.
  - intros (l & Hl & He). apply list_elem_of_In in Hl, He.
    apply list_elem_of_fmap in Hl as (ns & -> & Hns).
    apply list_elem_of_fmap in He as ([key e'] & -> & Hkv).
    apply elem_of_map_to_list in Hkv. eauto.
  - intros (ns & key & Hns & Hk). exists ((map_to_list (GetEntries ns)).*2).
    split; apply list_elem_of_In.
    + apply list_elem_of_fmap. eauto.
    + apply list_elem_of_fmap. exists (key, e). split; [done|].
      by apply elem_of_map_to_list.
Qed.

Lemma List_eq clk d :
  List clk d = list_unexpired clk 0 (concat ((fun ns => (map_to_list (GetEntries ns)).*2) <$> GetNodeStates (fsm d))).
Proof. unfold List, List_ranged. by rewrite <-list_fmap_compose. Qed.

Lemma List_rel_List clk d : List_rel clk d (List clk d).
Proof.
  exists ((fun ns => map_to_list (GetEntries ns)) <$> GetNodeStates (fsm d)). split; [|done].
  apply Forall2_fmap_r, Forall_Forall2_diag, Forall_forall. intros ns _. cbn. reflexivity.
Qed.

(** Whatever the orders, the entries ranged are those of the partitions. *)
Lemma elem_of_ranges nss ranges e :
  Forall2 (fun ns l => l ≡ₚ map_to_list (GetEntries ns)) nss ranges ->
  e ∈ concat ((fun l => l.*2) <$> ranges) <-> e ∈ concat ((fun ns => (map_to_list (GetEntries ns)).*2) <$> nss).
Proof.
  induction 1 as [|ns l nss ranges Hl _ IH]; [done|].
  rewrite !fmap_cons. cbn [concat]. by rewrite !elem_of_app, IH, Hl.
Qed.

(** C29. With the clock standing still during the call, every result
    [List] may return, whatever order Go ranges the maps in, holds exactly
    the unexpired entries of all partitions, tombstones included. *)
Theorem List_spec clk now d out e :
  (forall i, clk i = now) -> List_rel clk d out ->
  e ∈ out <->
  (exists ns key, ns ∈ NodeStates (fsm d) /\ Entries ns !! key = Some e) /\
  expired now e = false.
Proof.
  intros Hclk (ranges & Hr & ->). unfold List_ranged. rewrite (list_unexpired_const clk now) by done.
  rewrite list_elem_of_filter, (elem_of_ranges _ _ _ Hr), elem_of_partition_entries. tauto.
Qed.

(** [Exists] holds exactly when [Get] succeeds on an entry that is not a
    tombstone. *)
Lemma Exists_Get now key d :
  Exists now key d = true <->
  exists e, Get now key d = inr e /\ GetArchived e = false.
Proof.
  unfold Exists, Get. destruct (get_scan _ _) as [e|]; [|split; [done | by intros (? & ? & ?)]].
  destruct (expired now e); [split; [done | by intros (? & ? & ?)]|].
  rewrite negb_true_iff. split; [eauto | by intros (? & [= ->] & ?)].
Qed.

(** ** Witnesses *)

Definition meta1 : NodeMeta := mkNodeMeta "n1" "10.0.0.1" 3320 3322 None.
Definition meta2 : NodeMeta := mkNodeMeta "n2" "10.0.0.2" 3320 3322 None.
Definition t7 : GoTime := mkGoTime 7 0.

(** Two partitions hold ["k"]: [n2]'s and [n1]'s own. *)
Definition two_owners : Delegate :=
  set_fsm (newDelegate "n1" meta1)
    [mkNodeState "n2" {["k" := put_entry "k" [x62] (timestamppb_New (mkGoTime 5 0)) None]};
     mkNodeState "n1" {["k" := put_entry "k" [x61] (timestamppb_New (mkGoTime 5 0)) None]}].

Lemma two_owners_wf : delegate_wf two_owners.
Proof. split; vm_compute; [repeat constructor; set_solver | set_solver]. Qed.

Lemma Put_spec_witness :
  NoDup (node_ids (fsm two_owners)) /\
  NodeStates (fsm (Put t7 "k" [x63] 0 two_owners)) !! 0%nat =
  Some (set_key "k" (put_entry "k" [x63] (timestamppb_New t7) None)
          (mkNodeState "n2" {["k" := put_entry "k" [x62] (timestamppb_New (mkGoTime 5 0)) None]})).
Proof.
  split; [apply two_owners_wf|].
  destruct (Put_spec t7 "k" [x63] 0 two_owners 0%nat
              (mkNodeState "n2" {["k" := put_entry "k" [x62] (timestamppb_New (mkGoTime 5 0)) None]})
              ltac:(apply two_owners_wf) eq_refl) as [H _].
  rewrite H. reflexivity.
Defined.

Lemma Put_Get_witness :
  delegate_wf two_owners /\
  Get (mkGoTime 9 0) "k" (Put t7 "k" [x63] 0 two_owners) =
  inr (put_entry "k" [x63] (timestamppb_New t7) None).
Proof.
  split; [apply two_owners_wf|].
  rewrite (Put_Get t7 (mkGoTime 9 0) "k" [x63] 0 two_owners two_owners_wf). reflexivity.
Defined.

Lemma Put_expiry_ignored_witness :
  delegate_wf (newDelegate "n1" meta1) /\
  Get (mkGoTime 8 0) "k" (Put t7 "k" [x61] 3600000000000 (newDelegate "n1" meta1)) =
  inl ErrKeyNotFound.
Proof.
  split; [apply newDelegate_wf|].
  apply Put_expiry_ignored; [apply newDelegate_wf | lia | unfold GoTime_wf, int64_range; simpl; lia | simpl; lia].
Defined.

Lemma Delete_spec_witness :
  NoDup (node_ids (fsm two_owners)) /\
  Delete t7 "k" two_owners =
  set_fsm two_owners
    ((fun ns => if bool_decide (NodeId ns = "n1")
                then mkNodeState (NodeId ns) (alter (archive t7) "k" (Entries ns))
                else ns) <$> NodeStates (fsm two_owners)).
Proof.
  split; [apply two_owners_wf|]. apply (Delete_spec t7 "k" two_owners), two_owners_wf.
Defined.

Lemma List_spec_witness :
  put_entry "k" [x62] (timestamppb_New (mkGoTime 5 0)) None ∈ List (fun _ => t7) two_owners.
Proof.
  apply (List_spec (fun _ => t7) t7 two_owners); [done|apply List_rel_List|]. split; [|reflexivity].
  exists (mkNodeState "n2" {["k" := put_entry "k" [x62] (timestamppb_New (mkGoTime 5 0)) None]}), "k".
  split; [vm_compute; set_solver | reflexivity].
Defined.
