(* ===== verification/Merge.v ===== *)
(** * Merge: the anti-entropy merge of MergeRemoteState

    The algorithm of [Delegate.MergeRemoteState] in [src/unnamed/part_001]
    (lines 107-174), on an already decoded remote FSM.  The local
    partitions are indexed by node id into a Go map; each remote partition
    is either adopted verbatim (unknown node id) or merged entry by entry
    into the local one, a local entry surviving only when its last update
    second is strictly greater; the partition list is then rebuilt from the
    Go map, in that map's (unspecified) iteration order.

    The abstract specification is [merge_view]: pointwise last-writer-wins
    on the two-level map node id -> key -> entry ([lww], [lww_map]).  The
    refinement theorem [merge_states_refines] shows that the code's loops
    compute exactly that map when the remote node ids are unique; the
    other theorems follow from it: unique node ids after a merge,
    preservation of every local partition, per-key last-writer-wins,
    monotone timestamps, remote-wins on ties, and independence from the
    iteration order of the remote entries.  [view] is that two-level map
    written directly from the partition list (the last partition of a
    node id wins, as in the indexing loop), and [view_index_states]
    shows that the loop [index_states] computes it. *)

From S2P Require Import Prelude Types Expiry Store.

(** ** The code *)

(** Line 151: the local entry is kept when its last update second is
    strictly greater than the remote one's. *)
Definition local_newer (localEntry remoteEntry : Entry) : bool :=
  AsTime_Unix (GetLastUpdatedTime localEntry) >? AsTime_Unix (GetLastUpdatedTime remoteEntry).

(** One iteration of the loop of lines 140-158 over the remote entries. *)
Definition merge_entry (localEntries : gmap string Entry) (kv : string * Entry)
    : gmap string Entry :=
  let '(key, remoteEntry) := kv in
  match localEntries !! key with
  | None => <[key := remoteEntry]> localEntries
  | Some localEntry =>
      if local_newer localEntry remoteEntry then localEntries
      else <[key := remoteEntry]> localEntries
  end.

(** The loop of lines 140-158, over the remote entries in the iteration
    order [remote]. *)
Definition merge_entries (localEntries : gmap string Entry) (remote : list (string * Entry))
    : gmap string Entry :=
  foldl merge_entry localEntries remote.

(** Lines 116-119: index the local partitions by node id (a later
    partition with the same id replaces an earlier one). *)
Definition index_states (nss : list NodeState) : gmap string (gmap string Entry) :=
  foldl (fun entries ns => <[GetNodeId ns := GetEntries ns]> entries) ∅ nss.

(** Lines 125-160, one remote partition. *)
Definition merge_node_state (entries : gmap string (gmap string Entry))
    (remoteNodeState : NodeState) : gmap string (gmap string Entry) :=
  match entries !! GetNodeId remoteNodeState with
  | None => <[GetNodeId remoteNodeState := GetEntries remoteNodeState]> entries
  | Some localEntries =>
      let localEntries := if bool_decide (size localEntries = 0%nat) then ∅ else localEntries in
      <[GetNodeId remoteNodeState :=
          merge_entries localEntries (map_to_list (GetEntries remoteNodeState))]> entries
  end.

(** Lines 116-161: the Go map [entries] after both loops. *)
Definition merge_states (localFSM remoteFSM : FSM) : gmap string (gmap string Entry) :=
  foldl merge_node_state (index_states (GetNodeStates localFSM)) (GetNodeStates remoteFSM).

(** Lines 164-170: the partition list built by ranging over [entries];
    [range] is the iteration order. *)
Definition rebuild (range : list (string * gmap string Entry)) : list NodeState :=
  (fun kv => mkNodeState kv.1 kv.2) <$> range.

(** The new FSM (line 173), with the iteration order of [map_to_list]. *)
Definition MergeFSM (localFSM remoteFSM : FSM) : FSM :=
  mkFSM (rebuild (map_to_list (merge_states localFSM remoteFSM))).

(** The merge with Go's unspecified iteration order of line 165: every
    permutation of the map's pairs is a possible outcome. *)
Definition MergeFSM_rel (localFSM remoteFSM result : FSM) : Prop :=
  exists range, range ≡ₚ map_to_list (merge_states localFSM remoteFSM) /\
                result = mkFSM (rebuild range).

(** The delegate's state after merging a decoded remote FSM. *)
Definition merge_delegate (d : Delegate) (remoteFSM : FSM) : Delegate :=
  set_fsm d (NodeStates (MergeFSM (fsm d) remoteFSM)).

(** ** The abstract specification *)

(** Last-writer-wins on one key: the remote entry wins unless the local
    one is strictly newer; a missing side loses. *)
Definition lww (l r : option Entry) : option Entry :=
  match l, r with
  | _, None => l
  | None, Some er => Some er
  | Some el, Some er => if local_newer el er then Some el else Some er
  end.

Definition lww_map (L R : gmap string Entry) : gmap string Entry := merge lww L R.

Definition lww_part (l r : option (gmap string Entry)) : option (gmap string Entry) :=
  match l, r with
  | _, None => l
  | None, Some R => Some R
  | Some L, Some R => Some (lww_map L R)
  end.

(** The abstract merge of two replicas, each seen as node id -> key -> entry. *)
Definition merge_view (A B : gmap string (gmap string Entry)) : gmap string (gmap string Entry) :=
  merge lww_part A B.

(** The abstraction of an FSM: its partitions indexed by node id, the
    last partition of an id in list order winning. *)
Definition view (f : FSM) : gmap string (gmap string Entry) :=
  list_to_map (reverse ((fun ns => (NodeId ns, Entries ns)) <$> NodeStates f)).

(** ** The entry loop computes [lww_map] *)

Lemma merge_entry_lookup L k er key :
  merge_entry L (k, er) !! key = if bool_decide (key = k) then lww (L !! k) (Some er) else L !! key.
Proof.
  unfold merge_entry. case_bool_decide as Hk.
  - subst. destruct (L !! k) as [el|] eqn:E; simpl.
    + destruct (local_newer el er); [done | by rewrite lookup_insert_eq].
    + by rewrite lookup_insert_eq.
  - destruct (L !! k) as [el|]; [destruct (local_newer el er)|]; simplify_map_eq; done.
Qed.

Lemma merge_entries_lookup L l key :
  NoDup l.*1 ->
  merge_entries L l !! key = lww (L !! key) ((list_to_map l : gmap string Entry) !! key).
Proof.
  revert L. induction l as [|[k er] l IH]; intros L Hnd; unfold merge_entries in *; cbn [foldl].
  - simpl. by destruct (L !! key).
  - apply NoDup_cons in Hnd as [Hnin Hnd].
    rewrite IH by done. rewrite merge_entry_lookup. cbn [list_to_map foldr fst snd].
    case_bool_decide as Hk.
    + subst. rewrite lookup_insert_eq, not_elem_of_list_to_map_1 by done.
      by destruct (lww (L !! k) (Some er)).
    + by rewrite lookup_insert_ne by done.
Qed.

(** The loop over the remote entries computes the pointwise
    last-writer-wins map, whatever order the Go map is ranged in. *)
Lemma merge_entries_lww_map L R l :
  l ≡ₚ map_to_list R -> merge_entries L l = lww_map L R.
Proof.
  intros Hl. apply map_eq. intros key.
  rewrite merge_entries_lookup by (by eapply range_NoDup).
  rewrite (range_to_map R l Hl). unfold lww_map. rewrite lookup_merge.
  by destruct (L !! key), (R !! key).
Qed.

(** ** Indexing partitions by node id *)

Definition pairs (nss : list NodeState) : list (string * gmap string Entry) :=
  (fun ns => (NodeId ns, Entries ns)) <$> nss.

Lemma pairs_fst nss : (pairs nss).*1 = NodeId <$> nss.
Proof. unfold pairs. rewrite <-list_fmap_compose. done. Qed.

Lemma index_fold_union (m0 : gmap string (gmap string Entry)) nss :
  NoDup (NodeId <$> nss) ->
  foldl (fun entries ns => <[GetNodeId ns := GetEntries ns]> entries) m0 nss =
  list_to_map (pairs nss) ∪ m0.
Proof.
  revert m0. induction nss as [|ns nss IH]; intros m0 Hnd; simpl.
  - by rewrite map_empty_union.
  - rewrite fmap_cons in Hnd. apply NoDup_cons in Hnd as [Hnin Hnd].
    rewrite IH by done. unfold GetNodeId, GetEntries.
    rewrite <-insert_union_r, insert_union_l; [done|].
    apply not_elem_of_list_to_map_1. by rewrite pairs_fst.
Qed.

(** The indexing loop of lines 115-119 builds the view. *)
Lemma index_states_view nss : index_states nss = view (mkFSM nss).
Proof.
  unfold index_states, view, list_to_map. cbn [NodeStates].
  generalize (∅ : gmap string (gmap string Entry)) as m0.
  induction nss as [|ns nss IH]; intros m0; [done|]. cbn [foldl]. rewrite IH.
  by rewrite fmap_cons, reverse_cons, foldr_app.
Qed.

Lemma view_index_states f : view f = index_states (NodeStates f).
Proof. by rewrite index_states_view; destruct f. Qed.

Lemma index_states_NoDup nss :
  NoDup (NodeId <$> nss) -> index_states nss = (list_to_map (pairs nss) : gmap string (gmap string Entry)).
Proof. intros Hnd. unfold index_states. by rewrite index_fold_union, map_union_empty. Qed.

(** ** The partition loop computes [merge_view] *)

Lemma merge_node_state_lookup acc r n :
  merge_node_state acc r !! n =
  if bool_decide (n = NodeId r) then lww_part (acc !! n) (Some (Entries r)) else acc !! n.
Proof.
  unfold merge_node_state, GetNodeId, GetEntries.
  case_bool_decide as Hn.
  - subst. destruct (acc !! NodeId r) as [L|] eqn:E; rewrite lookup_insert_eq; [|done].
    simpl. f_equal. rewrite (merge_entries_lww_map _ (Entries r)) by done.
    case_bool_decide as Hsz; [|done].
    apply map_size_empty_iff in Hsz. by subst.
  - destruct (acc !! NodeId r); by rewrite lookup_insert_ne by done.
Qed.

Lemma foldl_merge_node_state acc rs :
  NoDup (NodeId <$> rs) ->
  foldl merge_node_state acc rs = merge_view acc (list_to_map (pairs rs) : gmap string (gmap string Entry)).
Proof.
  revert acc. induction rs as [|r rs IH]; intros acc Hnd; simpl.
  - apply map_eq. intros n. unfold merge_view. rewrite lookup_merge, lookup_empty.
    by destruct (acc !! n).
  - rewrite fmap_cons in Hnd. apply NoDup_cons in Hnd as [Hnin Hnd].
    rewrite IH by done. apply map_eq. intros n. unfold merge_view.
    rewrite !lookup_merge, merge_node_state_lookup.
    case_bool_decide as Hn.
    + subst. rewrite lookup_insert_eq, not_elem_of_list_to_map_1 by (by rewrite pairs_fst).
      by destruct (acc !! NodeId r).
    + rewrite lookup_insert_ne by done. done.
Qed.

(** Refinement: when the remote node ids are unique (as they are in the
    FSM of every gokv node), the Go map built by [MergeRemoteState] is
    the abstract merge of the two replicas' views. *)
Theorem merge_states_refines (localFSM remoteFSM : FSM) :
  NoDup (node_ids remoteFSM) ->
  merge_states localFSM remoteFSM = merge_view (view localFSM) (view remoteFSM).
Proof.
  unfold node_ids. intros Hnd. rewrite !view_index_states. unfold merge_states, GetNodeStates.
  rewrite foldl_merge_node_state by done. by rewrite (index_states_NoDup (NodeStates remoteFSM)).
Qed.

(** ** Rebuilding the partition list *)

Lemma rebuild_ids range : NodeId <$> rebuild range = range.*1.
Proof. unfold rebuild. rewrite <-list_fmap_compose. done. Qed.

Lemma pairs_rebuild range : pairs (rebuild range) = range.
Proof.
  unfold pairs, rebuild. rewrite <-list_fmap_compose.
  rewrite <-(list_fmap_id range) at 2. apply list_fmap_ext. by intros ? [].
Qed.

(** Whatever the iteration order of line 165, the rebuilt list has unique
    node ids and indexes back to the Go map. *)
Lemma rebuild_view (m : gmap string (gmap string Entry)) range :
  range ≡ₚ map_to_list m ->
  NoDup (node_ids (mkFSM (rebuild range))) /\ view (mkFSM (rebuild range)) = m.
Proof.
  intros Hr. rewrite view_index_states. unfold node_ids; simpl. rewrite rebuild_ids.
  split; [by eapply range_NoDup|].
  rewrite index_states_NoDup by (rewrite rebuild_ids; by eapply range_NoDup).
  rewrite pairs_rebuild. by apply range_to_map.
Qed.

(** The key-level view: the entry of key [k] in partition [n]. *)
Definition entry_at (v : gmap string (gmap string Entry)) (n k : string) : option Entry :=
  v !! n ≫= (fun L => L !! k).

Lemma merge_view_entry_at A B n k :
  entry_at (merge_view A B) n k = lww (entry_at A n k) (entry_at B n k).
Proof.
  unfold entry_at, merge_view. rewrite lookup_merge.
  destruct (A !! n) as [L|], (B !! n) as [R|]; simpl;
    [|by destruct (L !! k)|by destruct (R !! k)|done].
  unfold lww_map. rewrite lookup_merge. by destruct (L !! k), (R !! k).
Qed.

Lemma merge_view_dom A B n :
  is_Some (merge_view A B !! n) <-> is_Some (A !! n) \/ is_Some (B !! n).
Proof.
  unfold merge_view. rewrite lookup_merge.
  destruct (A !! n), (B !! n); simpl; split; try naive_solver.
Qed.

(** ** The merge theorem *)

Lemma MergeFSM_view (localFSM remoteFSM result : FSM) :
  NoDup (node_ids remoteFSM) ->
  MergeFSM_rel localFSM remoteFSM result ->
  NoDup (node_ids result) /\ view result = merge_view (view localFSM) (view remoteFSM).
Proof.
  intros Hnd (range & Hr & ->). destruct (rebuild_view _ _ Hr) as [Hnd' Hv].
  by rewrite Hv, merge_states_refines.
Qed.

(** C1. [MergeRemoteState] on a decoded remote FSM with unique node ids, for
    every iteration order of the final Go map range: the result has unique
    node ids (spec P1), its view is the abstract merge of the two views,
    and so every key of every partition holds the last writer's entry. *)
Theorem MergeFSM_refines (localFSM remoteFSM result : FSM) :
  NoDup (node_ids remoteFSM) ->
  MergeFSM_rel localFSM remoteFSM result ->
  NoDup (node_ids result) /\
  view result = merge_view (view localFSM) (view remoteFSM) /\
  (forall n k, entry_at (view result) n k =
               lww (entry_at (view localFSM) n k) (entry_at (view remoteFSM) n k)).
Proof.
  intros Hnd Hm. destruct (MergeFSM_view _ _ _ Hnd Hm) as [Hnd' Hv].
  split; [done | split; [done|]]. intros n k. rewrite Hv. apply merge_view_entry_at.
Qed.

Lemma MergeFSM_rel_MergeFSM localFSM remoteFSM :
  MergeFSM_rel localFSM remoteFSM (MergeFSM localFSM remoteFSM).
Proof. by exists (map_to_list (merge_states localFSM remoteFSM)). Qed.

#[export] Hint Resolve MergeFSM_rel_MergeFSM : gokv.

(** ** Consequences *)

Lemma index_fold_dom (m0 : gmap string (gmap string Entry)) nss n :
  is_Some (foldl (fun entries ns => <[GetNodeId ns := GetEntries ns]> entries) m0 nss !! n) <->
  n ∈ NodeId <$> nss \/ is_Some (m0 !! n).
Proof.
  revert m0. induction nss as [|ns nss IH]; intros m0; cbn [foldl].
  - set_solver.
  - rewrite IH, fmap_cons, elem_of_cons. unfold GetNodeId, GetEntries.
    rewrite lookup_insert_is_Some'. naive_solver.
Qed.

Lemma view_dom f n : is_Some (view f !! n) <-> n ∈ node_ids f.
Proof.
  rewrite view_index_states. unfold index_states, node_ids. rewrite index_fold_dom, lookup_empty.
  split; [intros [? | [? ?]]; done | auto].
Qed.

Lemma merge_states_keeps localFSM remoteFSM n :
  n ∈ node_ids localFSM -> is_Some (merge_states localFSM remoteFSM !! n).
Proof.
  intros Hn. apply view_dom in Hn. unfold merge_states, GetNodeStates.
  rewrite <- view_index_states. generalize (view localFSM) Hn. clear Hn.
  induction (NodeStates remoteFSM) as [|r rs IH]; intros acc Hacc; simpl; [done|].
  apply IH. rewrite merge_node_state_lookup.
  case_bool_decide; [|done]. destruct (acc !! n); [done | by destruct Hacc].
Qed.

Lemma range_ids (m : gmap string (gmap string Entry)) range n :
  range ≡ₚ map_to_list m -> n ∈ range.*1 <-> is_Some (m !! n).
Proof.
  intros Hr. rewrite list_elem_of_fmap. split.
  - intros ([k v] & -> & Hin). eapply range_elem_of in Hin; [|done]. eauto.
  - intros [v Hv]. exists (n, v). split; [done|]. by eapply range_elem_of.
Qed.

Lemma MergeFSM_keeps (localFSM remoteFSM result : FSM) n :
  MergeFSM_rel localFSM remoteFSM result ->
  n ∈ node_ids localFSM -> n ∈ node_ids result.
Proof.
  intros (range & Hr & ->) Hn. unfold node_ids; simpl. rewrite rebuild_ids.
  eapply range_ids; [done|]. by apply merge_states_keeps.
Qed.

Lemma merge_states_dom localFSM remoteFSM n :
  is_Some (merge_states localFSM remoteFSM !! n) <->
  n ∈ node_ids localFSM \/ n ∈ node_ids remoteFSM.
Proof.
  rewrite <-view_dom. unfold merge_states, node_ids, GetNodeStates.
  rewrite <- view_index_states. generalize (view localFSM).
  induction (NodeStates remoteFSM) as [|r rs IH]; intros acc; cbn [foldl].
  - set_solver.
  - rewrite IH, merge_node_state_lookup, fmap_cons, elem_of_cons.
    case_bool_decide as Hn; [subst|naive_solver].
    destruct (acc !! NodeId r); simpl; naive_solver.
Qed.

(** C25. [MergeRemoteState] never drops a partition and invents none: after a
    merge with any decoded remote FSM (even one with duplicate node ids),
    the node ids are exactly those of the local and the remote replica. *)
Theorem MergeFSM_keeps_partitions (localFSM remoteFSM result : FSM) n :
  MergeFSM_rel localFSM remoteFSM result ->
  n ∈ node_ids result <-> n ∈ node_ids localFSM \/ n ∈ node_ids remoteFSM.
Proof.
  intros (range & Hr & ->). unfold node_ids at 1; simpl. rewrite rebuild_ids.
  rewrite (range_ids _ _ _ Hr). apply merge_states_dom.
Qed.

Lemma MergeFSM_NoDup (localFSM remoteFSM result : FSM) :
  MergeFSM_rel localFSM remoteFSM result -> NoDup (node_ids result).
Proof. intros (range & Hr & ->). by destruct (rebuild_view _ _ Hr). Qed.

Lemma merge_delegate_wf d remoteFSM :
  delegate_wf d -> delegate_wf (merge_delegate d remoteFSM).
Proof.
  intros [_ Hme]. unfold delegate_wf, merge_delegate; simpl.
  split; [apply (MergeFSM_NoDup (fsm d) remoteFSM); auto with gokv|].
  apply (MergeFSM_keeps (fsm d) remoteFSM); auto with gokv.
Qed.

#[export] Hint Resolve merge_delegate_wf : gokv.

Lemma lww_monotone el r :
  exists e', lww (Some el) r = Some e' /\
             AsTime_Unix (LastUpdatedTime el) <= AsTime_Unix (LastUpdatedTime e').
Proof.
  destruct r as [er|]; simpl; [|eauto with lia].
  unfold local_newer, GetLastUpdatedTime. destruct (_ >? _) eqn:H; zbool; eauto with lia.
Qed.

Lemma lww_remote_wins el er :
  AsTime_Unix (LastUpdatedTime el) <= AsTime_Unix (LastUpdatedTime er) ->
  lww (Some el) (Some er) = Some er.
Proof.
  intros Hle. simpl. unfold local_newer, GetLastUpdatedTime. rewrite Z.gtb_ltb.
  destruct (Z.ltb_spec (AsTime_Unix (LastUpdatedTime er)) (AsTime_Unix (LastUpdatedTime el)));
    [lia | done].
Qed.

Lemma lww_tie el er :
  AsTime_Unix (LastUpdatedTime el) = AsTime_Unix (LastUpdatedTime er) ->
  lww (Some el) (Some er) = Some er.
Proof. intros Heq. apply lww_remote_wins. lia. Qed.

Lemma lww_idem o : lww o o = o.
Proof. destruct o as [e|]; [|done]. apply lww_tie. done. Qed.

Lemma lww_map_idem L : lww_map L L = L.
Proof.
  apply map_eq. intros k. unfold lww_map. rewrite lookup_merge.
  destruct (L !! k) as [e|]; [exact (lww_idem (Some e)) | done].
Qed.

Lemma merge_view_idem A : merge_view A A = A.
Proof.
  apply map_eq. intros n. unfold merge_view. rewrite lookup_merge.
  destruct (A !! n) as [L|]; [simpl; by rewrite lww_map_idem | done].
Qed.

(** C24. Merge monotonicity (spec P3): an entry that the local replica holds
    for key [k] of partition [n] is, after a merge, replaced only by an
    entry whose last update second is not smaller. *)
Theorem MergeFSM_monotone (localFSM remoteFSM result : FSM) n k el :
  NoDup (node_ids remoteFSM) ->
  MergeFSM_rel localFSM remoteFSM result ->
  entry_at (view localFSM) n k = Some el ->
  exists e', entry_at (view result) n k = Some e' /\
             AsTime_Unix (LastUpdatedTime el) <= AsTime_Unix (LastUpdatedTime e').
Proof.
  intros Hnd Hm Hl. destruct (MergeFSM_view _ _ _ Hnd Hm) as [_ Hv].
  pose proof (merge_view_entry_at (view localFSM) (view remoteFSM) n k) as Hk. rewrite <-Hv in Hk.
  rewrite Hk, Hl. apply lww_monotone.
Qed.

(** C23. Ties go to the remote side (spec P7): when both replicas hold key [k]
    of partition [n] with the same last update second, the merge installs
    the remote entry. *)
Theorem MergeFSM_tie_remote_wins (localFSM remoteFSM result : FSM) n k el er :
  NoDup (node_ids remoteFSM) ->
  MergeFSM_rel localFSM remoteFSM result ->
  entry_at (view localFSM) n k = Some el ->
  entry_at (view remoteFSM) n k = Some er ->
  AsTime_Unix (LastUpdatedTime el) = AsTime_Unix (LastUpdatedTime er) ->
  entry_at (view result) n k = Some er.
Proof.
  intros Hnd Hm Hl Hr Heq. destruct (MergeFSM_view _ _ _ Hnd Hm) as [_ Hv].
  pose proof (merge_view_entry_at (view localFSM) (view remoteFSM) n k) as Hk. rewrite <-Hv in Hk.
  rewrite Hk, Hl, Hr. by apply lww_tie.
Qed.

(** C26. The loop over the remote entries (lines 140-158) gives the same map
    in every iteration order of the remote Go map. *)
Theorem merge_entries_order_independent L R l1 l2 :
  l1 ≡ₚ map_to_list R -> l2 ≡ₚ map_to_list R ->
  merge_entries L l1 = merge_entries L l2.
Proof.
  intros H1 H2. by rewrite (merge_entries_lww_map L R l1 H1), (merge_entries_lww_map L R l2 H2).
Qed.

(** ** Witnesses *)

Definition ts (s : Z) : option Timestamp := Some (timestamppb.mkTimestamp s 0).
Definition sample_entry (v : list byte) (s : Z) : Entry := mkEntry "k" v None (ts s) None.

Definition fsm1 (e : Entry) : FSM := mkFSM [mkNodeState "n1" {["k" := e]}].

Lemma MergeFSM_monotone_witness :
  NoDup (node_ids (fsm1 (sample_entry [x62] 5))) /\
  exists e', entry_at (view (MergeFSM (fsm1 (sample_entry [x61] 7)) (fsm1 (sample_entry [x62] 5))))
               "n1" "k" = Some e' /\
             AsTime_Unix (LastUpdatedTime (sample_entry [x61] 7)) <= AsTime_Unix (LastUpdatedTime e').
Proof.
  split; [apply NoDup_singleton|].
  apply (MergeFSM_monotone (fsm1 (sample_entry [x61] 7)) (fsm1 (sample_entry [x62] 5))
           _ "n1" "k" (sample_entry [x61] 7)).
  - apply NoDup_singleton.
  - apply MergeFSM_rel_MergeFSM.
  - reflexivity.
Defined.

Lemma MergeFSM_tie_remote_wins_witness :
  entry_at (view (MergeFSM (fsm1 (sample_entry [x61] 7)) (fsm1 (sample_entry [x62] 7))))
    "n1" "k" = Some (sample_entry [x62] 7).
Proof.
  apply (MergeFSM_tie_remote_wins (fsm1 (sample_entry [x61] 7)) (fsm1 (sample_entry [x62] 7))
           _ "n1" "k" (sample_entry [x61] 7)); try reflexivity.
  - apply NoDup_singleton.
  - apply MergeFSM_rel_MergeFSM.
Defined.

Lemma merge_entries_order_independent_witness :
  merge_entries {["k" := sample_entry [x61] 7]}
    [("a", sample_entry [x62] 1); ("k", sample_entry [x63] 9)] =
  merge_entries {["k" := sample_entry [x61] 7]}
    [("k", sample_entry [x63] 9); ("a", sample_entry [x62] 1)].
Proof.
  apply (merge_entries_order_independent _
           (list_to_map [("a", sample_entry [x62] 1); ("k", sample_entry [x63] 9)])).
  - symmetry. apply map_to_list_to_map. simpl. repeat constructor; set_solver.
  - etrans; [apply perm_swap|]. symmetry. apply map_to_list_to_map.
    simpl. repeat constructor; set_solver.
Defined.

(** ** Views of partition lists *)

Lemma view_lookup f n L :
  NoDup (node_ids f) ->
  view f !! n = Some L <-> exists ns, ns ∈ NodeStates f /\ NodeId ns = n /\ Entries ns = L.
Proof.
  intros Hnd. rewrite view_index_states. rewrite index_states_NoDup by done.
  rewrite <-elem_of_list_to_map by (by rewrite pairs_fst).
  unfold pairs. rewrite list_elem_of_fmap. split.
  - intros (ns & [= -> ->] & Hin). eauto.
  - intros (ns & Hin & <- & <-). eauto.
Qed.

Lemma get_scan_Some key nss e :
  get_scan key nss = Some e -> exists ns, ns ∈ nss /\ Entries ns !! key = Some e.
Proof.
  induction nss as [|ns nss IH]; [done|]. rewrite get_scan_cons.
  destruct (Entries ns !! key) eqn:E.
  - intros [= <-]. exists ns. split; [set_solver | done].
  - intros H. destruct (IH H) as (ns' & ? & ?). exists ns'. split; [set_solver | done].
Qed.

Lemma get_scan_None key nss ns :
  get_scan key nss = None -> ns ∈ nss -> Entries ns !! key = None.
Proof.
  induction nss as [|ns' nss IH]; [by intros _ ?%not_elem_of_nil|]. rewrite get_scan_cons.
  destruct (Entries ns' !! key) eqn:E; [done|]. intros H [-> | Hin]%elem_of_cons; auto.
Qed.

(** When every partition that holds [key] holds the same entry [e], the
    first-match scan of [Get]/[Exists] returns [e], whatever the order
    of the partitions. *)
Lemma get_scan_view f key e :
  NoDup (node_ids f) ->
  (forall n e', entry_at (view f) n key = Some e' -> e' = e) ->
  (exists n, entry_at (view f) n key = Some e) ->
  get_scan key (NodeStates f) = Some e.
Proof.
  intros Hnd Huniq [n Hn]. unfold entry_at in *.
  destruct (get_scan key (NodeStates f)) as [e'|] eqn:Hs.
  - apply get_scan_Some in Hs as (ns & Hin & Hk). f_equal. apply (Huniq (NodeId ns)).
    rewrite (proj2 (view_lookup f (NodeId ns) (Entries ns) Hnd)); [done|]. eauto.
  - destruct (view f !! n) as [L|] eqn:HL; [|done]. simpl in Hn.
    apply view_lookup in HL as (ns & Hin & _ & <-); [|done].
    by rewrite (get_scan_None key _ ns Hs Hin) in Hn.
Qed.

Lemma MergeFSM_refines_witness :
  NoDup (node_ids (fsm1 (sample_entry [x62] 7))) /\
  view (MergeFSM (fsm1 (sample_entry [x61] 9)) (fsm1 (sample_entry [x62] 7))) =
  merge_view (view (fsm1 (sample_entry [x61] 9))) (view (fsm1 (sample_entry [x62] 7))).
Proof.
  split; [apply NoDup_singleton|].
  apply (MergeFSM_refines (fsm1 (sample_entry [x61] 9)) (fsm1 (sample_entry [x62] 7)));
    [apply NoDup_singleton | apply MergeFSM_rel_MergeFSM].
Defined.

Lemma MergeFSM_keeps_partitions_witness :
  "n1" ∈ node_ids (MergeFSM (fsm1 (sample_entry [x61] 9))
                     (mkFSM [mkNodeState "n2" ∅; mkNodeState "n2" ∅])).
Proof.
  apply (MergeFSM_keeps_partitions (fsm1 (sample_entry [x61] 9))
           (mkFSM [mkNodeState "n2" ∅; mkNodeState "n2" ∅])).
  - apply MergeFSM_rel_MergeFSM.
  - left. vm_compute. set_solver.
Defined.
