(* ===== verification/Cluster.v ===== *)
(** * Cluster: node steps, reachable states and push/pull exchanges

    A node's state changes only through the write-locked methods of the
    [Delegate]: [Put], [Delete] and [MergeRemoteState] (with any decoded
    remote FSM, and any iteration order of the rebuilt Go map).  [node_step]
    is that relation; [reachable] is its reflexive-transitive closure from
    [newDelegate].  The partition-shape invariant holds in every reachable
    state (rule induction), so read-your-writes holds there.

    Between nodes, memberlist's push/pull has each side ship its
    [LocalState] and [MergeRemoteState] the other's.  A sequential exchange
    (one side merges, then the other merges the result) makes the two views
    equal (spec P4); a Delete is carried to the peer as a tombstone (spec P6),
    but hides nothing while a foreign partition holding the key comes first.
    The symmetric exchange that memberlist performs (both sides merge the
    other's pre-exchange state) swaps two entries written in the same second
    on two nodes, and keeps swapping them forever. *)

From S2P Require Import Prelude Types Expiry Store Merge.

(** ** One node *)

(** [MergeRemoteState] of a delegate on a decoded remote FSM, in any
    iteration order of the rebuilt partition list. *)
Definition merge_step (d : Delegate) (remoteFSM : FSM) (d' : Delegate) : Prop :=
  exists result, MergeFSM_rel (fsm d) remoteFSM result /\ d' = set_fsm d (NodeStates result).

Inductive node_step : Delegate -> Delegate -> Prop :=
| step_Put now key value expiration d :
    node_step d (Put now key value expiration d)
| step_Delete now key d :
    node_step d (Delete now key d)
| step_Merge remoteFSM d d' :
    merge_step d remoteFSM d' ->
    node_step d d'.

Definition reachable (name : string) (meta : NodeMeta) (d : Delegate) : Prop :=
  rtc node_step (newDelegate name meta) d.

Lemma node_step_wf d d' : node_step d d' -> delegate_wf d -> delegate_wf d'.
Proof.
  intros [now key value expiration ? | now key ? | remoteFSM ? ? (result & Hm & ->)] Hwf;
    auto with gokv.
  destruct Hwf as [_ Hme]. split; simpl.
  - exact (MergeFSM_NoDup _ _ _ Hm).
  - exact (MergeFSM_keeps _ _ _ _ Hm Hme).
Qed.

Lemma steps_wf d d' : rtc node_step d d' -> delegate_wf d -> delegate_wf d'.
Proof. induction 1; eauto using node_step_wf. Qed.

Lemma steps_me d d' : rtc node_step d d' -> me d' = me d.
Proof.
  induction 1 as [|d1 d2 d3 Hs _ IH]; [done|]. rewrite IH.
  destruct Hs as [| |? ? ? (? & ? & ->)]; [apply Put_me | done | done].
Qed.

Lemma reachable_inv name meta d : reachable name meta d -> delegate_wf d.
Proof. intros Hr. eapply steps_wf; [exact Hr | apply newDelegate_wf]. Qed.

(** C21. In every state reachable from [newDelegate name meta], the node ids
    of the partitions are unique (spec P1), the node is still [name], and
    its own partition is present (so [Put] of a new key is never lost). *)
Theorem reachable_wf name meta d :
  reachable name meta d ->
  NoDup (node_ids (fsm d)) /\ me d = name /\ name ∈ node_ids (fsm d).
Proof.
  intros Hr. destruct (reachable_inv _ _ _ Hr) as [Hnd Hme].
  pose proof (steps_me _ _ Hr) as Hn. simpl in Hn. rewrite Hn in Hme. done.
Qed.

(** C22. Read-your-writes in every reachable state: a [Put] without expiry is
    returned by the next [Get], at any later clock reading. *)
Theorem reachable_read_your_writes name meta d now now' key value expiration :
  reachable name meta d ->
  expiration <= 0 ->
  Get now' key (Put now key value expiration d) =
  inr (put_entry key value (timestamppb_New now) None).
Proof.
  intros Hr Hexp. rewrite Put_Get by (eapply reachable_inv; eauto).
  apply setExpiry_None in Hexp. by rewrite Hexp.
Qed.

Lemma reachable_read_your_writes_witness :
  reachable "n1" meta1 (newDelegate "n1" meta1) /\
  Get (mkGoTime 9 0) "k" (Put (mkGoTime 7 0) "k" [x61] 0 (newDelegate "n1" meta1)) =
  inr (put_entry "k" [x61] (timestamppb_New (mkGoTime 7 0)) None).
Proof.
  split; [apply rtc_refl|].
  apply (reachable_read_your_writes "n1" meta1).
  - apply rtc_refl.
  - lia.
Defined.

(** ** Sequential exchange *)

Lemma lww_absorb a b : lww b (lww a b) = lww a b.
Proof.
  destruct a as [ea|], b as [eb|]; try done; [|exact (lww_idem (Some eb))].
  change (lww (Some ea) (Some eb)) with (if local_newer ea eb then Some ea else Some eb).
  destruct (local_newer ea eb) eqn:H; [|exact (lww_idem (Some eb))].
  simpl. unfold local_newer in *. rewrite Z.gtb_ltb in *. apply Z.ltb_lt in H.
  destruct (Z.ltb_spec (AsTime_Unix (GetLastUpdatedTime ea)) (AsTime_Unix (GetLastUpdatedTime eb)));
    [lia | done].
Qed.

Lemma lww_map_absorb L R : lww_map R (lww_map L R) = lww_map L R.
Proof.
  apply map_eq. intros k. unfold lww_map. rewrite !lookup_merge.
  pose proof (lww_absorb (L !! k) (R !! k)) as H.
  destruct (L !! k), (R !! k); simpl in *; rewrite ?H; done.
Qed.

Lemma merge_view_absorb A B : merge_view B (merge_view A B) = merge_view A B.
Proof.
  apply map_eq. intros n. unfold merge_view. rewrite !lookup_merge.
  destruct (A !! n), (B !! n); simpl; try done.
  - by rewrite lww_map_absorb.
  - by rewrite lww_map_idem.
Qed.

(** A sequential push/pull: [a] merges the state of [b], then [b] merges
    the new state of [a]. *)
Definition sequential_exchange (p p' : FSM * FSM) : Prop :=
  MergeFSM_rel p.1 p.2 p'.1 /\ MergeFSM_rel p.2 p'.1 p'.2.

(** C4. Convergence of a sequential exchange (spec P4): afterwards the two
    replicas have the same view, whatever the iteration orders, as long as
    [b]'s node ids are unique (true of every reachable state). *)
Theorem sequential_exchange_converges (p p' : FSM * FSM) :
  NoDup (node_ids p.2) ->
  sequential_exchange p p' ->
  view p'.1 = view p'.2.
Proof.
  intros Hb [Ha' Hb'].
  destruct (MergeFSM_view _ _ _ Hb Ha') as [Hnd' Hva].
  destruct (MergeFSM_view _ _ _ Hnd' Hb') as [_ Hvb].
  by rewrite Hvb, Hva, merge_view_absorb.
Qed.

Lemma sequential_exchange_converges_witness :
  view (MergeFSM (fsm1 (sample_entry [x61] 7)) (fsm1 (sample_entry [x62] 7))) =
  view (MergeFSM (fsm1 (sample_entry [x62] 7))
          (MergeFSM (fsm1 (sample_entry [x61] 7)) (fsm1 (sample_entry [x62] 7)))).
Proof.
  apply (sequential_exchange_converges (fsm1 (sample_entry [x61] 7), fsm1 (sample_entry [x62] 7))
           (_, _)); [apply NoDup_singleton | split; apply MergeFSM_rel_MergeFSM].
Defined.

(** ** Symmetric exchange *)

(** memberlist's push/pull: each side sends its [LocalState] before it
    merges the other's, so both merge the other's pre-exchange state. *)
Definition sym_exchange (p : FSM * FSM) : FSM * FSM :=
  (MergeFSM p.1 p.2, MergeFSM p.2 p.1).

Lemma sym_exchange_view p :
  NoDup (node_ids p.1) -> NoDup (node_ids p.2) ->
  NoDup (node_ids (sym_exchange p).1) /\ NoDup (node_ids (sym_exchange p).2) /\
  view (sym_exchange p).1 = merge_view (view p.1) (view p.2) /\
  view (sym_exchange p).2 = merge_view (view p.2) (view p.1).
Proof.
  intros H1 H2.
  destruct (MergeFSM_view p.1 p.2 _ H2 (MergeFSM_rel_MergeFSM _ _)) as [? ?].
  destruct (MergeFSM_view p.2 p.1 _ H1 (MergeFSM_rel_MergeFSM _ _)) as [? ?].
  done.
Qed.

(** Two replicas reachable from [newDelegate]: [n1] puts ["k"] at second 7;
    [n2] learns it by a merge and overwrites it in [n1]'s partition in the
    same second 7. *)
Definition node1_state : Delegate := Put (mkGoTime 7 100) "k" [x61] 0 (newDelegate "n1" meta1).
Definition node2_state : Delegate :=
  Put (mkGoTime 7 900) "k" [x62] 0 (merge_delegate (newDelegate "n2" meta2) (fsm node1_state)).

Lemma node_states_reachable :
  reachable "n1" meta1 node1_state /\ reachable "n2" meta2 node2_state.
Proof.
  split; [apply rtc_once, step_Put|].
  eapply rtc_l; [apply (step_Merge (fsm node1_state)); eexists; split; [apply MergeFSM_rel_MergeFSM | done]|].
  apply rtc_once, step_Put.
Qed.

Definition VA := view (fsm node1_state).
Definition VB := view (fsm node2_state).
Definition X1 := merge_view VA VB.
Definition Y1 := merge_view VB VA.

Lemma X1_Y1 : merge_view X1 Y1 = Y1.
Proof. vm_compute. reflexivity. Qed.

Lemma Y1_X1 : merge_view Y1 X1 = X1.
Proof. vm_compute. reflexivity. Qed.

Lemma VA_VB_ne : VA <> VB.
Proof. apply (bool_decide_eq_false_1 (VA = VB)). vm_compute. reflexivity. Qed.

Lemma X1_Y1_ne : X1 <> Y1.
Proof. apply (bool_decide_eq_false_1 (X1 = Y1)). vm_compute. reflexivity. Qed.

(** The views of the pair are the initial ones or one of the two swapped
    ones. *)
Definition sym_views (p : FSM * FSM) : Prop :=
  NoDup (node_ids p.1) /\ NoDup (node_ids p.2) /\
  ((view p.1, view p.2) = (VA, VB) \/ (view p.1, view p.2) = (X1, Y1) \/
   (view p.1, view p.2) = (Y1, X1)).

Lemma sym_views_step p : sym_views p -> sym_views (sym_exchange p).
Proof.
  intros (H1 & H2 & Hv). unfold sym_views.
  destruct (sym_exchange_view p H1 H2) as (H1' & H2' & -> & ->).
  split; [done | split; [done|]].
  destruct Hv as [Hv|[Hv|Hv]]; apply pair_equal_spec in Hv as [-> ->].
  - by right; left.
  - rewrite X1_Y1, Y1_X1. by right; right.
  - rewrite X1_Y1, Y1_X1. by right; left.
Qed.

Lemma sym_views_ne p : sym_views p -> view p.1 <> view p.2.
Proof.
  intros (_ & _ & Hv) Heq. rewrite Heq in Hv.
  destruct Hv as [Hv|[Hv|Hv]]; apply pair_equal_spec in Hv as [Ha Hb].
  - apply VA_VB_ne. by rewrite <-Ha.
  - apply X1_Y1_ne. by rewrite <-Ha.
  - apply X1_Y1_ne. by rewrite <-Hb.
Qed.

(** C5. The symmetric push/pull does not converge on equal-second writes: two
    reachable replicas that hold different entries for the same key of
    the same partition, written in the same second, exchange them at every
    round and never agree, whatever the number of rounds (against spec
    section 5: convergence once every pair has completed a push/pull). *)
Theorem symmetric_exchange_oscillates :
  reachable "n1" meta1 node1_state /\ reachable "n2" meta2 node2_state /\
  forall n, view (Nat.iter n sym_exchange (fsm node1_state, fsm node2_state)).1 <>
            view (Nat.iter n sym_exchange (fsm node1_state, fsm node2_state)).2.
Proof.
  destruct node_states_reachable as [R1 R2]. split; [done | split; [done|]].
  intros n. apply sym_views_ne. induction n as [|n IH]; simpl; [|by apply sym_views_step].
  split; [apply (reachable_inv _ _ _ R1)|]. split; [apply (reachable_inv _ _ _ R2)|]. by left.
Qed.

(** ** Tombstones *)

Lemma view_Delete_me now key d L :
  delegate_wf d ->
  view (fsm d) !! me d = Some L ->
  view (fsm (Delete now key d)) !! me d = Some (alter (archive now) key L).
Proof.
  intros [Hnd Hme] HL. apply view_lookup in HL as (ns & Hin & Hid & <-); [|done].
  apply view_lookup; [by apply (Delete_wf now key d)|].
  unfold Delete, GetNodeStates. rewrite delete_scan_eq by done. simpl.
  exists (mkNodeState (NodeId ns) (alter (archive now) key (Entries ns))).
  split; [|done]. apply list_elem_of_fmap. exists ns. by rewrite bool_decide_true.
Qed.

(** [Delete] leaves the entries of every other partition as they were. *)
Lemma entry_at_Delete_other now key d n k :
  delegate_wf d -> n <> me d ->
  entry_at (view (fsm (Delete now key d))) n k = entry_at (view (fsm d)) n k.
Proof.
  intros Hwf Hne. unfold entry_at.
  destruct (view (fsm d) !! n) as [L|] eqn:HL.
  - apply view_lookup in HL as (ns & Hin & <- & <-); [|apply Hwf].
    rewrite (proj2 (view_lookup _ _ (Entries ns) (proj1 (Delete_wf now key d Hwf)))); [done|].
    exists ns. split; [|done]. unfold Delete, GetNodeStates. rewrite delete_scan_eq by apply Hwf.
    apply list_elem_of_fmap. exists ns. by rewrite bool_decide_false.
  - destruct (view (fsm (Delete now key d)) !! n) as [Ld|] eqn:HLd; [|done]. exfalso.
    apply view_lookup in HLd as (ns & Hin & Hid & _); [|by apply Delete_wf].
    revert Hin. unfold Delete, GetNodeStates. rewrite delete_scan_eq by apply Hwf.
    intros (ns0 & -> & Hin0)%list_elem_of_fmap.
    assert (NodeId ns0 = n) as Hn0 by (by case_bool_decide; subst).
    assert (is_Some (view (fsm d) !! n)) as [L HL'] by (exists (Entries ns0); apply view_lookup; [apply Hwf|eauto]).
    congruence.
Qed.

(** C19. Tombstone propagation (spec P6): the owner [a] deletes [key] at clock
    [now]; a peer [p] whose copy of that entry is not newer than [now]
    merges [a]'s state.  The peer then holds the tombstone in [a]'s
    partition and, when no other partition holds [key], its [Exists]
    answers false at every clock reading. *)
Theorem delete_propagates (a p p' : Delegate) now now' key e :
  delegate_wf a ->
  GoTime_wf now ->
  entry_at (view (fsm a)) (me a) key = Some e ->
  (forall ep, entry_at (view (fsm p)) (me a) key = Some ep ->
              AsTime_Unix (LastUpdatedTime ep) <= GoTime_Unix now) ->
  (forall n, n <> me a -> entry_at (view (fsm a)) n key = None /\
                          entry_at (view (fsm p)) n key = None) ->
  merge_step p (fsm (Delete now key a)) p' ->
  entry_at (view (fsm p')) (me a) key = Some (archive now e) /\
  Exists now' key p' = false.
Proof.
  intros Hwf Hns He Hp Hother (result & Hm & ->).
  destruct (MergeFSM_view _ _ _ (proj1 (Delete_wf now key a Hwf)) Hm) as [Hnd Hv].
  assert (Hk : forall n k, entry_at (view result) n k =
    lww (entry_at (view (fsm p)) n k) (entry_at (view (fsm (Delete now key a))) n k)).
  { intros n k. rewrite Hv. apply merge_view_entry_at. }
  assert (Hdel : entry_at (view (fsm (Delete now key a))) (me a) key = Some (archive now e)).
  { unfold entry_at in *. destruct (view (fsm a) !! me a) as [L|] eqn:HL; [|done].
    rewrite (view_Delete_me now key a L Hwf HL). simpl in *. by rewrite lookup_alter_eq, He. }
  assert (Hres : entry_at (view result) (me a) key = Some (archive now e)).
  { rewrite Hk, Hdel. destruct (entry_at (view (fsm p)) (me a) key) as [ep|] eqn:Ep; [|done].
    apply lww_remote_wins. specialize (Hp ep eq_refl). unfold archive; cbn [LastUpdatedTime].
    rewrite AsTime_Unix_New by done. lia. }
  split; [done|].
  unfold Exists, GetNodeStates. cbn [fsm set_fsm NodeStates].
  rewrite (get_scan_view result key (archive now e)); [by destruct (expired _ _) | done | | eauto].
  intros n e' Hn'. destruct (decide (n = me a)) as [->|Hne]; [congruence|].
  rewrite Hk, entry_at_Delete_other in Hn' by done.
  destruct (Hother n Hne) as [Ha Hp']. rewrite Hp', Ha in Hn'. done.
Qed.

Definition peer2 : Delegate := newDelegate "n2" meta2.
Definition t8 : GoTime := mkGoTime 8 0.

Lemma view_node1_state :
  view (fsm node1_state) =
  {["n1" := {["k" := put_entry "k" [x61] (timestamppb_New (mkGoTime 7 100)) None]}]}.
Proof. vm_compute. reflexivity. Qed.

Lemma view_peer2 : view (fsm peer2) = {["n2" := ∅]}.
Proof. vm_compute. reflexivity. Qed.

Lemma delete_propagates_witness :
  entry_at (view (fsm (merge_delegate peer2 (fsm (Delete t8 "k" node1_state))))) "n1" "k" =
    Some (archive t8 (put_entry "k" [x61] (timestamppb_New (mkGoTime 7 100)) None)) /\
  Exists (mkGoTime 9 0) "k" (merge_delegate peer2 (fsm (Delete t8 "k" node1_state))) = false.
Proof.
  apply (delete_propagates node1_state peer2).
  - apply (reachable_inv "n1" meta1), node_states_reachable.
  - unfold GoTime_wf, int64_range; simpl; lia.
  - rewrite view_node1_state. reflexivity.
  - rewrite view_peer2. unfold entry_at. simpl. discriminate.
  - intros n Hn. rewrite view_node1_state, view_peer2. unfold entry_at.
    rewrite lookup_singleton_ne by done. split; [done|].
    destruct (decide (n = "n2")) as [->|Hn2]; [by rewrite lookup_singleton_eq|].
    by rewrite lookup_singleton_ne.
  - eexists. split; [apply MergeFSM_rel_MergeFSM | done].
Defined.

(** Split ownership: [n1] and [n2] put ["k"] before seeing each other, so
    after [n1] merges [n2]'s state both partitions hold ["k"], and the
    iteration order of the rebuilt Go map may put [n2]'s first. *)
Definition nodeB_state : Delegate := Put (mkGoTime 5 0) "k" [x62] 0 peer2.
Definition nodeA_state : Delegate := Put (mkGoTime 5 0) "k" [x61] 0 (newDelegate "n1" meta1).
Definition split_range : list (string * gmap string Entry) :=
  [("n2", {["k" := put_entry "k" [x62] (timestamppb_New (mkGoTime 5 0)) None]});
   ("n1", {["k" := put_entry "k" [x61] (timestamppb_New (mkGoTime 5 0)) None]})].
Definition split_state : Delegate := set_fsm nodeA_state (rebuild split_range).

Lemma split_state_reachable : reachable "n1" meta1 split_state.
Proof.
  apply (rtc_l _ _ nodeA_state); [apply step_Put|].
  apply rtc_once. unfold split_state.
  apply (step_Merge (fsm nodeB_state)).
  exists (mkFSM (rebuild split_range)). split; [|reflexivity].
  exists split_range. split; [|reflexivity]. vm_compute. apply perm_swap.
Qed.

(** [Delete] passes over the partitions before the first one holding the
    key, and stops at a foreign one without touching it. *)
Lemma get_scan_delete_scan_foreign me key now nss1 ns nss2 :
  Forall (fun ns' => Entries ns' !! key = None) nss1 ->
  NodeId ns <> me -> is_Some (Entries ns !! key) ->
  get_scan key (delete_scan me key now (nss1 ++ ns :: nss2)) = get_scan key (nss1 ++ ns :: nss2).
Proof.
  intros H1 Hne [e He]. induction H1 as [|ns' nss1 Hn' _ IH]; cbn [app delete_scan].
  - rewrite map_has_key_holds. unfold holds. rewrite He, bool_decide_true, bool_decide_false by done.
    cbn [andb]. by rewrite !get_scan_cons, He.
  - rewrite map_has_key_holds. unfold holds. rewrite Hn', bool_decide_false by (by intros []).
    cbn [andb]. rewrite !get_scan_cons, Hn'. exact IH.
Qed.

(** C20. A [Delete] does not hide a key that a foreign partition also
    holds (concurrent first writes, spec S6): when the first partition in
    list order holding [key] is another node's, [Delete] leaves every
    [Get] and [Exists] of [key], at every clock reading, as it was, so a
    live copy stays visible (against spec scenario S4 and property P6,
    which expect the key to disappear). *)
Theorem delete_split_ownership d now t key nss1 ns nss2 :
  NodeStates (fsm d) = nss1 ++ ns :: nss2 ->
  Forall (fun ns' => Entries ns' !! key = None) nss1 ->
  NodeId ns <> me d -> is_Some (Entries ns !! key) ->
  Get t key (Delete now key d) = Get t key d /\ Exists t key (Delete now key d) = Exists t key d.
Proof.
  intros Hn H1 Hne Hs. unfold Get, Exists, Delete, GetNodeStates. cbn [fsm set_fsm NodeStates].
  rewrite Hn, get_scan_delete_scan_foreign by done. done.
Qed.

(** In the reachable split state, n2's partition comes first and holds
    "k": n1's [Delete] leaves n2's live copy visible. *)
Lemma delete_split_ownership_witness :
  reachable "n1" meta1 split_state /\
  Exists (mkGoTime 6 0) "k" split_state = true /\
  Exists (mkGoTime 6 0) "k" (Delete (mkGoTime 6 0) "k" split_state) = true.
Proof.
  split; [apply split_state_reachable|]. split; [vm_compute; reflexivity|].
  destruct (delete_split_ownership split_state (mkGoTime 6 0) (mkGoTime 6 0) "k" []
              (mkNodeState "n2" {["k" := put_entry "k" [x62] (timestamppb_New (mkGoTime 5 0)) None]})
              [mkNodeState "n1" {["k" := put_entry "k" [x61] (timestamppb_New (mkGoTime 5 0)) None]}])
    as [_ ->].
  - vm_compute. reflexivity.
  - constructor.
  - vm_compute. discriminate.
  - eexists. reflexivity.
  - vm_compute. reflexivity.
Defined.

Lemma reachable_wf_witness :
  NoDup (node_ids (fsm split_state)) /\ me split_state = "n1" /\ "n1" ∈ node_ids (fsm split_state).
Proof. apply (reachable_wf "n1" meta1), split_state_reachable. Defined.
