(* ===== verification/Locking.v ===== *)
(** * Locking: the [sync.RWMutex] of the Delegate

    Every method of the [Delegate] in [src/unnamed/part_001] runs its
    whole body under the delegate's [sync.RWMutex]: [Put], [Delete],
    [MergeRemoteState], [NodeMeta] and [LocalState] under [Lock] (lines
    62, 96, 108, 178, 273), [Get], [List] and [Exists] under [RLock]
    (lines 238, 256, 290), each released on return.  The bodies mutate
    the partition maps in place, loop by loop, so a state between two
    loops exists in memory; the lock is what keeps readers from seeing
    it.

    The model interleaves threads step by step.  A write is a list of
    phases, each an in-place update of the shared [Delegate], run while
    the thread holds [Lock]; a read computes its result from the shared
    state while the thread holds [RLock].  [Lock] waits until no thread
    holds the mutex, [RLock] until no thread holds it for writing.  The
    lemmas: in every interleaving, every read returns what it would on a
    state between complete writes, in the order the writes released the
    lock, and when no write is under way the shared state is the serial
    composition of the completed writes.  They hold of any phases, so
    they are a property of the mutex, not of gokv; they are what lets
    [Cluster.v] take each write-locked method as one atomic step.
    [MergeRemoteState], which updates the shared entry maps key by key,
    is not split into phases.  Writer preference of Go's [RWMutex] (a
    waiting writer blocks new readers) only delays readers and is not
    modelled. *)

From S2P Require Import Prelude Types Expiry Store.

Section Locking.
Context {Obs : Type}.

(** A method: a write, as the phases of its body, or a read. *)
Inductive op :=
| Write (phases : list (Delegate -> Delegate))
| Read (g : Delegate -> Obs).

(** A goroutine calling one method. *)
Inductive thread :=
| Waiting (o : op)
| Writing (done rest : list (Delegate -> Delegate))  (* holds Lock *)
| Reading (g : Delegate -> Obs)                      (* holds RLock *)
| Read_done (g : Delegate -> Obs) (r : Obs)          (* holds RLock, result computed *)
| Finished_write
| Finished_read (g : Delegate -> Obs) (r : Obs).

Definition holds_lock (t : thread) : bool :=
  match t with Writing _ _ => true | _ => false end.

Definition holds_rlock (t : thread) : bool :=
  match t with Reading _ | Read_done _ _ => true | _ => false end.

(** The shared delegate, the goroutines, and the writes in the order they
    released the lock. *)
Record config := mkConfig {
  shared : Delegate;
  threads : list thread;
  committed : list (list (Delegate -> Delegate))
}.

Definition apply_phases (ps : list (Delegate -> Delegate)) (d : Delegate) : Delegate :=
  foldl (fun d p => p d) d ps.

Definition apply_writes (ws : list (list (Delegate -> Delegate))) (d : Delegate) : Delegate :=
  foldl (fun d ps => apply_phases ps d) d ws.

Definition set_thread (c : config) (i : nat) (t : thread) : config :=
  mkConfig (shared c) (<[i := t]> (threads c)) (committed c).

Inductive lstep : config -> config -> Prop :=
| ls_Lock c i ps :
    threads c !! i = Some (Waiting (Write ps)) ->
    forallb (fun t => negb (holds_lock t || holds_rlock t)) (threads c) = true ->
    lstep c (set_thread c i (Writing [] ps))
| ls_Phase c i dn p rest :
    threads c !! i = Some (Writing dn (p :: rest)) ->
    lstep c (mkConfig (p (shared c)) (<[i := Writing (dn ++ [p]) rest]> (threads c)) (committed c))
| ls_Unlock c i dn :
    threads c !! i = Some (Writing dn []) ->
    lstep c (mkConfig (shared c) (<[i := Finished_write]> (threads c)) (committed c ++ [dn]))
| ls_RLock c i g :
    threads c !! i = Some (Waiting (Read g)) ->
    forallb (fun t => negb (holds_lock t)) (threads c) = true ->
    lstep c (set_thread c i (Reading g))
| ls_Read c i g :
    threads c !! i = Some (Reading g) ->
    lstep c (set_thread c i (Read_done g (g (shared c))))
| ls_RUnlock c i g r :
    threads c !! i = Some (Read_done g r) ->
    lstep c (set_thread c i (Finished_read g r)).

Definition init (d : Delegate) (ops : list op) : config := mkConfig d (Waiting <$> ops) [].

End Locking.

Arguments op : clear implicits.
Arguments thread : clear implicits.
Arguments config : clear implicits.

(** ** The methods as threads *)

(** [Put]'s body: the overwrite loop, then the insertion loop when the
    key was found nowhere.  The flag [keyExists] is a local variable of
    the goroutine; under the lock it equals whether a partition holds the
    key after the first loop, which the second phase reads. *)
Definition Put_phases (now : GoTime) (key : string) (value : list byte) (expiration : Z)
    : list (Delegate -> Delegate) :=
  let e := put_entry key value (timestamppb_New now) (setExpiry expiration) in
  [fun d => set_fsm d (put_overwrite key e (GetNodeStates (fsm d))).1;
   fun d => if existsb (holds key) (GetNodeStates (fsm d)) then d
            else set_fsm d (put_insert_local (me d) key e (GetNodeStates (fsm d)))].

Definition Delete_phases (now : GoTime) (key : string) : list (Delegate -> Delegate) :=
  [Delete now key].

(** ** The invariant of the interleavings *)

Section Theory.
Context {Obs : Type} (s0 : Delegate) (ops : list (op Obs)).
Implicit Types (c : config Obs) (ts : list (thread Obs)).

(** At most one goroutine holds [Lock], and none holds [RLock] then. *)
Definition exclusive ts : Prop :=
  forall i j ti tj, ts !! i = Some ti -> ts !! j = Some tj ->
  holds_lock ti = true -> holds_lock tj || holds_rlock tj = true -> i = j.

Definition no_writer ts : Prop := forall i t, ts !! i = Some t -> holds_lock t = false.

(** The shared state is the committed writes, followed by the phases the
    writer holding the lock has run. *)
Definition state_ok c : Prop :=
  (forall i dn rest, threads c !! i = Some (Writing dn rest) ->
     shared c = apply_phases dn (apply_writes (committed c) s0)) /\
  (no_writer (threads c) -> shared c = apply_writes (committed c) s0).

(** Every read result is the read of a state between complete writes. *)
Definition reads_ok c : Prop :=
  forall i g r, threads c !! i = Some (Read_done g r) \/ threads c !! i = Some (Finished_read g r) ->
  exists k, r = g (apply_writes (take k (committed c)) s0).

(** Goroutine [i] runs the method [ops !! i]. *)
Definition runs (o : op Obs) (t : thread Obs) : Prop :=
  match t with
  | Waiting o' => o' = o
  | Writing dn rest => o = Write (dn ++ rest)
  | Finished_write => exists ps, o = Write ps
  | Reading g | Read_done g _ | Finished_read g _ => o = Read g
  end.

Definition is_finished_write (t : thread Obs) : bool :=
  match t with Finished_write => true | _ => false end.

(** Each committed write is the body of a method of [ops], and one was
    committed per finished write. *)
Definition commits_ok c : Prop :=
  Forall (fun ps => Write ps ∈ ops) (committed c) /\
  length (committed c) = length (List.filter is_finished_write (threads c)).

Record inv c : Prop := {
  inv_exclusive : exclusive (threads c);
  inv_state : state_ok c;
  inv_reads : reads_ok c;
  inv_runs : Forall2 runs ops (threads c);
  inv_commits : commits_ok c
}.

Lemma forallb_no_lock ts :
  forallb (fun t => negb (holds_lock t)) ts = true -> no_writer ts.
Proof.
  intros H i t Hi. apply forallb_forall with (x := t) in H; [|by eapply list_elem_of_In, list_elem_of_lookup_2].
  by destruct (holds_lock t).
Qed.

Lemma forallb_free ts i t :
  forallb (fun t => negb (holds_lock t || holds_rlock t)) ts = true -> ts !! i = Some t ->
  holds_lock t = false /\ holds_rlock t = false.
Proof.
  intros H Hi. apply forallb_forall with (x := t) in H; [|by eapply list_elem_of_In, list_elem_of_lookup_2].
  by destruct (holds_lock t), (holds_rlock t).
Qed.

(** Replacing a goroutine by one that holds no more of the mutex keeps
    the exclusion. *)
Lemma exclusive_insert ts i t t' :
  ts !! i = Some t -> exclusive ts ->
  (holds_lock t' = true -> holds_lock t = true) ->
  (holds_rlock t' = true -> holds_lock t = true \/ holds_rlock t = true) ->
  exclusive (<[i := t']> ts).
Proof.
  intros Hi Hex Hl Hr i1 j1 ti tj H1 H2 Hti Htj.
  apply list_lookup_insert_Some in H1 as [(<- & <- & _)|[_ H1]];
  apply list_lookup_insert_Some in H2 as [(<- & <- & _)|[_ H2]]; try done.
  - eapply (Hex i j1 t tj); eauto.
  - eapply (Hex i1 i ti t); eauto. apply orb_true_iff in Htj as [?|?]; apply orb_true_iff; naive_solver.
  - eapply (Hex i1 j1 ti tj); eauto.
Qed.

Lemma take_app_prefix {A} (l m : list A) k : exists k', take k' (l ++ m) = take k l.
Proof.
  exists (length (take k l)). revert k. induction l as [|a l IH]; intros [|k]; try done.
  cbn [length take app]. f_equal. apply IH.
Qed.

Lemma apply_writes_snoc ws dn d : apply_writes (ws ++ [dn]) d = apply_phases dn (apply_writes ws d).
Proof. unfold apply_writes. by rewrite foldl_app. Qed.

Lemma apply_phases_snoc dn p d : apply_phases (dn ++ [p]) d = p (apply_phases dn d).
Proof. unfold apply_phases. by rewrite foldl_app. Qed.

Lemma Forall2_runs_insert ts i t t' :
  Forall2 runs ops ts -> ts !! i = Some t ->
  (forall o, runs o t -> runs o t') -> Forall2 runs ops (<[i := t']> ts).
Proof.
  intros Hf Hi Ht. apply Forall2_lookup. intros j.
  rewrite list_lookup_insert. case_decide as Hj; [|by apply Forall2_lookup].
  destruct Hj as [<- _]. pose proof (proj1 (Forall2_lookup _ _ _) Hf i) as Hfi.
  rewrite Hi in Hfi. inversion Hfi. constructor. by apply Ht.
Qed.

Lemma filter_insert_same ts i t t' :
  ts !! i = Some t -> is_finished_write t' = is_finished_write t ->
  length (List.filter is_finished_write (<[i := t']> ts)) = length (List.filter is_finished_write ts).
Proof.
  revert i. induction ts as [|t0 ts IH]; intros [|i] Hi Ht; try done; cbn in *.
  - injection Hi as ->. cbn [List.filter]. rewrite Ht. by destruct (is_finished_write t).
  - cbn [List.filter]. destruct (is_finished_write t0); cbn [length]; rewrite IH; done.
Qed.

Lemma filter_insert_finish ts i t :
  ts !! i = Some t -> is_finished_write t = false ->
  length (List.filter is_finished_write (<[i := Finished_write]> ts)) =
  S (length (List.filter is_finished_write ts)).
Proof.
  revert i. induction ts as [|t0 ts IH]; intros [|i] Hi Ht; try done; cbn in *.
  - injection Hi as ->. cbn [List.filter]. rewrite Ht. by destruct (is_finished_write t).
  - cbn [List.filter]. destruct (is_finished_write t0); cbn [length]; rewrite IH; done.
Qed.
End Theory.

(** ** Every step keeps the invariant *)

Section Preservation.
Context {Obs : Type} (s0 : Delegate) (ops : list (op Obs)).
Implicit Types (c : config Obs).

Ltac lookup_insert H :=
  apply list_lookup_insert_Some in H as [(? & ? & ?)|[? H]]; simplify_eq.

Lemma inv_init : inv s0 ops (init s0 ops).
Proof.
  split; cbn.
  - intros i j ti tj Hi _ Hl _. apply list_lookup_fmap_Some in Hi as (o & -> & _). done.
  - split; [|done]. intros i dn rest Hi. apply list_lookup_fmap_Some in Hi as (o & ? & _). done.
  - intros i g r [Hi|Hi]; apply list_lookup_fmap_Some in Hi as (o & ? & _); done.
  - apply Forall2_fmap_r, Forall_Forall2_diag, Forall_forall. done.
  - split; [done|]. induction ops as [|o os IH]; [done|]. cbn. by destruct o.
Qed.

Lemma inv_Lock c i ps :
  inv s0 ops c -> threads c !! i = Some (Waiting (Write ps)) ->
  forallb (fun t => negb (holds_lock t || holds_rlock t)) (threads c) = true ->
  inv s0 ops (set_thread c i (Writing [] ps)).
Proof.
  intros [Hex [Hst Hnw] Hrd Hruns [Hcw Hcl]] Hi Hfree. unfold set_thread. split; unfold state_ok, reads_ok, commits_ok; cbn [shared threads committed].
  - intros i1 j1 ti tj H1 H2 Hl Hr. lookup_insert H1; lookup_insert H2; try done.
    + destruct (forallb_free _ _ _ Hfree H2) as [Ha Hb]. by rewrite Ha, Hb in Hr.
    + by rewrite (proj1 (forallb_free _ _ _ Hfree H1)) in Hl.
    + by rewrite (proj1 (forallb_free _ _ _ Hfree H1)) in Hl.
  - split.
    + intros i1 dn rest H1. lookup_insert H1.
      * apply Hnw. intros j t Hj. apply (forallb_free _ _ _ Hfree Hj).
      * by pose proof (proj1 (forallb_free _ _ _ Hfree H1)).
    + intros Hno. exfalso. specialize (Hno i (Writing [] ps)).
      cbn [threads] in Hno. rewrite list_lookup_insert_eq in Hno; [by discriminate Hno|].
      by eapply lookup_lt_Some.
  - intros i1 g r H1. destruct H1 as [H1|H1]; lookup_insert H1; eauto.
  - eapply Forall2_runs_insert; [done|exact Hi|]. intros o Ho. cbn in *. by subst.
  - split; [done|]. cbn. by rewrite (filter_insert_same _ _ _ _ Hi).
Qed.

Lemma inv_Phase c i dn p rest :
  inv s0 ops c -> threads c !! i = Some (Writing dn (p :: rest)) ->
  inv s0 ops (mkConfig (p (shared c)) (<[i := Writing (dn ++ [p]) rest]> (threads c)) (committed c)).
Proof.
  intros [Hex [Hst Hnw] Hrd Hruns [Hcw Hcl]] Hi. split; unfold state_ok, reads_ok, commits_ok; cbn [shared threads committed].
  - eapply exclusive_insert; [exact Hi|done|done|intros; cbn; auto].
  - split.
    + intros i1 dn' rest' H1. lookup_insert H1.
      * rewrite apply_phases_snoc. f_equal. by eapply Hst.
      * by pose proof (Hex i i1 _ _ Hi H1 eq_refl eq_refl).
    + intros Hno. exfalso. specialize (Hno i (Writing (dn ++ [p]) rest)).
      cbn [threads] in Hno. rewrite list_lookup_insert_eq in Hno; [by discriminate Hno|].
      by eapply lookup_lt_Some.
  - intros i1 g r H1. destruct H1 as [H1|H1]; lookup_insert H1; eauto.
  - eapply Forall2_runs_insert; [done|exact Hi|]. intros o Ho. cbn in *. subst. by rewrite <-app_assoc.
  - split; [done|]. cbn. by rewrite (filter_insert_same _ _ _ _ Hi).
Qed.

Lemma inv_Unlock c i dn :
  inv s0 ops c -> threads c !! i = Some (Writing dn []) ->
  inv s0 ops (mkConfig (shared c) (<[i := Finished_write]> (threads c)) (committed c ++ [dn])).
Proof.
  intros [Hex [Hst Hnw] Hrd Hruns [Hcw Hcl]] Hi. split; unfold state_ok, reads_ok, commits_ok; cbn [shared threads committed].
  - eapply exclusive_insert; [exact Hi|done|done|intros; cbn; auto].
  - split.
    + intros i1 dn' rest' H1. lookup_insert H1; try done.
      by pose proof (Hex i i1 _ _ Hi H1 eq_refl eq_refl).
    + intros _. rewrite apply_writes_snoc. by eapply Hst.
  - intros i1 g r H1. destruct (Hrd i1 g r) as [k ->].
    { destruct H1 as [H1|H1]; lookup_insert H1; auto. }
    destruct (take_app_prefix (committed c) [dn] k) as [k' Hk']. exists k'. by rewrite Hk'.
  - eapply Forall2_runs_insert; [done|exact Hi|]. intros o Ho. cbn in *. subst. by eexists.
  - split; cbn.
    + apply Forall_app; split; [done|]. apply Forall_singleton.
      destruct (Forall2_lookup_r _ _ _ _ _ Hruns Hi) as (o & Ho & Hr). cbn in Hr.
      rewrite app_nil_r in Hr. subst o. by eapply list_elem_of_lookup_2.
    + rewrite length_app, (filter_insert_finish _ _ _ Hi) by done. cbn. lia.
Qed.

Lemma inv_RLock c i g :
  inv s0 ops c -> threads c !! i = Some (Waiting (Read g)) ->
  forallb (fun t => negb (holds_lock t)) (threads c) = true ->
  inv s0 ops (set_thread c i (Reading g)).
Proof.
  intros [Hex [Hst Hnw] Hrd Hruns [Hcw Hcl]] Hi Hfree. pose proof (forallb_no_lock _ Hfree) as Hno.
  unfold set_thread. split; unfold state_ok, reads_ok, commits_ok; cbn [shared threads committed].
  - intros i1 j1 ti tj H1 H2 Hl _. lookup_insert H1; try done. by rewrite (Hno _ _ H1) in Hl.
  - split.
    + intros i1 dn rest H1. lookup_insert H1; try done. by pose proof (Hno _ _ H1).
    + intros _. by apply Hnw.
  - intros i1 g' r H1. destruct H1 as [H1|H1]; lookup_insert H1; eauto.
  - eapply Forall2_runs_insert; [done|exact Hi|]. intros o Ho. cbn in *. by subst.
  - split; [done|]. cbn. by rewrite (filter_insert_same _ _ _ _ Hi).
Qed.

Lemma inv_Read c i g :
  inv s0 ops c -> threads c !! i = Some (Reading g) ->
  inv s0 ops (set_thread c i (Read_done g (g (shared c)))).
Proof.
  intros [Hex [Hst Hnw] Hrd Hruns [Hcw Hcl]] Hi.
  assert (Hno : no_writer (threads c)).
  { intros j t Hj. destruct (holds_lock t) eqn:Hl; [|done].
    by pose proof (Hex j i _ _ Hj Hi Hl eq_refl) as ->; rewrite Hi in Hj; injection Hj as <-. }
  unfold set_thread. split; unfold state_ok, reads_ok, commits_ok; cbn [shared threads committed].
  - eapply exclusive_insert; [exact Hi|done|done|intros; cbn; auto].
  - split.
    + intros i1 dn rest H1. lookup_insert H1; try done. by pose proof (Hno _ _ H1).
    + intros _. by apply Hnw.
  - intros i1 g' r H1. destruct H1 as [H1|H1]; lookup_insert H1; eauto.
    exists (length (committed c)). rewrite take_ge by done. f_equal. by apply Hnw.
  - eapply Forall2_runs_insert; [done|exact Hi|]. done.
  - split; [done|]. cbn. by rewrite (filter_insert_same _ _ _ _ Hi).
Qed.

Lemma inv_RUnlock c i g r :
  inv s0 ops c -> threads c !! i = Some (Read_done g r) ->
  inv s0 ops (set_thread c i (Finished_read g r)).
Proof.
  intros [Hex [Hst Hnw] Hrd Hruns [Hcw Hcl]] Hi. unfold set_thread. split; unfold state_ok, reads_ok, commits_ok; cbn [shared threads committed].
  - eapply exclusive_insert; [exact Hi|done|done|intros; cbn; auto].
  - split.
    + intros i1 dn rest H1. lookup_insert H1; try done. by eapply Hst.
    + intros Hno. apply Hnw. intros j t Hj. destruct (decide (i = j)) as [<-|Hij].
      * rewrite Hi in Hj. by injection Hj as <-.
      * apply (Hno j). by rewrite list_lookup_insert_ne.
  - intros i1 g' r' H1. destruct H1 as [H1|H1]; lookup_insert H1; eauto.
  - eapply Forall2_runs_insert; [done|exact Hi|]. done.
  - split; [done|]. cbn. by rewrite (filter_insert_same _ _ _ _ Hi).
Qed.

Lemma lstep_inv c c' : inv s0 ops c -> lstep c c' -> inv s0 ops c'.
Proof.
  intros Hinv Hs. destruct Hs.
  - by eapply inv_Lock.
  - by eapply inv_Phase.
  - by eapply inv_Unlock.
  - by eapply inv_RLock.
  - by eapply inv_Read.
  - by eapply inv_RUnlock.
Qed.

Lemma steps_inv c c' : rtc lstep c c' -> inv s0 ops c -> inv s0 ops c'.
Proof. induction 1; eauto using lstep_inv. Qed.

Lemma lock_reachable_inv c : rtc lstep (init s0 ops) c -> inv s0 ops c.
Proof. intros Hr. eapply steps_inv; [exact Hr|apply inv_init]. Qed.
End Preservation.

(** ** The Delegate's methods under the mutex *)

Lemma holds_set_key_if key e ns :
  holds key (if holds key ns then set_key key e ns else ns) = holds key ns.
Proof.
  destruct (holds key ns) eqn:H; [|done]. unfold holds, set_key. cbn.
  by rewrite bool_decide_true by (rewrite lookup_insert_eq; eauto).
Qed.

Lemma existsb_holds_overwrite key e nss :
  existsb (holds key) ((fun ns => if holds key ns then set_key key e ns else ns) <$> nss) =
  existsb (holds key) nss.
Proof. induction nss as [|ns nss IH]; [done|]. cbn. by rewrite holds_set_key_if, IH. Qed.

(** The two phases of [Put] make [Put]. *)
Lemma Put_phases_spec now key value expiration d :
  apply_phases (Put_phases now key value expiration) d = Put now key value expiration d.
Proof.
  unfold apply_phases, Put_phases, Put. cbn [foldl].
  rewrite put_overwrite_eq. cbn [fst snd]. unfold GetNodeStates. cbn [fsm set_fsm NodeStates].
  rewrite existsb_holds_overwrite.
  destruct (existsb (holds key) (NodeStates (fsm d))); by destruct d.
Qed.

Section Serializability.
Context {Obs : Type}.

(** [sync.RWMutex] serializes the methods: in every interleaving of
    goroutines calling writes (each a sequence of in-place phases, run
    under [Lock]) and reads (run under [RLock]) on a delegate [s0], every
    read that has returned returned what it computes on the state after
    the first [k] complete writes, in the order they released the lock,
    for some [k] (never on a half-done write); when no write is under way
    the delegate is the serial composition of the completed writes; and
    every completed write is one of the methods called. *)
Theorem rwmutex_serializable (s0 : Delegate) (ops : list (op Obs)) c :
  rtc lstep (init s0 ops) c ->
  (forall i g r, threads c !! i = Some (Finished_read g r) ->
     exists k, r = g (apply_writes (take k (committed c)) s0)) /\
  ((forall i t, threads c !! i = Some t -> holds_lock t = false) ->
     shared c = apply_writes (committed c) s0) /\
  Forall (fun ps => Write ps ∈ ops) (committed c).
Proof.
  intros Hr. destruct (lock_reachable_inv s0 ops c Hr) as [_ [_ Hnw] Hrd _ [Hcw _]].
  split_and!; [|done|done]. intros i g r Hi. apply (Hrd i). by right.
Qed.

End Serializability.

(** ** A run: a read and a [Put] on a fresh node *)

Definition race_d0 : Delegate := newDelegate "n1" meta1.
Definition race_put_clock : GoTime := mkGoTime 7 0.
Definition race_get_clock : GoTime := mkGoTime 8 0.

Definition race_ops : list (op (GoError + Entry)) :=
  [Write (Put_phases race_put_clock "k" [x61] 0); Read (Get race_get_clock "k")].

(** The read takes [RLock] first; the [Put] runs after it released it. *)
Definition race_final : config (GoError + Entry) :=
  mkConfig (apply_phases (Put_phases race_put_clock "k" [x61] 0) race_d0)
    [Finished_write; Finished_read (Get race_get_clock "k") (Get race_get_clock "k" race_d0)]
    [Put_phases race_put_clock "k" [x61] 0].

Lemma race_run : rtc lstep (init race_d0 race_ops) race_final.
Proof.
  eapply rtc_l; [apply (ls_RLock _ 1); reflexivity|].
  eapply rtc_l; [apply (ls_Read _ 1); reflexivity|].
  eapply rtc_l; [apply (ls_RUnlock _ 1); reflexivity|].
  eapply rtc_l; [apply (ls_Lock _ 0); reflexivity|].
  eapply rtc_l; [eapply (ls_Phase _ 0); reflexivity|].
  eapply rtc_l; [eapply (ls_Phase _ 0); reflexivity|].
  eapply rtc_l; [eapply (ls_Unlock _ 0); reflexivity|].
  apply rtc_refl.
Qed.

Lemma rwmutex_serializable_witness :
  (forall i g r, threads race_final !! i = Some (Finished_read g r) ->
     exists k, r = g (apply_writes (take k (committed race_final)) race_d0)) /\
  ((forall i t, threads race_final !! i = Some t -> holds_lock t = false) ->
     shared race_final = apply_writes (committed race_final) race_d0) /\
  Forall (fun ps => Write ps ∈ race_ops) (committed race_final).
Proof. apply (rwmutex_serializable race_d0 race_ops race_final). apply race_run. Defined.
