(* ===== verification/Membership.v ===== *)
(** * Membership: the memberlist callbacks of the Delegate

    [src/unnamed/part_001], lines 55-174: the methods through which
    hashicorp/memberlist drives the node.  [NodeMeta] marshals the node's
    [NodeMeta]; [NotifyMsg] and [GetBroadcasts] do nothing (replication is
    push/pull only); [LocalState] marshals the FSM, dropping the error;
    [MergeRemoteState] unmarshals the bytes it is handed, dropping the
    error, and merges whatever was decoded ([Merge.v]).

    The theorems: a push/pull through the bytes is the decoded merge when
    the remote FSM marshals without error ([push_pull_refines]), and a
    key that is not UTF-8 anywhere in the node's FSM makes [LocalState]
    send nothing at all ([invalid_key_blocks_replication]). *)

From S2P Require Import Prelude Types Wire Codec Store Merge Cluster.

Module Callbacks.

(** [NodeMeta(limit)] (lines 61-67): [proto.Marshal(d.nodeMeta)] with the
    error dropped; [limit] is not read. *)
Definition NodeMeta (limit : Z) (d : Delegate) : list byte :=
  (Marshal_NodeMeta (nodeMeta d)).1.

(** [NotifyMsg(bytes)] (lines 74-76): no effect. *)
Definition NotifyMsg (bytes : list byte) (d : Delegate) : Delegate := d.

(** [GetBroadcasts(overhead, limit)] (lines 85-88): [nil]. *)
Definition GetBroadcasts (overhead limit : Z) (d : Delegate) : list (list byte) := [].

(** [LocalState(join)] (lines 95-100): [proto.Marshal(d.fsm)] with the
    error dropped, the maps ranged in the orders [parts]. *)
Definition LocalState (join : bool) (parts : list (NodeState * list (string * Entry))) : list byte :=
  (Marshal_FSM parts).1.

(** [MergeRemoteState(buf, join)] (lines 107-174): [remoteFSM :=
    new(FSM); _ = proto.Unmarshal(buf, remoteFSM)], then the merge of
    [Merge.v], the new partition list in the order of [MergeFSM]. *)
Definition MergeRemoteState (buf : list byte) (join : bool) (d : Delegate) : Delegate :=
  merge_delegate d (Unmarshal_FSM buf).1.

(** The same, in any iteration order of the rebuilt partition list. *)
Definition MergeRemoteState_rel (buf : list byte) (join : bool) (d d' : Delegate) : Prop :=
  merge_step d (Unmarshal_FSM buf).1 d'.

End Callbacks.

Import Callbacks.

(** ** Push/pull through the bytes *)

(** C3. Push/pull through the wire is the decoded merge: when the remote
    node's FSM marshals without error (its strings are UTF-8), whatever
    order [LocalState] ranges its maps in, [MergeRemoteState] of the
    buffer has exactly the outcomes of merging the remote FSM itself. *)
Theorem push_pull_refines d1 d2 d2' join join' parts :
  ranges_of (fsm d1) parts -> FSM_wire_ok (fsm d1) -> fits (seg_bytes (enc_FSM parts)) ->
  MergeRemoteState_rel (LocalState join parts) join' d2 d2' <-> merge_step d2 (fsm d1) d2'.
Proof.
  intros Hr Hok Hfit. unfold MergeRemoteState_rel, LocalState.
  by rewrite (FSM_wire_roundtrip (fsm d1) parts Hr Hok Hfit).
Qed.

(** ** Findings *)

(** The empty buffer merges nothing. *)
Lemma merge_view_empty_r A : merge_view A ∅ = A.
Proof.
  apply map_eq. intros n. unfold merge_view. rewrite lookup_merge, lookup_empty. by destruct (A !! n).
Qed.

Lemma MergeRemoteState_nil join d : view (fsm (MergeRemoteState [] join d)) = view (fsm d).
Proof.
  unfold MergeRemoteState, merge_delegate. replace (Unmarshal_FSM []) with (mkFSM [], true) by reflexivity.
  destruct (MergeFSM_view (fsm d) (mkFSM []) _ (NoDup_nil_2) (MergeFSM_rel_MergeFSM _ _)) as [_ Hv].
  cbn [fsm set_fsm fst]. destruct (MergeFSM (fsm d) (mkFSM [])) as [nss] eqn:E.
  cbn [NodeStates]. rewrite Hv. apply merge_view_empty_r.
Qed.

(** C9. [LocalState] drops the error of [proto.Marshal], and [Put]
    accepts any Go string as a key.  When one key of the node's FSM, in
    any partition, is not UTF-8 (the node ids being UTF-8 and every entry
    carrying its own key, as [Put] stores it), [appendMapItem] returns
    [nil] at that key, whatever order the maps are ranged in: [LocalState]
    sends nothing, and a peer that merges it gains nothing.  None of the
    node's partitions, its own and those it relays, is replicated through
    it any more. *)
Theorem invalid_key_blocks_replication d parts join peer :
  ranges_of (fsm d) parts ->
  Forall (fun ns => utf8_valid (str_bytes (NodeId ns)) = true) (NodeStates (fsm d)) ->
  Forall (fun ns => map_Forall (fun k e => Key e = k) (Entries ns)) (NodeStates (fsm d)) ->
  (exists ns k e, ns ∈ NodeStates (fsm d) /\ Entries ns !! k = Some e /\ utf8_valid (str_bytes k) = false) ->
  LocalState join parts = [] /\
  view (fsm (MergeRemoteState (LocalState join parts) join peer)) = view (fsm peer).
Proof.
  intros [H1 H2] Hid Hkey (ns & k & e & Hin & He & Hk).
  assert (Hab : aborts (enc_FSM parts)).
  { apply enc_FSM_aborts.
    - apply Forall_forall. intros [ns' l] Hp.
      assert (Hns : ns' ∈ NodeStates (fsm d)).
      { rewrite <-H1. exact (list_elem_of_fmap_2 fst parts (ns', l) Hp). }
      assert (Hl : l ≡ₚ map_to_list (Entries ns')) by exact (proj1 (Forall_forall _ _) H2 _ Hp).
      split; [exact (proj1 (Forall_forall _ _) Hid _ Hns)|].
      apply Forall_forall. intros [k' e'] Hkin Hu. cbn. rewrite Hl in Hkin.
      apply elem_of_map_to_list in Hkin. by rewrite (proj1 (Forall_forall _ _) Hkey _ Hns k' e' Hkin).
    - rewrite <-H1 in Hin. apply list_elem_of_fmap in Hin as ([ns' l] & -> & Hp).
      apply Exists_exists. exists (ns', l). split; [done|]. cbn.
      assert (Hl : l ≡ₚ map_to_list (Entries ns')) by exact (proj1 (Forall_forall _ _) H2 _ Hp).
      apply Exists_exists. exists (k, e). split; [|done]. rewrite Hl. by apply elem_of_map_to_list. }
  assert (HL : LocalState join parts = []).
  { unfold LocalState, Marshal_FSM, emit. by rewrite aborts_emit_from. }
  split; [done|]. rewrite HL. apply MergeRemoteState_nil.
Qed.

(** ** Witnesses *)

(** A node holding the two partitions of [wire_fsm]. *)
Definition wire_node : Delegate := set_fsm (newDelegate "n1" meta1) (NodeStates wire_fsm).

Lemma push_pull_refines_witness :
  MergeRemoteState_rel (LocalState false wire_parts) false peer2
    (merge_delegate peer2 wire_fsm) <->
  merge_step peer2 (fsm wire_node) (merge_delegate peer2 wire_fsm).
Proof.
  destruct wire_fsm_ok as (Hr & Hok & Hfit).
  apply (push_pull_refines wire_node peer2 _ false false wire_parts); [exact Hr|exact Hok|exact Hfit].
Defined.

(** A key that is not UTF-8: the byte 0xFF. *)
Definition bad_key : string := String (Ascii.ascii_of_byte xff) EmptyString.

(** Node n1 has merged node n2's partition (key "b"), then [Put] the key
    0xFF in its own partition. *)
Definition bad_state : Delegate :=
  Put t7 bad_key [x62] 0
    (merge_delegate (newDelegate "n1" meta1) (fsm (Put t7 "b" [x61] 0 (newDelegate "n2" meta2)))).

Definition bad_own : NodeState := mkNodeState "n1" {[bad_key := put_entry bad_key [x62] (timestamppb_New t7) None]}.

Lemma invalid_key_blocks_replication_witness :
  Callbacks.LocalState false (canonical_parts (fsm bad_state)) = [] /\
  view (fsm (MergeRemoteState (Callbacks.LocalState false (canonical_parts (fsm bad_state))) false peer2)) =
    view (fsm peer2).
Proof.
  apply (invalid_key_blocks_replication bad_state (canonical_parts (fsm bad_state)) false peer2).
  - apply ranges_of_canonical.
  - apply (bool_decide_unpack (Forall (fun ns => utf8_valid (str_bytes (NodeId ns)) = true)
                                 (NodeStates (fsm bad_state)))). vm_compute. reflexivity.
  - apply (bool_decide_unpack (Forall (fun ns => map_Forall (fun k e => Key e = k) (Entries ns))
                                 (NodeStates (fsm bad_state)))). vm_compute. reflexivity.
  - exists bad_own, bad_key, (put_entry bad_key [x62] (timestamppb_New t7) None). split_and!.
    + apply (bool_decide_unpack (bad_own ∈ NodeStates (fsm bad_state))). vm_compute. reflexivity.
    + reflexivity.
    + reflexivity.
Defined.
