(* ===== verification/Gossip.v ===== *)
(** * Gossip: memberlist's side of the Delegate interface

    [src/unnamed/part_001] line 55 asserts that a pointer to [Delegate]
    implements [memberlist.Delegate]: the node is handed to memberlist through the Go
    interface [memberlist.Delegate], whose five methods memberlist calls.
    memberlist itself is not among the sources; its use of the interface
    is what the spec describes (section 3): in a push/pull, each side calls
    [LocalState], ships the bytes, and calls [MergeRemoteState] on the bytes
    it received.

    - [MemberlistDelegate] is the interface, a class: [LocalState] and
      [MergeRemoteState] are relations, since a call may range Go maps in
      any order.  [push_pull] is memberlist's exchange, written once
      against the class.
    - [ReplicaLaws] is what a replica promises through the interface: the
      bytes of a sendable state merge as an abstract merge of views.  The
      theorems of the section [Memberlist] are proved from the laws only.
    - The instances are gokv's [Delegate] ([Membership.v]); the laws are
      discharged by the codec round trip and the merge refinement. *)

From S2P Require Import Prelude Types Wire Codec Expiry Store Merge Cluster Membership.

(** ** The interface *)

Class MemberlistDelegate (S : Type) := {
  dlg_NodeMeta : Z -> S -> list byte;
  dlg_NotifyMsg : list byte -> S -> S;
  dlg_GetBroadcasts : Z -> Z -> S -> list (list byte);
  dlg_LocalState : bool -> S -> list byte -> Prop;
  dlg_MergeRemoteState : list byte -> bool -> S -> S -> Prop
}.

(** One push/pull between [a] and [b]: both states are serialized before
    either side merges, then each merges the other's bytes. *)
Definition push_pull {S} `{MemberlistDelegate S} (join : bool) (a b a' b' : S) : Prop :=
  exists bufa bufb,
    dlg_LocalState join a bufa /\ dlg_LocalState join b bufb /\
    dlg_MergeRemoteState bufb join a a' /\ dlg_MergeRemoteState bufa join b b'.

(** The laws of a state-based replica behind the interface: [view_of] is
    its abstract state, [merge_v] the merge of abstract states, and
    [sendable] the states whose [LocalState] is faithful. *)
Class ReplicaLaws (S V : Type) `{MemberlistDelegate S}
    (view_of : S -> V) (merge_v : V -> V -> V) (sendable : S -> Prop) := {
  law_LocalState join s : sendable s -> exists buf, dlg_LocalState join s buf;
  law_MergeRemoteState join join' s t t' buf :
    sendable s -> dlg_LocalState join s buf -> dlg_MergeRemoteState buf join' t t' ->
    view_of t' = merge_v (view_of t) (view_of s);
  law_NotifyMsg bytes s : dlg_NotifyMsg bytes s = s;
  law_GetBroadcasts overhead limit s : dlg_GetBroadcasts overhead limit s = []
}.

(** ** gokv's Delegate behind the interface *)

#[export] Instance Delegate_memberlist : MemberlistDelegate Delegate := {|
  dlg_NodeMeta := Callbacks.NodeMeta;
  dlg_NotifyMsg := Callbacks.NotifyMsg;
  dlg_GetBroadcasts := Callbacks.GetBroadcasts;
  dlg_LocalState join d buf :=
    exists parts, ranges_of (fsm d) parts /\ buf = Callbacks.LocalState join parts;
  dlg_MergeRemoteState := Callbacks.MergeRemoteState_rel
|}.

(** A state whose [LocalState] the peer decodes back: partitions with
    unique ids (an invariant of every reachable state, [Cluster.v]), UTF-8 strings
    and integers in range, and an encoding that fits a Go slice. *)
Definition sendable (d : Delegate) : Prop :=
  delegate_wf d /\ FSM_wire_ok (fsm d) /\ fits (seg_bytes (enc_FSM (canonical_parts (fsm d)))).

Definition delegate_view (d : Delegate) : gmap string (gmap string Entry) := view (fsm d).

(** ** A fresh node after one write *)

Section FreshWrite.
Context (n : string) (m : NodeMeta) (key : string) (value : list byte)
        (expiration : Z) (now : GoTime).

Lemma Put_newDelegate :
  NodeStates (fsm (Put now key value expiration (newDelegate n m))) =
  [mkNodeState n {[key := put_entry key value (timestamppb_New now) (setExpiry expiration)]}].
Proof.
  unfold Put. cbn -[setExpiry timestamppb_New map_has_key].
  replace (map_has_key key ∅) with false
    by (unfold map_has_key, map_find_key; by rewrite map_to_list_empty).
  cbn -[setExpiry timestamppb_New]. unfold GetNodeId. by rewrite bool_decide_true.
Qed.

Lemma durationpb_New_typed d : 0 < d -> int64_range d -> Duration_typed (durationpb_New d).
Proof.
  unfold Duration_typed, int64_range, int32_range, durationpb_New. cbn. intros Hd Hr.
  rewrite Z.quot_div_nonneg by lia. Z.div_mod_to_equations. lia.
Qed.

Lemma Put_newDelegate_wire_ok :
  utf8_valid (str_bytes n) = true -> utf8_valid (str_bytes key) = true -> GoTime_wf now ->
  (0 < expiration -> int64_range expiration) ->
  FSM_wire_ok (fsm (Put now key value expiration (newDelegate n m))).
Proof.
  intros Hn Hkey [Hs Hns] Hexp.
  unfold FSM_wire_ok. rewrite Put_newDelegate, Forall_singleton. split; [done|].
  apply map_Forall_singleton. split; [done|]. split_and!; [done| |].
  - split; [done|]. unfold int32_range. cbn. lia.
  - cbn [put_entry Expiry]. unfold setExpiry.
    destruct (Z.ltb_spec 0 expiration); [apply durationpb_New_typed; auto|done].
Qed.

Lemma Put_newDelegate_sendable :
  utf8_valid (str_bytes n) = true -> utf8_valid (str_bytes key) = true -> GoTime_wf now ->
  (0 < expiration -> int64_range expiration) ->
  fits (seg_bytes (enc_FSM (canonical_parts (fsm (Put now key value expiration (newDelegate n m)))))) ->
  sendable (Put now key value expiration (newDelegate n m)).
Proof.
  intros Hn Hkey Hnow Hexp Hfit. split_and!; [|by apply Put_newDelegate_wire_ok|done].
  apply Put_wf, newDelegate_wf.
Qed.

End FreshWrite.

(** ** memberlist's push/pull, against the interface *)

Section Memberlist.
Context {S V : Type} `{ReplicaLaws S V view_of merge_v sendable'}.

(** A push/pull between sendable states leaves on each side the merge of
    its view with the other's pre-exchange view. *)
Lemma push_pull_views join a b a' b' :
  sendable' a -> sendable' b -> push_pull join a b a' b' ->
  view_of a' = merge_v (view_of a) (view_of b) /\ view_of b' = merge_v (view_of b) (view_of a).
Proof.
  intros Ha Hb (bufa & bufb & Hla & Hlb & Hma & Hmb).
  split; eapply law_MergeRemoteState; eauto.
Qed.

(** The two sides agree after the exchange exactly when the merge of
    their views commutes. *)
Lemma push_pull_agree_iff join a b a' b' :
  sendable' a -> sendable' b -> push_pull join a b a' b' ->
  view_of a' = view_of b' <-> merge_v (view_of a) (view_of b) = merge_v (view_of b) (view_of a).
Proof. intros Ha Hb Hp. destruct (push_pull_views join a b a' b' Ha Hb Hp) as [-> ->]. done. Qed.

End Memberlist.

(** ** gokv's Delegate keeps the laws *)

#[export] Instance Delegate_replica : ReplicaLaws Delegate _ delegate_view merge_view sendable.
Proof.
  split.
  - intros join s _. eexists (Callbacks.LocalState join (canonical_parts (fsm s))).
    exists (canonical_parts (fsm s)). split; [apply ranges_of_canonical|done].
  - intros join join' s t t' buf (Hwf & Hok & Hfit) (parts & Hr & ->) Hm.
    unfold fits in Hfit. rewrite <-(length_enc_FSM _ _ Hr) in Hfit.
    cbn in Hm. unfold Callbacks.MergeRemoteState_rel, Callbacks.LocalState in Hm.
    rewrite (FSM_wire_roundtrip (fsm s) parts Hr Hok Hfit) in Hm.
    destruct Hm as (result & Hm & ->). destruct (MergeFSM_view _ _ _ (proj1 Hwf) Hm) as [_ Hv].
    unfold delegate_view. cbn. rewrite <-Hv. by destruct result.
  - done.
  - done.
Qed.

(** ** The push/pull of memberlist on gokv nodes *)

Lemma sendable_NoDup d : sendable d -> NoDup (node_ids (fsm d)).
Proof. by intros [[? ?] _]. Qed.

(** C11. memberlist's push/pull over the bytes, between two gokv nodes whose
    states marshal without error, has the views of the symmetric exchange
    of the decoded model ([Cluster.sym_exchange]): each node ends with
    the merge of its view and the other's pre-exchange view, whatever
    order each side's maps are ranged in. *)
Theorem memberlist_push_pull_refines join a b a' b' :
  sendable a -> sendable b -> push_pull join a b a' b' ->
  delegate_view a' = view (sym_exchange (fsm a, fsm b)).1 /\
  delegate_view b' = view (sym_exchange (fsm a, fsm b)).2.
Proof.
  intros Ha Hb Hp. destruct (push_pull_views join a b a' b' Ha Hb Hp) as [-> ->].
  destruct (sym_exchange_view (fsm a, fsm b)) as (_ & _ & -> & ->);
    [apply sendable_NoDup..|]; done.
Qed.

(** The two replicas of [Cluster.v] that wrote ["k"] in the same second
    can be sent. *)
Lemma node2_state_states :
  NodeStates (fsm node2_state) =
  [mkNodeState "n1" {["k" := put_entry "k" [x62] (timestamppb_New (mkGoTime 7 900)) None]};
   mkNodeState "n2" ∅].
Proof. reflexivity. Qed.

Lemma put_entry_wire_ok key value now :
  utf8_valid (str_bytes key) = true -> GoTime_wf now ->
  Entry_wire_ok (put_entry key value (timestamppb_New now) None).
Proof.
  intros Hk [Hs Hns]. split_and!; [done| |done]. split; [done|]. unfold int32_range. cbn. lia.
Qed.

Lemma node_states_sendable : sendable node1_state /\ sendable node2_state.
Proof.
  destruct node_states_reachable as [R1 R2]. split.
  - apply Put_newDelegate_sendable; [done|done|unfold GoTime_wf, int64_range; cbn; lia| |].
    + unfold int64_range. lia.
    + unfold fits. vm_compute. reflexivity.
  - split_and!; [exact (reachable_inv _ _ _ R2)| |unfold fits; vm_compute; reflexivity].
    unfold FSM_wire_ok. rewrite node2_state_states.
    repeat (apply Forall_cons_2 || apply Forall_nil_2); split; [done| |done|by apply map_Forall_empty].
    apply map_Forall_singleton. split; [done|]. apply put_entry_wire_ok; [done|].
    unfold GoTime_wf, int64_range. cbn. lia.
Qed.

(** ** Witnesses *)

(** The push/pull in which both sides range their maps as [map_to_list]
    does. *)
Definition canonical_push_pull (join : bool) (a b : Delegate) : Delegate * Delegate :=
  (Callbacks.MergeRemoteState (Callbacks.LocalState join (canonical_parts (fsm b))) join a,
   Callbacks.MergeRemoteState (Callbacks.LocalState join (canonical_parts (fsm a))) join b).

Lemma canonical_push_pull_ok join a b :
  push_pull join a b (canonical_push_pull join a b).1 (canonical_push_pull join a b).2.
Proof.
  exists (Callbacks.LocalState join (canonical_parts (fsm a))),
         (Callbacks.LocalState join (canonical_parts (fsm b))).
  split_and!; try (eexists; split; [apply ranges_of_canonical|reflexivity]);
    (eexists; split; [apply MergeFSM_rel_MergeFSM|reflexivity]).
Qed.

Lemma memberlist_push_pull_refines_witness :
  delegate_view (canonical_push_pull false node1_state node2_state).1 =
    view (sym_exchange (fsm node1_state, fsm node2_state)).1 /\
  delegate_view (canonical_push_pull false node1_state node2_state).2 =
    view (sym_exchange (fsm node1_state, fsm node2_state)).2.
Proof.
  destruct node_states_sendable as [H1 H2].
  apply (memberlist_push_pull_refines false node1_state node2_state); [exact H1|exact H2|].
  apply canonical_push_pull_ok.
Defined.

