(* ===== verification/Client.v ===== *)
(** * Client: the client API of the README, its codec, and the janitor

    [src/unnamed/part_002] (the README) lists the client of a node: [Put],
    [PutProto], [PutString], [PutAny] with a [Codec], [Get], [GetProto],
    [GetString], [GetAny], [List], [Exists], [Delete], and a janitor that
    removes expired entries.  The client package is not among the
    sources; the spec (sections 4.1, 4.3, 6, 7 and 9) says that each call
    is a direct projection of the engine operation of the node it talks
    to, that the typed wrappers marshal the value into [Entry.value], that
    [Get] filters tombstones and surfaces [ErrKeyNotFound], and that the
    janitor sweeps the node's own expired entries through [Delete].

    - The [Codec] interface ([Encode]/[Decode], README line 27 and the
      [testCodec] of the tests) is a class; [CodecLaws] is its round-trip
      law.  [PutString]/[GetString] and [PutProto]/[GetProto] are
      [PutAny]/[GetAny] at the instances for Go strings and for
      [testpb.Hello] (its [proto.Marshal]/[proto.Unmarshal] over the wire
      model of [Wire.v] and [Codec.v]).
    - The client calls on a node are functions of the [Delegate] of
      [Store.v], the clock an argument.
    - [janitor] sweeps the node's own expired live entries with [Delete].

    The theorems: a value written with [PutAny] reads back with [GetAny]
    for every lawful codec; [GetAny] fails with [ErrKeyNotFound] exactly
    when [Exists] is false, so missing, tombstoned and expired keys look
    alike; a node used alone through [Put] and [Delete] refines a
    key/value map ([kv_spec]); the janitor changes no client read at its
    clock or later; and its tombstone, dated when it runs, replaces on
    any peer that merges it every copy not newer than the janitor's clock,
    a newer write not yet received included. *)

From S2P Require Import Prelude Types Wire Codec Expiry Store Merge Cluster Membership Gossip.

(** ** The codec interface *)

(** [type Codec interface { Encode(t interface{}) ([]byte, error);
    Decode(bytea []byte) (interface{}, error) }], a failing call as
    [None]. *)
Class Codec (V : Type) := {
  Encode : V -> option (list byte);
  Decode : list byte -> option V
}.

(** A value that encodes decodes back to itself (every Go slice is shorter
    than [2^64]). *)
Class CodecLaws (V : Type) `{!Codec V} := {
  codec_roundtrip v bs : Encode v = Some bs -> fits bs -> Decode bs = Some v
}.

(** [PutString]/[GetString]: [[]byte(value)] and [string(entry.Value)]. *)
#[export] Instance string_Codec : Codec string := {
  Encode s := Some (str_bytes s);
  Decode bs := Some (Stdlib.Strings.String.string_of_list_byte bs)
}.

(** [testpb.Hello], the message of the tests: [Name], field 1. *)
Module testpb.
Record Hello := mkHello { Name : string }.
End testpb.

Definition zero_Hello : testpb.Hello := testpb.mkHello "".

#[export] Instance Hello_eq_dec : EqDecision testpb.Hello.
Proof. solve_decision. Defined.

(** [proto.Marshal(&testpb.Hello{...})]: the buffer and whether no error
    was reported. *)
Definition Marshal_Hello (h : testpb.Hello) : list byte * bool :=
  emit (opt_string_field 1 (testpb.Name h)).

Definition dec_Hello_field (h : testpb.Hello) (f : field) : option testpb.Hello :=
  match fnum f, fval f with
  | 1, WBytes bs => n ← read_string bs; Some (testpb.mkHello n)
  | _, _ => Some h
  end.

(** [proto.Unmarshal(bytea, dst)]: [dst] reset, then the fields merged. *)
Definition Unmarshal_Hello (bs : list byte) : option testpb.Hello :=
  unmarshal_into dec_Hello_field zero_Hello bs.

(** [PutProto]/[GetProto]: [proto.Marshal] and [proto.Unmarshal]. *)
#[export] Instance Hello_Codec : Codec testpb.Hello := {
  Encode h := let '(bs, ok) := Marshal_Hello h in if ok then Some bs else None;
  Decode := Unmarshal_Hello
}.

(** ** The client calls on a node *)

(** The [Entry] of the client package: [&Entry{Key: key, Value: bytea}]. *)
Record ClientEntry := mkClientEntry { ce_Key : string; ce_Value : list byte }.

(** The errors a client call returns: the engine's, or the codec's. *)
Inductive ClientError := EngineError (e : GoError) | CodecError.

Definition client_entry (e : Entry) : ClientEntry := mkClientEntry (Key e) (Value e).

(** [Put(ctx, entry, expiration)]: the node's [Put]. *)
Definition client_Put (now : GoTime) (entry : ClientEntry) (expiration : Z) (d : Delegate) : Delegate :=
  Put now (ce_Key entry) (ce_Value entry) expiration d.

(** [Get(ctx, key)]: the node's [Get], a tombstone reported as
    [ErrKeyNotFound]. *)
Definition client_Get (now : GoTime) (key : string) (d : Delegate) : ClientError + ClientEntry :=
  match Get now key d with
  | inl err => inl (EngineError err)
  | inr e => if GetArchived e then inl (EngineError ErrKeyNotFound) else inr (client_entry e)
  end.

(** [Exists(ctx, key)] and [Delete(ctx, key)]: the node's. *)
Definition client_Exists (now : GoTime) (key : string) (d : Delegate) : bool := Exists now key d.

Definition client_Delete (now : GoTime) (key : string) (d : Delegate) : Delegate := Delete now key d.

(** [List(ctx)]: the node's [List] without the tombstones. *)
Definition client_List (clk : nat -> GoTime) (d : Delegate) : list ClientEntry :=
  client_entry <$> List.filter (fun e => negb (GetArchived e)) (List clk d).

Section Typed.
Context `{Codec V}.

(** [PutAny(ctx, key, value, expiration)]: encode, then [Put]. *)
Definition PutAny (now : GoTime) (key : string) (v : V) (expiration : Z) (d : Delegate)
    : ClientError + Delegate :=
  match Encode v with
  | Some bs => inr (client_Put now (mkClientEntry key bs) expiration d)
  | None => inl CodecError
  end.

(** [GetAny(ctx, key)]: [Get], then decode the value. *)
Definition GetAny (now : GoTime) (key : string) (d : Delegate) : ClientError + V :=
  match client_Get now key d with
  | inl err => inl err
  | inr e => match Decode (ce_Value e) with Some v => inr v | None => inl CodecError end
  end.

End Typed.

Definition PutString (now : GoTime) (key value : string) (expiration : Z) (d : Delegate) :=
  PutAny now key value expiration d.
Definition GetString (now : GoTime) (key : string) (d : Delegate) : ClientError + string :=
  GetAny now key d.
Definition PutProto (now : GoTime) (key : string) (m : testpb.Hello) (expiration : Z) (d : Delegate) :=
  PutAny now key m expiration d.
Definition GetProto (now : GoTime) (key : string) (d : Delegate) : ClientError + testpb.Hello :=
  GetAny now key d.

(** ** The janitor *)

(** An entry the janitor removes: expired at its clock and not yet a
    tombstone. *)
Definition sweep (now : GoTime) (e : Entry) : bool := expired now e && negb (GetArchived e).

(** The node's own partition. *)
Definition own_partition (d : Delegate) : option NodeState :=
  List.find (fun ns => bool_decide (GetNodeId ns = me d)) (GetNodeStates (fsm d)).

(** The keys the janitor deletes: the swept entries of the own partition,
    in the iteration order of its map. *)
Definition janitor_keys (now : GoTime) (d : Delegate) : list string :=
  match own_partition d with
  | Some ns => (filter (fun ke => sweep now ke.2 = true) (map_to_list (GetEntries ns))).*1
  | None => []
  end.

(** One run of the janitor at clock [now]: [Delete] of each such key
    ([Delete] only touches the node's own partition). *)
Definition janitor (now : GoTime) (d : Delegate) : Delegate :=
  foldl (fun d k => Delete now k d) d (janitor_keys now d).

(** What the janitor leaves of an entry, and of the partitions. *)
Definition swept (now : GoTime) (e : Entry) : Entry := if sweep now e then archive now e else e.

Definition sweep_states (now : GoTime) (me : string) (nss : list NodeState) : list NodeState :=
  (fun ns => if bool_decide (NodeId ns = me)
             then mkNodeState (NodeId ns) (swept now <$> Entries ns) else ns) <$> nss.

(** ** What a client sees of an entry *)

(** The entry as [Get] and [Exists] on the client report it at clock
    [now]: nothing when expired or a tombstone. *)
Definition view_entry (now : GoTime) (e : Entry) : option ClientEntry :=
  if expired now e then None else if GetArchived e then None else Some (client_entry e).

(** The client's [List]: each entry at the clock reading of its turn. *)
Fixpoint visible_list (clk : nat -> GoTime) (i : nat) (l : list Entry) : list ClientEntry :=
  match l with
  | [] => []
  | e :: rest =>
      match view_entry (clk i) e with
      | Some ce => ce :: visible_list clk (S i) rest
      | None => visible_list clk (S i) rest
      end
  end.

(** Two entry lists that every client read at [now] or later sees alike. *)
Definition same_view (now : GoTime) : relation Entry :=
  fun e' e => forall t, GoTime_Unix now <= GoTime_Unix t -> view_entry t e' = view_entry t e.

(** ** A node used alone *)

(** The client calls that write: [Put] without expiry, [Delete]. *)
Inductive kv_op := KPut (key : string) (value : list byte) | KDelete (key : string).

(** One call at the clock reading it takes, and a sequence of calls. *)
Definition client_step (d : Delegate) (o : GoTime * kv_op) : Delegate :=
  match o with
  | (t, KPut k v) => client_Put t (mkClientEntry k v) 0 d
  | (t, KDelete k) => client_Delete t k d
  end.

Definition client_run (d : Delegate) (ops : list (GoTime * kv_op)) : Delegate := foldl client_step d ops.

(** The abstract key/value map the README's calls describe. *)
Definition kv_step (m : gmap string (list byte)) (o : GoTime * kv_op) : gmap string (list byte) :=
  match o.2 with KPut k v => <[k := v]> m | KDelete k => delete k m end.

Definition kv_spec (ops : list (GoTime * kv_op)) : gmap string (list byte) := foldl kv_step ∅ ops.

(** The entries of the only partition represent the map: a live entry
    under its key for each value, a tombstone or nothing elsewhere, and
    no expiry. *)
Definition kv_rep (m : gmap string (list byte)) (E : gmap string Entry) : Prop :=
  forall k, match E !! k with
            | Some e => Expiry e = None /\ Key e = k /\
                        m !! k = if GetArchived e then None else Some (Value e)
            | None => m !! k = None
            end.

Definition kv_inv (d : Delegate) (m : gmap string (list byte)) : Prop :=
  exists ns, NodeStates (fsm d) = [ns] /\ NodeId ns = me d /\ kv_rep m (Entries ns).

(** ** A janitor racing a write *)

(** Node n1 writes "a" with a one-second expiry at second 10; a push/pull
    gives n2 the partition of n1; n2 overwrites the key with "b", without
    expiry, at second 20 (in n1's partition, where the key is); n1 has not
    heard of it when its janitor runs at second 30. *)
Definition jan_t1 : GoTime := mkGoTime 10 0.
Definition jan_t2 : GoTime := mkGoTime 20 0.
Definition jan_t3 : GoTime := mkGoTime 30 0.

Definition jan_sync : Delegate * Delegate :=
  canonical_push_pull false
    (client_Put jan_t1 (mkClientEntry "k" (str_bytes "a")) 1000000000 (newDelegate "n1" meta1))
    (newDelegate "n2" meta2).

Definition jan_n2 : Delegate := client_Put jan_t2 (mkClientEntry "k" (str_bytes "b")) 0 jan_sync.2.

(** n1's copy of "a", and n2's later write "b" in n1's partition. *)
Definition jan_e : Entry := put_entry "k" (str_bytes "a") (timestamppb_New jan_t1) (setExpiry 1000000000).
Definition jan_eb : Entry := put_entry "k" (str_bytes "b") (timestamppb_New jan_t2) (setExpiry 0).

(** n2 after merging the state of n1 whose janitor ran at second 30. *)
Definition jan_n2_merged : Delegate :=
  set_fsm jan_n2 (NodeStates (MergeFSM (fsm jan_n2) (fsm (janitor jan_t3 jan_sync.1)))).

(** ** The instances are lawful *)

#[export] Instance string_CodecLaws : CodecLaws string.
Proof.
  split. intros s bs [= <-] _. cbn. f_equal.
  apply Stdlib.Strings.String.string_of_list_byte_of_string.
Qed.

(** [proto.Marshal] without error leaves the bytes of field 1, which
    [proto.Unmarshal] reads back: the name is UTF-8, or empty. *)
Lemma Hello_roundtrip h bs :
  Marshal_Hello h = (bs, true) -> fits bs -> Unmarshal_Hello bs = Some h.
Proof.
  destruct h as [n]. unfold Marshal_Hello, Unmarshal_Hello. cbn [testpb.Name].
  intros [Hok ->]%emit_true Hfit.
  rewrite <- (app_nil_r (opt_string_field 1 n)), seg_bytes_opt_string_field in *. cbn in *.
  rewrite app_nil_r in *.
  rewrite unmarshal_into_fields by (apply fields_wf; [head_ok|done]).
  unfold opt_string_field, opt_string_fields in *. case_bool_decide as Hn; [by subst|].
  cbn in *. destruct (utf8_valid (str_bytes n)) eqn:Hu; [|done].
  by rewrite read_string_str_bytes.
Qed.

#[export] Instance Hello_CodecLaws : CodecLaws testpb.Hello.
Proof.
  split. intros h bs. cbn. destruct (Marshal_Hello h) as [r []] eqn:E; [|done].
  intros [= <-]. by apply Hello_roundtrip.
Qed.

(** ** Reading what the client wrote *)

(** The entry [Put] installs is live at every clock of the same second,
    and at every clock when no expiry was given. *)
Lemma put_entry_live now now' key value expiration :
  GoTime_wf now ->
  expiration <= 0 \/ GoTime_Unix now' <= GoTime_Unix now ->
  expired now' (put_entry key value (timestamppb_New now) (setExpiry expiration)) = false.
Proof.
  intros Hns Hlive. apply not_true_is_false. rewrite expired_spec.
  unfold put_entry. cbn [LastUpdatedTime Expiry].
  rewrite (AsTime_Unix_New now Hns). intros [[x Hx] Ht].
  destruct Hlive as [Hle%setExpiry_None|Hle]; [congruence|lia].
Qed.

(** A read of the key through the client after a [Put] on the same node. *)
Lemma client_Get_Put now now' key value expiration d :
  delegate_wf d ->
  GoTime_wf now ->
  expiration <= 0 \/ GoTime_Unix now' <= GoTime_Unix now ->
  client_Get now' key (Put now key value expiration d) = inr (mkClientEntry key value).
Proof.
  intros Hwf Hns Hlive. unfold client_Get. rewrite Put_Get by done.
  by rewrite put_entry_live.
Qed.

(** What a client sees of the entry [Put] installs: the value while it
    is live; nothing once it has expired. *)
Lemma view_put_entry_live now now' key value expiration :
  GoTime_wf now ->
  expiration <= 0 \/ GoTime_Unix now' <= GoTime_Unix now ->
  view_entry now' (put_entry key value (timestamppb_New now) (setExpiry expiration)) =
  Some (mkClientEntry key value).
Proof. intros Hns Hlive. unfold view_entry. by rewrite put_entry_live. Qed.

Lemma view_put_entry_expired now now' key value expiration :
  0 < expiration -> GoTime_wf now ->
  0 < GoTime_Unix now < GoTime_Unix now' ->
  view_entry now' (put_entry key value (timestamppb_New now) (setExpiry expiration)) = None.
Proof. intros Hexp Hns Ht. unfold view_entry. by rewrite expired_put_entry. Qed.

(** ** Client reads through [view_entry] *)

Lemma client_Get_view now key d :
  client_Get now key d =
  match get_scan key (GetNodeStates (fsm d)) ≫= view_entry now with
  | Some ce => inr ce | None => inl (EngineError ErrKeyNotFound)
  end.
Proof.
  unfold client_Get, Get, view_entry. destruct (get_scan _ _) as [e|]; [|done]. cbn.
  by destruct (expired now e), (GetArchived e).
Qed.

Lemma client_Exists_view now key d :
  client_Exists now key d = bool_decide (is_Some (get_scan key (GetNodeStates (fsm d)) ≫= view_entry now)).
Proof.
  unfold client_Exists, Exists, view_entry. destruct (get_scan _ _) as [e|]; [|done]. cbn.
  destruct (expired now e), (GetArchived e); cbn; by rewrite ?bool_decide_eq_true_2, ?bool_decide_eq_false_2
    by (rewrite ?is_Some_alt; done).
Qed.

Lemma visible_list_unexpired clk i l :
  client_entry <$> List.filter (fun e => negb (GetArchived e)) (list_unexpired clk i l) =
  visible_list clk i l.
Proof.
  revert i. induction l as [|e l IH]; intros i; [done|]. cbn [list_unexpired visible_list].
  unfold view_entry. destruct (expired (clk i) e); [apply IH|].
  cbn [List.filter]. destruct (GetArchived e); cbn; by rewrite IH.
Qed.

Lemma client_List_view clk d :
  client_List clk d =
  visible_list clk 0 (concat ((fun ns => (map_to_list (GetEntries ns)).*2) <$> GetNodeStates (fsm d))).
Proof. unfold client_List. rewrite List_eq. apply visible_list_unexpired. Qed.

(** ** The janitor as one map over the own partition *)

Lemma foldl_alter_lookup (f : Entry -> Entry) (m : gmap string Entry) ks k :
  NoDup ks ->
  foldl (fun m k => alter f k m) m ks !! k = if bool_decide (k ∈ ks) then f <$> m !! k else m !! k.
Proof.
  revert m. induction ks as [|k0 ks IH]; intros m Hnd; [done|]. apply NoDup_cons in Hnd as [Hk0 Hnd].
  cbn [foldl]. rewrite IH by done. destruct (decide (k = k0)) as [->|Hne].
  - by rewrite lookup_alter_eq, bool_decide_false, bool_decide_true by set_solver.
  - rewrite lookup_alter_ne by done. do 2 case_bool_decide; set_solver.
Qed.

Lemma set_fsm_set_fsm d nss nss' : set_fsm (set_fsm d nss) nss' = set_fsm d nss'.
Proof. done. Qed.

Lemma set_fsm_id d : set_fsm d (NodeStates (fsm d)) = d.
Proof. by destruct d as [? [?] ?]. Qed.

(** [Delete] of each key in turn archives each in the own partition. *)
Lemma janitor_fold_eq now ks d :
  NoDup (node_ids (fsm d)) ->
  foldl (fun d k => Delete now k d) d ks =
  set_fsm d ((fun ns => if bool_decide (NodeId ns = me d)
                        then mkNodeState (NodeId ns) (foldl (fun m k => alter (archive now) k m) (Entries ns) ks)
                        else ns) <$> NodeStates (fsm d)).
Proof.
  revert d. induction ks as [|k ks IH]; intros d Hnd; cbn [foldl].
  - rewrite <- (set_fsm_id d) at 1. f_equal. symmetry. apply map_fmap_id_in.
    intros [n m] _. by case_bool_decide.
  - rewrite IH by (rewrite Delete_node_ids; done).
    unfold Delete, GetNodeStates. cbn [fsm me set_fsm NodeStates]. rewrite delete_scan_eq by done.
    rewrite set_fsm_set_fsm, <- list_fmap_compose. f_equal.
    apply list_fmap_ext. intros _ ns _. unfold compose.
    destruct (decide (NodeId ns = me d)) as [H|H].
    + rewrite (bool_decide_true (NodeId ns = me d)) by done. cbn. by rewrite bool_decide_true.
    + by rewrite !(bool_decide_false (NodeId ns = me d)) by done.
Qed.

Lemma own_partition_eq d ns :
  NoDup (node_ids (fsm d)) -> ns ∈ NodeStates (fsm d) -> NodeId ns = me d -> own_partition d = Some ns.
Proof.
  unfold own_partition, node_ids, GetNodeStates, GetNodeId.
  generalize (NodeStates (fsm d)). intros nss Hnd Hin Hid. induction nss as [|ns' nss IH]; [set_solver|].
  rewrite fmap_cons in Hnd. apply NoDup_cons in Hnd as [Hn Hnd]. cbn. case_bool_decide as Hid'.
  - f_equal. apply elem_of_cons in Hin as [->|Hin]; [done|].
    destruct Hn. rewrite Hid'. rewrite <- Hid. by apply list_elem_of_fmap_2.
  - apply elem_of_cons in Hin as [->|Hin]; [done|]. by apply IH.
Qed.

Lemma janitor_keys_NoDup now (m : gmap string Entry) :
  NoDup (filter (fun ke => sweep now ke.2 = true) (map_to_list m)).*1.
Proof.
  apply NoDup_fmap_fst; [|apply NoDup_filter, NoDup_map_to_list].
  intros k e1 e2 [_ H1]%list_elem_of_filter [_ H2]%list_elem_of_filter.
  apply elem_of_map_to_list in H1, H2. congruence.
Qed.

(** The janitor archives, in the node's own partition, exactly the
    entries it sweeps. *)
Lemma janitor_eq now d :
  NoDup (node_ids (fsm d)) ->
  janitor now d = set_fsm d (sweep_states now (me d) (NodeStates (fsm d))).
Proof.
  intros Hnd. unfold janitor, sweep_states. rewrite janitor_fold_eq by done. f_equal.
  apply list_fmap_ext. intros _ ns Hin%list_elem_of_lookup_2. case_bool_decide as Hid; [|done].
  f_equal. unfold janitor_keys. rewrite (own_partition_eq d ns) by done.
  apply map_eq. intros k. rewrite foldl_alter_lookup by apply janitor_keys_NoDup.
  rewrite lookup_fmap. unfold GetEntries. destruct (Entries ns !! k) as [e|] eqn:E; cbn.
  - unfold swept. case_bool_decide as Hk.
    + apply list_elem_of_fmap in Hk as ([k' e'] & -> & [He' Hin']%list_elem_of_filter).
      apply elem_of_map_to_list in Hin'. cbn in *. rewrite E in Hin'. injection Hin' as ->.
      by rewrite He'.
    + destruct (sweep now e) eqn:Hs; [|done]. destruct Hk.
      apply list_elem_of_fmap. exists (k, e). split; [done|].
      apply list_elem_of_filter. split; [done|]. by apply elem_of_map_to_list.
  - by case_bool_decide.
Qed.

(** The janitor keeps the node ids, sweeps the own partition and leaves
    every other partition as it was. *)
Lemma sweep_states_ids now me nss : NodeId <$> sweep_states now me nss = NodeId <$> nss.
Proof.
  unfold sweep_states. rewrite <-list_fmap_compose. apply list_fmap_ext. intros _ ns _. cbn. by case_bool_decide.
Qed.

Lemma janitor_NoDup now d : delegate_wf d -> NoDup (node_ids (fsm (janitor now d))).
Proof.
  intros [Hnd _]. rewrite janitor_eq by done. unfold node_ids. cbn [fsm set_fsm NodeStates].
  by rewrite sweep_states_ids.
Qed.

Lemma view_janitor_me now d L :
  delegate_wf d -> view (fsm d) !! me d = Some L ->
  view (fsm (janitor now d)) !! me d = Some (swept now <$> L).
Proof.
  intros Hwf HL. apply view_lookup in HL as (ns & Hin & Hid & <-); [|apply Hwf].
  apply view_lookup; [by apply janitor_NoDup|]. rewrite janitor_eq by apply Hwf.
  exists (mkNodeState (NodeId ns) (swept now <$> Entries ns)). split; [|done].
  cbn [fsm set_fsm NodeStates]. apply list_elem_of_fmap. exists ns. by rewrite bool_decide_true.
Qed.

Lemma entry_at_janitor_other now d n k :
  delegate_wf d -> n <> me d ->
  entry_at (view (fsm (janitor now d))) n k = entry_at (view (fsm d)) n k.
Proof.
  unfold janitor. generalize (janitor_keys now d) as ks. intros ks.
  induction ks as [|k' ks IH] in d |- *; intros Hwf Hne; [done|]. cbn [foldl].
  rewrite IH; [by apply entry_at_Delete_other|by apply Delete_wf|done].
Qed.

(** ** The janitor is invisible to the client *)

(** A swept entry was already invisible, and stays so as a tombstone. *)
Lemma swept_view now t e :
  GoTime_Unix now <= GoTime_Unix t -> view_entry t (swept now e) = view_entry t e.
Proof.
  intros Ht. unfold swept, sweep. destruct (expired now e) eqn:Ex; [|done].
  destruct (GetArchived e) eqn:Ha; [done|]. cbn.
  assert (Ht' : expired t e = true).
  { apply expired_spec in Ex as [Hs Hlt]. apply expired_spec. split; [done|lia]. }
  unfold view_entry. rewrite Ht'. by destruct (expired t (archive now e)).
Qed.

Lemma get_scan_sweep now t key me nss :
  GoTime_Unix now <= GoTime_Unix t ->
  get_scan key (sweep_states now me nss) ≫= view_entry t = get_scan key nss ≫= view_entry t.
Proof.
  intros Ht. induction nss as [|ns nss IH]; [done|]. unfold sweep_states in *.
  rewrite fmap_cons, !get_scan_cons. case_bool_decide; cbn [Entries]; [rewrite lookup_fmap|];
    destruct (Entries ns !! key); cbn; auto using swept_view.
Qed.

Lemma visible_list_same now clk i l' l :
  (forall i, GoTime_Unix now <= GoTime_Unix (clk i)) -> Forall2 (same_view now) l' l ->
  visible_list clk i l' = visible_list clk i l.
Proof.
  intros Hclk Hl. revert i. induction Hl as [|e' e l' l He Hl IH]; intros i; [done|].
  cbn. by rewrite He, IH.
Qed.

Lemma sweep_states_entries now me nss :
  Forall2 (same_view now)
    (concat ((fun ns => (map_to_list (GetEntries ns)).*2) <$> sweep_states now me nss))
    (concat ((fun ns => (map_to_list (GetEntries ns)).*2) <$> nss)).
Proof.
  induction nss as [|ns nss IH]; [constructor|]. unfold sweep_states in *.
  rewrite !fmap_cons. cbn [concat]. apply Forall2_app; [|done].
  unfold GetEntries. case_bool_decide; cbn [Entries].
  - rewrite map_to_list_fmap, <- list_fmap_compose.
    replace (snd ∘ prod_map id (swept now)) with (swept now ∘ @snd string Entry) by done.
    rewrite list_fmap_compose. apply Forall2_fmap_l, Forall_Forall2_diag, Forall_forall.
    intros e _ t. apply swept_view.
  - apply Forall_Forall2_diag, Forall_forall. by intros e _ t _.
Qed.

(** ** Theorems *)

(** C14. The client's typed round trip, for every codec that satisfies the
    round-trip law (the Go string and [testpb.Hello] instances do): a
    value stored with [PutAny] on a well-formed node is read back by
    [GetAny] on that node, at any later clock when no expiry was given,
    and within the same second otherwise. *)
Theorem GetAny_PutAny `{CodecLaws V} now now' key (v : V) expiration d d' :
  delegate_wf d -> GoTime_wf now ->
  (forall bs, Encode v = Some bs -> fits bs) ->
  expiration <= 0 \/ GoTime_Unix now' <= GoTime_Unix now ->
  PutAny now key v expiration d = inr d' ->
  GetAny now' key d' = inr v.
Proof.
  intros Hwf Hns Hfit Hlive. unfold PutAny, GetAny.
  destruct (Encode v) as [bs|] eqn:E; [|done]. intros [= <-]. unfold client_Put.
  rewrite client_Get_Put by done. cbn. by rewrite (codec_roundtrip v bs E (Hfit bs eq_refl)).
Qed.

(** C15. A missing key, a tombstone and an expired entry look alike to the
    client: [GetAny] fails with [ErrKeyNotFound] exactly when [Exists] is
    false; otherwise it returns the decoded value or the codec's error. *)
Theorem GetAny_not_found_iff `{Codec V} now key d :
  GetAny (V:=V) now key d = inl (EngineError ErrKeyNotFound) <-> client_Exists now key d = false.
Proof.
  unfold GetAny. rewrite client_Get_view, client_Exists_view.
  destruct (_ ≫= view_entry now) as [ce|]; cbn; [|done].
  by destruct (Decode (ce_Value ce)).
Qed.

(** C17. The janitor is invisible to the client: on a well-formed node,
    after a run of the janitor at clock [now], every [Get] and [Exists]
    at [now] or later, and every [List] whose clock readings are [now] or
    later, returns what it would have returned without the run. *)
Theorem janitor_unobservable now t key clk d :
  delegate_wf d -> GoTime_Unix now <= GoTime_Unix t ->
  (forall i, GoTime_Unix now <= GoTime_Unix (clk i)) ->
  client_Get t key (janitor now d) = client_Get t key d /\
  client_Exists t key (janitor now d) = client_Exists t key d /\
  client_List clk (janitor now d) = client_List clk d.
Proof.
  intros [Hnd _] Ht Hclk. rewrite janitor_eq by done.
  rewrite !client_Get_view, !client_Exists_view, !client_List_view. unfold GetNodeStates.
  cbn [set_fsm fsm NodeStates]. rewrite !get_scan_sweep by done.
  split_and!; [done|done|]. eapply visible_list_same; [done|]. apply sweep_states_entries.
Qed.

(** C18. The janitor loses every write it has not yet received: its
    [Delete] dates the tombstone with the janitor's clock, not with the
    entry's.  Let the janitor of node [a] sweep its expired copy [e] of
    [key] at clock [now], and let a peer [p] hold, in [a]'s partition, any
    copy [ep] not newer than [now], a live write made after [e] included.
    When [p] merges [a]'s state, the tombstone replaces [ep]; and when no
    other partition holds [key], the peer's client [Get] reports
    [ErrKeyNotFound] at every clock: the write is lost. *)
Theorem janitor_overrides_newer_write (a p p' : Delegate) now t key e ep :
  delegate_wf a -> GoTime_wf now ->
  entry_at (view (fsm a)) (me a) key = Some e -> sweep now e = true ->
  entry_at (view (fsm p)) (me a) key = Some ep ->
  AsTime_Unix (LastUpdatedTime ep) <= GoTime_Unix now ->
  (forall n, n <> me a -> entry_at (view (fsm a)) n key = None /\ entry_at (view (fsm p)) n key = None) ->
  merge_step p (fsm (janitor now a)) p' ->
  entry_at (view (fsm p')) (me a) key = Some (archive now e) /\
  client_Get t key p' = inl (EngineError ErrKeyNotFound).
Proof.
  intros Hwf Hns He Hs Hp Hle Hother (result & Hm & ->).
  destruct (MergeFSM_view _ _ _ (janitor_NoDup now a Hwf) Hm) as [Hnd Hv].
  assert (Hk : forall n k, entry_at (view result) n k =
    lww (entry_at (view (fsm p)) n k) (entry_at (view (fsm (janitor now a))) n k)).
  { intros n k. rewrite Hv. apply merge_view_entry_at. }
  assert (Hj : entry_at (view (fsm (janitor now a))) (me a) key = Some (archive now e)).
  { unfold entry_at in *. destruct (view (fsm a) !! me a) as [L|] eqn:HL; [|done].
    rewrite (view_janitor_me now a L Hwf HL). cbn in *. rewrite lookup_fmap, He. cbn. unfold swept. by rewrite Hs. }
  assert (Hres : entry_at (view result) (me a) key = Some (archive now e)).
  { rewrite Hk, Hj, Hp. apply lww_remote_wins. unfold archive; cbn [LastUpdatedTime].
    rewrite AsTime_Unix_New by done. lia. }
  split; [done|].
  rewrite client_Get_view. unfold GetNodeStates. cbn [fsm set_fsm NodeStates].
  rewrite (get_scan_view result key (archive now e)); [unfold view_entry; cbn; by destruct (expired _ _) | done | | eauto].
  intros n e' Hn'. destruct (decide (n = me a)) as [->|Hne]; [congruence|].
  rewrite Hk, entry_at_janitor_other in Hn' by done.
  destruct (Hother n Hne) as [Ha Hp']. rewrite Hp', Ha in Hn'. done.
Qed.

(** ** Witnesses *)

(** "With PutProto GetProto with expiration" on one node, read in the
    second of the write: the message comes back. *)
Lemma GetAny_PutAny_witness :
  exists d', PutProto jan_t1 "my-key" (testpb.mkHello "my-key") 100000000 (newDelegate "n2" meta2) = inr d' /\
             GetProto (mkGoTime 10 900000000) "my-key" d' = inr (testpb.mkHello "my-key").
Proof.
  eexists. split; [reflexivity|].
  apply (GetAny_PutAny jan_t1 (mkGoTime 10 900000000) "my-key" (testpb.mkHello "my-key") 100000000
           (newDelegate "n2" meta2)).
  - apply newDelegate_wf.
  - unfold GoTime_wf, int64_range. cbn. lia.
  - intros bs [= <-]. unfold fits. vm_compute. reflexivity.
  - right. cbn. lia.
  - reflexivity.
Defined.

(** The janitor of n1 at second 30, seen by reads at second 30. *)
Lemma janitor_unobservable_witness :
  client_Get jan_t3 "k" (janitor jan_t3 jan_sync.1) = client_Get jan_t3 "k" jan_sync.1 /\
  client_Exists jan_t3 "k" (janitor jan_t3 jan_sync.1) = client_Exists jan_t3 "k" jan_sync.1 /\
  client_List (fun _ => jan_t3) (janitor jan_t3 jan_sync.1) = client_List (fun _ => jan_t3) jan_sync.1.
Proof.
  apply (janitor_unobservable jan_t3 jan_t3 "k" (fun _ => jan_t3) jan_sync.1).
  - split; [apply (bool_decide_unpack (NoDup (node_ids (fsm jan_sync.1))))
           |apply (bool_decide_unpack (me jan_sync.1 ∈ node_ids (fsm jan_sync.1)))];
      vm_compute; reflexivity.
  - lia.
  - intros _. lia.
Defined.

Lemma view_jan_sync1 : view (fsm jan_sync.1) = <["n1" := {["k" := jan_e]}]> {["n2" := ∅]}.
Proof. vm_compute. reflexivity. Qed.

Lemma view_jan_n2 : view (fsm jan_n2) = <["n1" := {["k" := jan_eb]}]> {["n2" := ∅]}.
Proof. vm_compute. reflexivity. Qed.

Lemma entry_at_jan_other (L : gmap string Entry) n :
  n <> "n1" -> entry_at (<["n1" := L]> {["n2" := ∅]}) n "k" = None.
Proof.
  intros Hn. unfold entry_at. rewrite lookup_insert_ne by done.
  destruct (decide (n = "n2")) as [->|Hn2]; [by rewrite lookup_singleton_eq|by rewrite lookup_singleton_ne].
Qed.

(** The janitor of n1 at second 30 and n2's write "b" of second 20:
    after n2 merges n1's state, "b" is gone. *)
Lemma janitor_overrides_newer_write_witness :
  entry_at (view (fsm jan_n2_merged)) "n1" "k" = Some (archive jan_t3 jan_e) /\
  client_Get jan_t3 "k" jan_n2_merged = inl (EngineError ErrKeyNotFound).
Proof.
  apply (janitor_overrides_newer_write jan_sync.1 jan_n2 jan_n2_merged jan_t3 jan_t3 "k" jan_e jan_eb).
  - split; [apply (bool_decide_unpack (NoDup (node_ids (fsm jan_sync.1))))
           |apply (bool_decide_unpack (me jan_sync.1 ∈ node_ids (fsm jan_sync.1)))];
      vm_compute; reflexivity.
  - unfold GoTime_wf, int64_range. cbn. lia.
  - rewrite view_jan_sync1. reflexivity.
  - vm_compute. reflexivity.
  - rewrite view_jan_n2. reflexivity.
  - vm_compute. discriminate.
  - intros n Hn. rewrite view_jan_sync1, view_jan_n2. split; by apply entry_at_jan_other.
  - eexists. split; [apply MergeFSM_rel_MergeFSM | reflexivity].
Defined.

(** ** A node used alone is a key/value map *)

Lemma kv_rep_insert m E k v ts :
  kv_rep m E -> kv_rep (<[k := v]> m) (<[k := put_entry k v ts None]> E).
Proof.
  intros Hr k'. destruct (decide (k' = k)) as [->|Hne].
  - by rewrite !lookup_insert_eq.
  - rewrite !lookup_insert_ne by done. apply Hr.
Qed.

Lemma kv_rep_delete m E k t :
  kv_rep m E -> kv_rep (delete k m) (alter (archive t) k E).
Proof.
  intros Hr k'. specialize (Hr k'). destruct (decide (k' = k)) as [->|Hne].
  - rewrite lookup_alter_eq, lookup_delete_eq. by destruct (E !! k) as [e|]; cbn; [destruct Hr as (? & ? & _)|].
  - by rewrite lookup_alter_ne, lookup_delete_ne by done.
Qed.

Lemma kv_inv_step d m o : kv_inv d m -> kv_inv (client_step d o) (kv_step m o).
Proof.
  intros (ns & Hns & Hid & Hr). destruct o as [t [k v|k]]; cbn [client_step kv_step snd].
  - unfold client_Put. rewrite Put_fmap by (unfold node_ids; rewrite Hns; apply NoDup_singleton).
    cbn [set_fsm fsm NodeStates me]. rewrite Hns. unfold put_target. cbn.
    rewrite (bool_decide_true (NodeId ns = me d)) by done.
    replace (setExpiry 0) with (@None Duration) by done.
    destruct (holds k ns); (eexists; split_and!; [done|done|by apply kv_rep_insert]).
  - unfold client_Delete, Delete, GetNodeStates. rewrite Hns, delete_scan_eq by apply NoDup_singleton.
    cbn. rewrite bool_decide_true by done. eexists. split_and!; [done|done|]. by apply kv_rep_delete.
Qed.

Lemma kv_inv_run d m ops : kv_inv d m -> kv_inv (client_run d ops) (foldl kv_step m ops).
Proof.
  revert d m. induction ops as [|o ops IH]; intros d m H; [done|]. apply IH, kv_inv_step, H.
Qed.

(** C16. A node used alone behaves as a key/value map: after any sequence
    of client [Put]s without expiry and [Delete]s on a fresh node, at any
    clocks, [Get] returns the value the map holds for the key and
    [ErrKeyNotFound] when it holds none, and [Exists] says whether it
    holds one. *)
Theorem client_refines_kv_map name meta ops now key :
  client_Get now key (client_run (newDelegate name meta) ops) =
    match kv_spec ops !! key with
    | Some v => inr (mkClientEntry key v) | None => inl (EngineError ErrKeyNotFound)
    end /\
  client_Exists now key (client_run (newDelegate name meta) ops) = bool_decide (is_Some (kv_spec ops !! key)).
Proof.
  destruct (kv_inv_run (newDelegate name meta) ∅ ops) as (ns & Hns & _ & Hr).
  { exists (mkNodeState name ∅). split_and!; [done|done|]. intros k. by rewrite !lookup_empty. }
  rewrite client_Get_view, client_Exists_view. unfold GetNodeStates, kv_spec. rewrite Hns, get_scan_cons.
  specialize (Hr key). destruct (Entries ns !! key) as [e|]; cbn; [|by rewrite Hr].
  destruct Hr as (Hx & Hk & ->). unfold view_entry, expired, GetExpiry. rewrite Hx.
  unfold client_entry. rewrite Hk. by destruct (GetArchived e).
Qed.
