(* ===== verification/Scenarios.v ===== *)
(** * Scenarios: the end-to-end tests of client_test.go

    [src/unnamed/part_000] holds [TestClient], five subtests that start two
    nodes, write a key on node 2 through the client, pause for a second
    (memberlist runs its push/pull meanwhile) and read the key on node 1.
    The client adapter and memberlist are not among the sources: a client
    call is the engine operation it projects to, and the push/pull is one
    exchange in which node 1 merges the bytes of node 2's [LocalState]
    ([Membership.v]).

    The theorems say which subtests pass on every such run: the two
    without expiry always see the value written; the three with an
    expiry of 100 ms always see [ErrKeyNotFound], and they would for any
    positive expiry, an hour as well, so they cannot detect that
    [expired] ignores the duration (the expiry finding of [Store.v]). *)

From S2P Require Import Prelude Types Wire Codec Expiry Store Merge Cluster Membership Gossip Client.

(** [NoExpiration] of the client package, and [time.Millisecond] in
    nanoseconds. *)
Definition NoExpiration : Z := 0.
Definition Millisecond : Z := 1000000.

(** [proto.Marshal(&testpb.Hello{Name: name})]: field 1, a string. *)
Definition Hello_bytes (name : string) : list byte := (emit (opt_string_field 1 name)).1.

(** The run of a subtest: node 2 ([newDelegate n2 m2]) puts [key] at clock
    [now]; memberlist's push/pull hands node 2's [LocalState], its maps
    ranged in the orders [parts], to node 1's [MergeRemoteState]; node 1 is
    then [node1']. *)
Definition client_test_run (n1 n2 : string) (m1 m2 : NodeMeta) (key : string)
    (value : list byte) (expiration : Z) (now : GoTime) (join : bool)
    (parts : list (NodeState * list (string * Entry))) (node1' : Delegate) : Prop :=
  ranges_of (fsm (Put now key value expiration (newDelegate n2 m2))) parts /\
  Callbacks.MergeRemoteState_rel (Callbacks.LocalState join parts) join (newDelegate n1 m1) node1'.

(** The checks of the subtests without expiry on node 1 at clock [now']:
    [Exists] is true and [Get] returns the value written. *)
Definition expect_replicated (now' : GoTime) (key : string) (value : list byte)
    (node1 : Delegate) : bool :=
  Exists now' key node1 &&
  match Get now' key node1 with inr e => bool_decide (Value e = value) | inl _ => false end.

(** The checks of the subtests with expiry: [Exists] is false and [Get]
    fails with [ErrKeyNotFound]. *)
Definition expect_not_found (now' : GoTime) (key : string) (node1 : Delegate) : bool :=
  negb (Exists now' key node1) &&
  match Get now' key node1 with inl ErrKeyNotFound => true | inr _ => false end.

(** The subtests, each with the value its client call writes. *)
Definition PutProto_GetProto_value : list byte := Hello_bytes "".
Definition PutString_GetString_value : list byte := str_bytes "my-value".
Definition PutProto_GetProto_expiration_value : list byte := Hello_bytes "my-key".
Definition PutString_GetString_expiration_value : list byte := str_bytes "my-value".
Definition Put_Get_expiration_value : list byte := Hello_bytes "my-key".
Definition test_expiration : Z := 100 * Millisecond.

(** ** The subtests through the client *)

(** The push/pull of a subtest: node 2, after its client call, hands the
    bytes of its [LocalState] (maps ranged in the orders [parts]) to node
    1's [MergeRemoteState]; node 1 is then [node1']. *)
Definition pushpull_run (n1 : string) (m1 : NodeMeta) (node2 : Delegate) (join : bool)
    (parts : list (NodeState * list (string * Entry))) (node1' : Delegate) : Prop :=
  ranges_of (fsm node2) parts /\
  Callbacks.MergeRemoteState_rel (Callbacks.LocalState join parts) join (newDelegate n1 m1) node1'.

(** A subtest passes: the client call on a fresh node 2 returns no error
    ([require.NoError]), and the checks on node 1 hold after every
    push/pull. *)
Definition subtest_passes (put : Delegate -> ClientError + Delegate) (check : Delegate -> bool)
    (n1 n2 : string) (m1 m2 : NodeMeta) : Prop :=
  exists node2, put (newDelegate n2 m2) = inr node2 /\
  forall join parts node1', fits (seg_bytes (enc_FSM parts)) ->
    pushpull_run n1 m1 node2 join parts node1' -> check node1' = true.

(** "With PutProto GetProto": [Exists] is true, [GetProto] returns no
    error and a message [proto.Equal] to the one written. *)
Definition With_PutProto_GetProto (n1 n2 : string) (m1 m2 : NodeMeta) (now now' : GoTime) : Prop :=
  subtest_passes (PutProto now "my-key" zero_Hello NoExpiration)
    (fun node1 => client_Exists now' "my-key" node1 &&
       match GetProto now' "my-key" node1 with inr h => bool_decide (h = zero_Hello) | inl _ => false end)
    n1 n2 m1 m2.

(** "With PutString GetString": [Exists] is true, [GetString] returns no
    error and a non-empty string equal to the one written. *)
Definition With_PutString_GetString (n1 n2 : string) (m1 m2 : NodeMeta) (now now' : GoTime) : Prop :=
  subtest_passes (PutString now "my-key" "my-value" NoExpiration)
    (fun node1 => client_Exists now' "my-key" node1 &&
       match GetString now' "my-key" node1 with
       | inr s => negb (bool_decide (s = "")) && bool_decide (s = "my-value")
       | inl _ => false
       end)
    n1 n2 m1 m2.

(** The error checks of the expiration subtests: [ErrKeyNotFound]. *)
Definition is_not_found {A} (r : ClientError + A) : bool :=
  match r with inl (EngineError ErrKeyNotFound) => true | _ => false end.

(** "With PutProto GetProto with expiration". *)
Definition With_PutProto_GetProto_expiration (n1 n2 : string) (m1 m2 : NodeMeta) (now now' : GoTime) : Prop :=
  subtest_passes (PutProto now "my-key" (testpb.mkHello "my-key") test_expiration)
    (fun node1 => negb (client_Exists now' "my-key" node1) && is_not_found (GetProto now' "my-key" node1))
    n1 n2 m1 m2.

(** "With PutString GetString with expiration". *)
Definition With_PutString_GetString_expiration (n1 n2 : string) (m1 m2 : NodeMeta) (now now' : GoTime) : Prop :=
  subtest_passes (PutString now "my-key" "my-value" test_expiration)
    (fun node1 => negb (client_Exists now' "my-key" node1) && is_not_found (GetString now' "my-key" node1))
    n1 n2 m1 m2.

(** "With Put Get with expiration": [proto.Marshal] of the message
    ([require.NoError]), then [Put] of the [Entry]; [Get] returns nil and
    [ErrKeyNotFound]. *)
Definition With_Put_Get_expiration (n1 n2 : string) (m1 m2 : NodeMeta) (now now' : GoTime) : Prop :=
  subtest_passes
    (fun d => match Marshal_Hello (testpb.mkHello "my-key") with
              | (bytea, true) => inr (client_Put now (mkClientEntry "my-key" bytea) test_expiration d)
              | (_, false) => inl CodecError
              end)
    (fun node1 => negb (client_Exists now' "my-key" node1) && is_not_found (client_Get now' "my-key" node1))
    n1 n2 m1 m2.

(** [TestClient]: the five subtests, node 2 writing at [now] and node 1
    reading at [now'] after the pause. *)
Definition TestClient (n1 n2 : string) (m1 m2 : NodeMeta) (now now' : GoTime) : Prop :=
  With_PutProto_GetProto n1 n2 m1 m2 now now' /\
  With_PutString_GetString n1 n2 m1 m2 now now' /\
  With_PutProto_GetProto_expiration n1 n2 m1 m2 now now' /\
  With_PutString_GetString_expiration n1 n2 m1 m2 now now' /\
  With_Put_Get_expiration n1 n2 m1 m2 now now'.

(** ** Node 2 after its write *)

Section Run.
Context (n1 n2 : string) (m1 m2 : NodeMeta) (key : string) (value : list byte)
        (expiration : Z) (now : GoTime).

Let e := put_entry key value (timestamppb_New now) (setExpiry expiration).

Hypothesis Hn2 : utf8_valid (str_bytes n2) = true.
Hypothesis Hkey : utf8_valid (str_bytes key) = true.
Hypothesis Hnow : GoTime_wf now.
Hypothesis Hexp : 0 < expiration -> int64_range expiration.

Hypothesis Hne : n1 <> n2.

(** After the push/pull, the only entry node 1 holds for [key] is node 2's,
    in node 2's partition: the scan of [Get] and [Exists] finds it. *)
Lemma client_test_get join parts node1' :
  fits (seg_bytes (enc_FSM parts)) ->
  client_test_run n1 n2 m1 m2 key value expiration now join parts node1' ->
  get_scan key (NodeStates (fsm node1')) = Some e.
Proof.
  intros Hfit [Hr Hm].
  unfold Callbacks.MergeRemoteState_rel, Callbacks.LocalState in Hm.
  rewrite (FSM_wire_roundtrip _ parts Hr
             (Put_newDelegate_wire_ok n2 m2 key value expiration now Hn2 Hkey Hnow Hexp) Hfit) in Hm.
  destruct Hm as (result & Hm & ->).
  assert (Hnd : NoDup (node_ids (fsm (Put now key value expiration (newDelegate n2 m2))))).
  { unfold node_ids. rewrite Put_newDelegate. apply NoDup_singleton. }
  destruct (MergeFSM_view _ _ _ Hnd Hm) as [Hnd' Hv].
  assert (Hview : view (fsm (Put now key value expiration (newDelegate n2 m2))) =
                  {[n2 := {[key := e]}]}).
  { rewrite view_index_states. unfold index_states. rewrite Put_newDelegate. reflexivity. }
  assert (Hat : forall n, entry_at (view result) n key = if bool_decide (n = n2) then Some e else None).
  { intros n. rewrite Hv, merge_view_entry_at, Hview. unfold entry_at. cbn.
    case_bool_decide as Hn; [subst n; rewrite lookup_singleton_eq; cbn|].
    - rewrite lookup_insert_ne by done. cbn. by rewrite lookup_singleton_eq.
    - rewrite lookup_singleton_ne by done. cbn.
      destruct (decide (n = n1)) as [->|Hn1]; [by rewrite lookup_insert_eq|].
      by rewrite lookup_insert_ne by done. }
  unfold set_fsm, GetNodeStates. cbn [fsm NodeStates].
  apply (get_scan_view result key e Hnd').
  - intros n e' He'. rewrite Hat in He'. case_bool_decide; congruence.
  - exists n2. rewrite Hat. by rewrite bool_decide_true.
Qed.

End Run.

(** The entry node 1 finds after the push/pull of a subtest. *)
Lemma subtest_get n1 n2 m1 m2 key bs expiration now join parts node1' :
  n1 <> n2 -> utf8_valid (str_bytes n2) = true -> utf8_valid (str_bytes key) = true ->
  GoTime_wf now -> 0 <= expiration <= 2 ^ 63 - 1 -> fits (seg_bytes (enc_FSM parts)) ->
  pushpull_run n1 m1 (client_Put now (mkClientEntry key bs) expiration (newDelegate n2 m2)) join parts node1' ->
  get_scan key (GetNodeStates (fsm node1')) = Some (put_entry key bs (timestamppb_New now) (setExpiry expiration)).
Proof.
  intros Hne Hn2 Hk Hnow Hexp Hfit Hrun.
  apply (client_test_get n1 n2 m1 m2 key bs expiration now Hn2 Hk Hnow
           (fun _ => ltac:(unfold int64_range; lia)) Hne join parts node1' Hfit Hrun).
Qed.

(** The client's [Exists] and [Get] on node 1 then read that entry. *)
Lemma reads_of_entry now' key node1 e :
  get_scan key (GetNodeStates (fsm node1)) = Some e ->
  client_Exists now' key node1 = bool_decide (is_Some (view_entry now' e)) /\
  client_Get now' key node1 =
  match view_entry now' e with Some ce => inr ce | None => inl (EngineError ErrKeyNotFound) end.
Proof. intros H. by rewrite client_Exists_view, client_Get_view, H. Qed.

Lemma Marshal_Hello_zero : Marshal_Hello zero_Hello = ([], true).
Proof. reflexivity. Qed.

Lemma Marshal_Hello_my_key : Marshal_Hello (testpb.mkHello "my-key") = (Hello_bytes "my-key", true).
Proof. reflexivity. Qed.

(** A subtest whose client call is a [Put] of [bs] passes when its check
    holds of every node that reads the entry [Put] installed. *)
Lemma subtest_passes_Put put check n1 n2 m1 m2 key bs expiration now :
  n1 <> n2 -> utf8_valid (str_bytes n2) = true -> utf8_valid (str_bytes key) = true ->
  GoTime_wf now -> 0 <= expiration <= 2 ^ 63 - 1 ->
  (forall d, put d = inr (client_Put now (mkClientEntry key bs) expiration d)) ->
  (forall node1, get_scan key (GetNodeStates (fsm node1)) =
                 Some (put_entry key bs (timestamppb_New now) (setExpiry expiration)) ->
                 check node1 = true) ->
  subtest_passes put check n1 n2 m1 m2.
Proof.
  intros Hne Hn2 Hk Hnow Hexp Hput Hcheck. eexists. split; [apply Hput|].
  intros join parts node1' Hfit Hrun. apply Hcheck. by eapply subtest_get.
Qed.

(** ** The subtests *)

(** The two subtests without expiry ("With PutProto GetProto", "With
    PutString GetString", lines 43-107) pass on every run: whatever the
    clocks, the value and the order in which node 2's maps are ranged,
    once node 1 has merged node 2's [LocalState], [Exists] is true and
    [Get] returns the value written (provided the names and the key are
    UTF-8, which the marshal needs). *)
Theorem client_test_replicates n1 n2 m1 m2 key value now now' join parts node1' :
  n1 <> n2 -> utf8_valid (str_bytes n2) = true -> utf8_valid (str_bytes key) = true ->
  GoTime_wf now -> fits (seg_bytes (enc_FSM parts)) ->
  client_test_run n1 n2 m1 m2 key value NoExpiration now join parts node1' ->
  expect_replicated now' key value node1' = true.
Proof.
  intros Hne Hn2 Hk Hnow Hfit Hrun. unfold expect_replicated, Exists, Get, GetNodeStates.
  rewrite (client_test_get n1 n2 m1 m2 key value NoExpiration now Hn2 Hk Hnow
             ltac:(unfold NoExpiration; lia) Hne join parts node1' Hfit Hrun).
  cbn. by rewrite bool_decide_true.
Qed.

(** C13. The three subtests with an expiry ("... with expiration", lines
    108-219) pass on every run in which the reads come in a later second
    than the write (the test pauses a second), for every positive
    expiry, the test's 100 ms or an hour alike: [Exists] is false and
    [Get] fails with [ErrKeyNotFound].  The subtests therefore cannot
    tell an expiry that is honoured from one that is ignored. *)
Theorem client_test_expiry_any_duration n1 n2 m1 m2 key value expiration now now' join parts node1' :
  n1 <> n2 -> utf8_valid (str_bytes n2) = true -> utf8_valid (str_bytes key) = true ->
  GoTime_wf now -> 0 < expiration -> int64_range expiration ->
  0 < GoTime_Unix now < GoTime_Unix now' -> fits (seg_bytes (enc_FSM parts)) ->
  client_test_run n1 n2 m1 m2 key value expiration now join parts node1' ->
  expect_not_found now' key node1' = true.
Proof.
  intros Hne Hn2 Hk Hnow Hexp Hr Ht Hfit Hrun. unfold expect_not_found, Exists, Get, GetNodeStates.
  rewrite (client_test_get n1 n2 m1 m2 key value expiration now Hn2 Hk Hnow
             (fun _ => Hr) Hne join parts node1' Hfit Hrun).
  rewrite expired_put_entry; [done|done|apply Hnow|done].
Qed.

(** ** Witnesses: the runs of the subtests *)

Definition test_now : GoTime := mkGoTime 1700000000 250000000.
Definition test_now' : GoTime := mkGoTime 1700000001 300000000.

(** Node 2 after the client's write, the order its map is ranged in, and
    node 1 after merging its [LocalState]. *)
Definition test_node2 (value : list byte) (expiration : Z) : Delegate :=
  Put test_now "my-key" value expiration (newDelegate "node2" meta2).
Definition test_parts (value : list byte) (expiration : Z) : list (NodeState * list (string * Entry)) :=
  (fun ns => (ns, map_to_list (Entries ns))) <$> NodeStates (fsm (test_node2 value expiration)).
Definition test_node1 (value : list byte) (expiration : Z) : Delegate :=
  Callbacks.MergeRemoteState (Callbacks.LocalState false (test_parts value expiration)) false
    (newDelegate "node1" meta1).

Lemma test_run value expiration :
  client_test_run "node1" "node2" meta1 meta2 "my-key" value expiration test_now false
    (test_parts value expiration) (test_node1 value expiration).
Proof.
  split.
  - split; [reflexivity|]. unfold test_parts, test_node2. rewrite Put_newDelegate. cbn. by constructor.
  - eexists. split; [apply MergeFSM_rel_MergeFSM|reflexivity].
Qed.

Lemma client_test_replicates_witness :
  expect_replicated test_now' "my-key" PutString_GetString_value
    (test_node1 PutString_GetString_value NoExpiration) = true.
Proof.
  apply (client_test_replicates "node1" "node2" meta1 meta2 "my-key" PutString_GetString_value
           test_now test_now' false (test_parts PutString_GetString_value NoExpiration)).
  - discriminate.
  - reflexivity.
  - reflexivity.
  - unfold GoTime_wf, int64_range. cbn. lia.
  - unfold fits. vm_compute. reflexivity.
  - apply test_run.
Defined.

(** An hour: the expiration subtests would pass with it too. *)
Definition one_hour : Z := 3600 * 1000 * Millisecond.

Lemma client_test_expiry_any_duration_witness :
  expect_not_found test_now' "my-key" (test_node1 Put_Get_expiration_value one_hour) = true.
Proof.
  apply (client_test_expiry_any_duration "node1" "node2" meta1 meta2 "my-key" Put_Get_expiration_value
           one_hour test_now test_now' false (test_parts Put_Get_expiration_value one_hour)).
  - discriminate.
  - reflexivity.
  - reflexivity.
  - unfold GoTime_wf, int64_range. cbn. lia.
  - unfold one_hour, Millisecond. lia.
  - unfold int64_range, one_hour, Millisecond. lia.
  - cbn. lia.
  - unfold fits. vm_compute. reflexivity.
  - apply test_run.
Defined.

(** C12. Every run of [TestClient] passes, its five subtests checked
    through the client calls they make (lines 41-217): whatever the node
    names (node 2's UTF-8), the clocks and the orders in which node 2's
    maps are ranged, [PutProto]/[GetProto] and [PutString]/[GetString]
    return the values written, and with an expiry of 100 ms, read in a
    later second than the write, [Exists] is false and [GetProto],
    [GetString] and [Get] return [ErrKeyNotFound]. *)
Theorem TestClient_passes n1 n2 m1 m2 now now' :
  n1 <> n2 -> utf8_valid (str_bytes n2) = true -> GoTime_wf now ->
  0 < GoTime_Unix now < GoTime_Unix now' ->
  TestClient n1 n2 m1 m2 now now'.
Proof.
  intros Hne Hn2 Hnow Ht. pose proof (proj2 Hnow) as Hns.
  assert (Hk : utf8_valid (str_bytes "my-key") = true) by reflexivity.
  assert (He : 0 <= test_expiration <= 2 ^ 63 - 1) by (unfold test_expiration, Millisecond; lia).
  assert (Hz : 0 <= NoExpiration <= 2 ^ 63 - 1) by (unfold NoExpiration; lia).
  split_and!;
    [apply (subtest_passes_Put _ _ n1 n2 m1 m2 "my-key" [] NoExpiration now)
    |apply (subtest_passes_Put _ _ n1 n2 m1 m2 "my-key" (str_bytes "my-value") NoExpiration now)
    |apply (subtest_passes_Put _ _ n1 n2 m1 m2 "my-key" (Hello_bytes "my-key") test_expiration now)
    |apply (subtest_passes_Put _ _ n1 n2 m1 m2 "my-key" (str_bytes "my-value") test_expiration now)
    |apply (subtest_passes_Put _ _ n1 n2 m1 m2 "my-key" (Hello_bytes "my-key") test_expiration now)];
    try done;
    try (intros d; unfold PutProto, PutString, PutAny; cbn [Encode Hello_Codec string_Codec];
         by rewrite ?Marshal_Hello_zero, ?Marshal_Hello_my_key);
    intros node1 Hs; destruct (reads_of_entry now' _ node1 _ Hs) as [-> HG];
    unfold GetProto, GetString, GetAny; rewrite HG.
  - rewrite view_put_entry_live by (done || (unfold NoExpiration; lia)). reflexivity.
  - rewrite view_put_entry_live by (done || (unfold NoExpiration; lia)). reflexivity.
  - rewrite view_put_entry_expired by (done || (unfold test_expiration, Millisecond; lia)). reflexivity.
  - rewrite view_put_entry_expired by (done || (unfold test_expiration, Millisecond; lia)). reflexivity.
  - rewrite view_put_entry_expired by (done || (unfold test_expiration, Millisecond; lia)). reflexivity.
Qed.

Lemma TestClient_passes_witness : TestClient "node1" "node2" meta1 meta2 test_now test_now'.
Proof.
  apply (TestClient_passes "node1" "node2" meta1 meta2 test_now test_now').
  - discriminate.
  - reflexivity.
  - unfold GoTime_wf, int64_range. cbn. lia.
  - cbn. lia.
Defined.
